(** * The token templating engine of brillnt-slide-templates

    A shallow embedding of [scripts/token-replacement]: the extractor
    ([TokenExtractor]), the resolver and replacer ([TokenReplacer]), the
    validator ([ConfigValidator]) and the processor ([TemplateProcessor]),
    followed by the properties the specification states about them.

    Conventions of the embedding.
    - A JavaScript string is a [string]; each [ascii] stands for one code
      unit, so the texts covered are those whose code units are below 256.
    - A configuration is a [value]: what [JSON.parse] builds, and
      [undefined].  An object is the list of its own properties in the
      order [for...in] visits them.
    - An object inherits from [Object.prototype] and an array from
      [Array.prototype]: a property access answers an own property or an
      inherited member, a [jsval].  The keys of the methods of the two
      prototypes, which depend on the version of the engine, are the
      interface [Realm].
    - A function that may throw returns an [exc]; [Throw m] carries the
      message of the error.
    - The regular-expression engine, the file system and [path.resolve]
      belong to the runtime.  The engine is the interface [RegExpHost];
      [Fragment.host] implements it for the expressions that plain token
      names give rise to. *)

From Stdlib Require Import String Ascii List ZArith Lia Bool DecimalString Sorted.
From stdpp Require Import gmap strings.
Import ListNotations.

Local Open Scope string_scope.
Local Open Scope list_scope.

(* ===================================================================== *)
(** * Part I: the program                                                *)
(* ===================================================================== *)

(** ** Strings *)

(** The code units matched by [\s] and removed by [String.prototype.trim]:
    tab, line feed, vertical tab, form feed, carriage return, space and
    no-break space. *)
Definition is_space (c : ascii) : bool :=
  let n := nat_of_ascii c in
  ((9 <=? n)%nat && (n <=? 13)%nat) || (n =? 32)%nat || (n =? 160)%nat.

(** Line terminators, which [.] does not match. *)
Definition is_line_terminator (c : ascii) : bool :=
  let n := nat_of_ascii c in (n =? 10)%nat || (n =? 13)%nat.

Fixpoint trimStart (s : string) : string :=
  match s with
  | String c r => if is_space c then trimStart r else s
  | EmptyString => EmptyString
  end.

Fixpoint trimEnd (s : string) : string :=
  match s with
  | String c r =>
      match trimEnd r with
      | EmptyString => if is_space c then EmptyString else String c EmptyString
      | r' => String c r'
      end
  | EmptyString => EmptyString
  end.

(** [s.trim()] *)
Definition trim (s : string) : string := trimEnd (trimStart s).

(** [s.includes('.')] *)
Fixpoint includes_dot (s : string) : bool :=
  match s with
  | String c r => Ascii.eqb c "." || includes_dot r
  | EmptyString => false
  end.

(** [s.split('.')]: never empty, one more part than there are dots. *)
Fixpoint split_dot (s : string) : list string :=
  match s with
  | EmptyString => [EmptyString]
  | String c r =>
      if Ascii.eqb c "." then EmptyString :: split_dot r
      else match split_dot r with
           | part :: parts => String c part :: parts
           | [] => [String c EmptyString]
           end
  end.

(** [parts.join(sep)] *)
Fixpoint join (sep : string) (parts : list string) : string :=
  match parts with
  | [] => ""
  | [p] => p
  | p :: rest => p +:+ sep +:+ join sep rest
  end.

(** [list.includes(x)] on an array of strings. *)
Definition includes (l : list string) (x : string) : bool :=
  existsb (String.eqb x) l.

Definition newline : string := String (ascii_of_nat 10) EmptyString.

(** Decimal rendering of a length or an index, and the reading of a
    property key as an array index (canonical numerals only: ["0"], ["7"],
    ["12"], but not ["07"]). *)
Definition show_nat (n : nat) : string := NilZero.string_of_uint (Nat.to_uint n).

Definition array_index (key : string) : option nat :=
  match NilZero.uint_of_string key with
  | Some d => let n := Nat.of_uint d in
              if String.eqb (show_nat n) key then Some n else None
  | None => None
  end.

(** ** Values *)

#[local] Set Warnings "-register-all".

Inductive value : Type :=
| VUndefined
| VNull
| VBool (b : bool)
| VNumber (shown : string)      (* a number, kept as what [String(n)] prints *)
| VString (s : string)
| VArray (elems : list value)
| VObject (props : list (string * value)).

(** [typeof v] *)
Definition typeof (v : value) : string :=
  match v with
  | VUndefined => "undefined"
  | VNull => "object"
  | VBool _ => "boolean"
  | VNumber _ => "number"
  | VString _ => "string"
  | VArray _ => "object"
  | VObject _ => "object"
  end.

(** Truthiness, as tested by [!v] and [v && ...]. *)
Definition truthy (v : value) : bool :=
  match v with
  | VUndefined | VNull => false
  | VBool b => b
  | VNumber shown => negb (String.eqb shown "0" || String.eqb shown "NaN")
  | VString s => negb (String.eqb s "")
  | VArray _ | VObject _ => true
  end.

(** [Array.isArray(v)] *)
Definition isArray (v : value) : bool :=
  match v with VArray _ => true | _ => false end.

(** [v !== undefined && v !== null] *)
Definition is_defined (v : value) : bool :=
  match v with VUndefined | VNull => false | _ => true end.

Fixpoint own_property (props : list (string * value)) (key : string) : option value :=
  match props with
  | [] => None
  | (k, v) :: rest => if String.eqb k key then Some v else own_property rest key
  end.

(** ** Exceptions *)

Inductive exc (A : Type) : Type :=
| Ok (a : A)
| Throw (message : string).
Arguments Ok {A} a.
Arguments Throw {A} message.

(** Sequencing: [x ← m; k] runs [k] on the value of [m] and passes on what
    [m] throws. *)
#[global] Instance exc_bind : MBind exc := λ A B k m,
  match m with
  | Ok a => k a
  | Throw e => Throw e
  end.

(** ** The built-in objects

    Every object of a configuration inherits from [Object.prototype], and
    every array from [Array.prototype], which itself inherits from
    [Object.prototype].  Reading a property therefore answers an own
    property or, failing that, a member of these two objects: one of their
    methods, their [constructor], or, for the accessor [__proto__], the
    prototype of the value read from. *)

Inductive prototype : Type :=
| ObjectPrototype
| ArrayPrototype.

(** What an expression of the code can evaluate to: a value of the
    configuration (or one built by the code), one of the two prototypes,
    or the function a prototype holds under a key. *)
Inductive jsval : Type :=
| Data (v : value)
| Prototype (p : prototype)
| Method (p : prototype) (key : string).

(** The built-in objects of the engine.  The methods of the prototypes
    differ from one version of the language to the next ([at], [findLast],
    [toSorted], ...): their keys are given by the engine.  The members of
    the wrappers of booleans, numbers and strings and those of functions
    are the engine's as well; the code reads the properties of objects
    only. *)
Class Realm : Type := {
  (** The keys under which a prototype holds a method, [constructor]
      aside. *)
  methods : prototype -> list string;
  (** [x[key]] for a boolean, a number, a string or a function [x]. *)
  member_of_primitive : jsval -> string -> jsval;
  (** No method is held under an array index. *)
  methods_are_named : forall p key, In key (methods p) -> array_index key = None
}.

(** [typeof x] *)
Definition type_of (x : jsval) : string :=
  match x with
  | Data v => typeof v
  | Prototype _ => "object"
  | Method _ _ => "function"
  end.

(** [x !== undefined && x !== null] *)
Definition defined (x : jsval) : bool :=
  match x with
  | Data v => is_defined v
  | _ => true
  end.

(** The name of the function a prototype holds under a key. *)
Definition function_name (p : prototype) (key : string) : string :=
  if String.eqb key "constructor"
  then match p with
       | ObjectPrototype => "Object"
       | ArrayPrototype => "Array"
       end
  else key.

(** [String(v)] for a value of a configuration.  An object is printed by
    its method [toString]: an object with an own property [toString] has
    no such method (the property holds a value of the configuration, which
    is no function, and [valueOf] gives the object back), and the
    conversion throws a [TypeError]; any other object inherits
    [Object.prototype.toString].  An array prints its elements separated
    by commas, with nothing for a [null] or [undefined] element. *)
Fixpoint toString (v : value) : exc string :=
  match v with
  | VUndefined => Ok "undefined"
  | VNull => Ok "null"
  | VBool true => Ok "true"
  | VBool false => Ok "false"
  | VNumber shown => Ok shown
  | VString s => Ok s
  | VArray elems =>
      texts ← (fix each (elems : list value) : exc (list string) :=
                 match elems with
                 | [] => Ok []
                 | e :: rest =>
                     text ← (if is_defined e then toString e else Ok "");
                     texts ← each rest;
                     Ok (text :: texts)
                 end) elems;
      Ok (join "," texts)
  | VObject props =>
      match own_property props "toString" with
      | Some _ => Throw "Cannot convert object to primitive value"
      | None => Ok "[object Object]"
      end
  end.

(** The loop of [toString] over the elements of an array, on its own. *)
Definition toStrings : list value -> exc (list string) :=
  fix each (elems : list value) : exc (list string) :=
    match elems with
    | [] => Ok []
    | e :: rest =>
        text ← (if is_defined e then toString e else Ok "");
        texts ← each rest;
        Ok (text :: texts)
    end.

(** [String(x)].  [Object.prototype] prints like any object,
    [Array.prototype] like the empty array it is, and a built-in function
    as its header and [[native code]]. *)
Definition String_ (x : jsval) : exc string :=
  match x with
  | Data v => toString v
  | Prototype ObjectPrototype => Ok "[object Object]"
  | Prototype ArrayPrototype => Ok ""
  | Method p key => Ok ("function " +:+ function_name p key
                        +:+ "() { [native code] }")
  end.

(** ** Property access *)

Definition char_at (s : string) (i : nat) : value :=
  match String.get i s with
  | Some c => VString (String c EmptyString)
  | None => VUndefined
  end.

(** [v.key] for the keys the configuration system reads: [client_name],
    [date], [payment], [amount], [description] and [provider], which no
    prototype defines, so that the answer is an own property or
    [undefined].  Reading a property of [null] or [undefined] throws a
    [TypeError]. *)
Definition get_prop (v : value) (key : string) : exc value :=
  match v with
  | VUndefined =>
      Throw ("Cannot read properties of undefined (reading '" +:+ key +:+ "')")
  | VNull =>
      Throw ("Cannot read properties of null (reading '" +:+ key +:+ "')")
  | VObject props =>
      Ok (match own_property props key with Some x => x | None => VUndefined end)
  | VArray elems =>
      if String.eqb key "length" then Ok (VNumber (show_nat (length elems)))
      else Ok (match array_index key with
               | Some i => nth i elems VUndefined
               | None => VUndefined
               end)
  | VString s =>
      if String.eqb key "length" then Ok (VNumber (show_nat (String.length s)))
      else Ok (match array_index key with
               | Some i => char_at s i
               | None => VUndefined
               end)
  | VBool _ | VNumber _ => Ok VUndefined
  end.

(** The element of an array under a key: the key is an index within the
    array. *)
Definition element (elems : list value) (key : string) : option value :=
  i ← array_index key; nth_error elems i.

Section Access.
Context {realm : Realm}.

(** Whether a prototype holds a function under the key. *)
Definition holds_method (p : prototype) (key : string) : bool :=
  String.eqb key "constructor" || includes (methods p) key.

(** The member found under [key] on the way up from the prototype [p],
    the accessor [__proto__] aside: an own member of [p], or one of
    [Object.prototype]; [undefined] when there is none. *)
Definition from_prototype (p : prototype) (key : string) : jsval :=
  match p with
  | ObjectPrototype =>
      if holds_method ObjectPrototype key then Method ObjectPrototype key
      else Data VUndefined
  | ArrayPrototype =>
      if String.eqb key "length" then Data (VNumber "0")
      else if holds_method ArrayPrototype key then Method ArrayPrototype key
      else if holds_method ObjectPrototype key then Method ObjectPrototype key
      else Data VUndefined
  end.

(** What an object whose prototype is [p] and which has no own property
    [key] answers for [key]: its prototype for [__proto__], and otherwise
    the member found on the way up. *)
Definition inherited (p : prototype) (key : string) : jsval :=
  if String.eqb key "__proto__" then Prototype p else from_prototype p key.

(** [x[key]].  Reading a property of [null] or [undefined] throws a
    [TypeError]; an object answers with its own property or with what it
    inherits; an array has its elements and its [length] for own
    properties. *)
Definition get (x : jsval) (key : string) : exc jsval :=
  match x with
  | Data VUndefined =>
      Throw ("Cannot read properties of undefined (reading '" +:+ key +:+ "')")
  | Data VNull =>
      Throw ("Cannot read properties of null (reading '" +:+ key +:+ "')")
  | Data (VObject props) =>
      Ok (match own_property props key with
          | Some v => Data v
          | None => inherited ObjectPrototype key
          end)
  | Data (VArray elems) =>
      if String.eqb key "length" then Ok (Data (VNumber (show_nat (length elems))))
      else Ok (match element elems key with
               | Some v => Data v
               | None => inherited ArrayPrototype key
               end)
  | Prototype ObjectPrototype =>
      if String.eqb key "__proto__" then Ok (Data VNull)
      else Ok (from_prototype ObjectPrototype key)
  | Prototype ArrayPrototype =>
      if String.eqb key "__proto__" then Ok (Prototype ObjectPrototype)
      else Ok (from_prototype ArrayPrototype key)
  | Data (VBool _) | Data (VNumber _) | Data (VString _) | Method _ _ =>
      Ok (member_of_primitive x key)
  end.

(** ** TokenReplacer.getNestedValue *)

(** The [for (const part of parts)] loop. *)
Fixpoint descend (current : jsval) (parts : list string) : exc jsval :=
  match parts with
  | [] => Ok current
  | part :: rest =>
      if negb (defined current) then Ok (Data VUndefined)
      else if negb (String.eqb (type_of current) "object")
      then Ok (Data VUndefined)
      else next ← get current part; descend next rest
  end.

Definition getNestedValue (obj : value) (path : string) : exc jsval :=
  if negb (truthy obj) || negb (String.eqb (typeof obj) "object")
  then Ok (Data VUndefined)
  else if negb (includes_dot path) then get (Data obj) path
  else descend (Data obj) (split_dot path).

End Access.

Arguments get {realm} x key : simpl never.

(** The built-in objects of ECMAScript 2023 (with its annex B), used to
    evaluate the code on examples.  Of a primitive only the own
    properties of a string are given, its length and its characters: the
    code evaluated reads no property of a primitive. *)
Module ES2023.

Definition object_methods : list string :=
  ["__defineGetter__"; "__defineSetter__"; "hasOwnProperty";
   "__lookupGetter__"; "__lookupSetter__"; "isPrototypeOf";
   "propertyIsEnumerable"; "toString"; "valueOf"; "toLocaleString"].

Definition array_methods : list string :=
  ["at"; "concat"; "copyWithin"; "fill"; "find"; "findIndex"; "findLast";
   "findLastIndex"; "lastIndexOf"; "pop"; "push"; "reverse"; "shift";
   "unshift"; "slice"; "sort"; "splice"; "includes"; "indexOf"; "join";
   "keys"; "entries"; "values"; "forEach"; "filter"; "flat"; "flatMap";
   "map"; "every"; "some"; "reduce"; "reduceRight"; "toLocaleString";
   "toString"; "toReversed"; "toSorted"; "toSpliced"; "with"].

Definition realm : Realm :=
  {| methods p :=
       match p with
       | ObjectPrototype => object_methods
       | ArrayPrototype => array_methods
       end;
     member_of_primitive x key :=
       match x with
       | Data (VString s) =>
           if String.eqb key "length"
           then Data (VNumber (show_nat (String.length s)))
           else match array_index key with
                | Some i => Data (char_at s i)
                | None => Data VUndefined
                end
       | _ => Data VUndefined
       end;
     methods_are_named :=
       ltac:(intros [] key H; simpl in H;
             repeat (destruct H as [<-|H]; [reflexivity|]); destruct H) |}.

End ES2023.

(** ** TokenExtractor.extractTokens *)

(** What [[^}]+] can take at the front of [s]: the longest run free of
    ['}'], and what follows it. *)
Fixpoint span_body (s : string) : string * string :=
  match s with
  | String c r =>
      if Ascii.eqb c "}" then (EmptyString, s)
      else let (body, rest) := span_body r in (String c body, rest)
  | EmptyString => (EmptyString, EmptyString)
  end.

(** One attempt of [/\{\{([^}]+)\}\}/] at the front of [s]: the capture and
    the length of the match.  The run is greedy and giving characters back
    cannot help, the one after a shorter run not being ['}']. *)
Definition match_marker (s : string) : option (string * nat) :=
  match s with
  | String "{" (String "{" r) =>
      match span_body r with
      | (String c body, String "}" (String "}" _)) =>
          Some (String c body, 4 + String.length (String c body))
      | _ => None
      end
  | _ => None
  end.

(** The [while ((match = tokenRegex.exec(templateContent)) !== null)] loop:
    the captures of the successive matches, left to right.  [skip] counts
    the characters of the current match still to be passed. *)
Fixpoint scan (skip : nat) (s : string) : list string :=
  match s with
  | EmptyString => []
  | String _ r =>
      match skip with
      | S k => scan k r
      | O =>
          match match_marker s with
          | Some (body, len) => body :: scan (len - 1) r
          | None => scan 0 r
          end
      end
  end.

(** [set.add(x)] on a [Set] kept in insertion order. *)
Definition set_add (set : list string) (x : string) : list string :=
  if includes set x then set else set ++ [x].

(** [array.sort()] on strings: ascending code-unit order. *)
Fixpoint sort_insert (x : string) (l : list string) : list string :=
  match l with
  | [] => [x]
  | y :: rest => if String.leb x y then x :: l else y :: sort_insert x rest
  end.

Definition sort (l : list string) : list string := fold_right sort_insert [] l.

Definition extractTokens (templateContent : string) : list string :=
  sort (fold_left (fun tokens body => set_add tokens (trim body))
                  (scan 0 templateContent) []).

(** ** The regular-expression engine of the runtime *)

Class RegExpHost : Type := {
  regexp : Type;
  (** [new RegExp(source, 'g')]; a [SyntaxError] when [source] is not a
      regular expression. *)
  RegExp_g : string -> exc regexp;
  (** [subject.replace(re, replacement)] for a global [re] and a string
      [replacement]. *)
  String_replace : string -> regexp -> string -> string
}.

(** ** A regular-expression engine for token expressions

    The expressions [tokenRegexSource] yields for token names written with
    ordinary characters, [.], [^], [$], an escaped syntax character, [\s]
    and the greedy quantifiers [*], [+], [?] on one character; a closing
    bracket or brace on its own stands for itself, and so does an opening
    brace that begins no braced quantifier.  A malformed source is refused
    with the reason the engine gives.  A source with a closed group or
    class, an alternative, a braced or lazy quantifier or another escape
    lies outside the fragment, and is refused as well. *)
Module Fragment.

Inductive atom : Type :=
| Lit (c : ascii)      (* the character itself *)
| Any                  (* [.] *)
| Space.               (* [\s] *)

Inductive quantifier : Type := Once | Star | Plus | Opt.

Inductive item : Type :=
| Atom (a : atom) (q : quantifier)
| Bol                  (* [^] *)
| Eol.                 (* [$] *)

Definition atom_matches (a : atom) (c : ascii) : bool :=
  match a with
  | Lit d => Ascii.eqb d c
  | Any => negb (is_line_terminator c)
  | Space => is_space c
  end.

(** The characters a backslash makes literal. *)
Definition is_syntax_character (c : ascii) : bool :=
  existsb (Ascii.eqb c) (list_ascii_of_string "^$\.*+?()[]{}|/").

(** The characters that open or close a group, open a class, separate
    alternatives or open a braced quantifier. *)
Definition is_structure_character (c : ascii) : bool :=
  existsb (Ascii.eqb c) (list_ascii_of_string "()[|{").

Definition is_digit (c : ascii) : bool :=
  let n := nat_of_ascii c in (48 <=? n)%nat && (n <=? 57)%nat.

(** Whether what follows an opening brace makes it a braced quantifier:
    digits, then a closing brace, or a comma, digits if any, and a closing
    brace. *)
Fixpoint skip_digits (s : string) : string :=
  match s with
  | String c r => if is_digit c then skip_digits r else s
  | EmptyString => EmptyString
  end.

Definition begins_braced_quantifier (s : string) : bool :=
  match s with
  | String c _ =>
      is_digit c
      && match skip_digits s with
         | String "}" _ => true
         | String "," r =>
             match skip_digits r with
             | String "}" _ => true
             | _ => false
             end
         | _ => false
         end
  | EmptyString => false
  end.

Fixpoint has_char (c : ascii) (s : string) : bool :=
  match s with
  | String d r => Ascii.eqb c d || has_char c r
  | EmptyString => false
  end.

(** The reasons of the [SyntaxError]s. *)
Definition nothing_to_repeat : string := "Nothing to repeat".
Definition unterminated_group : string := "Unterminated group".
Definition unterminated_class : string := "Unterminated character class".
Definition unmatched_parenthesis : string := "Unmatched ')'".
Definition backslash_at_end : string := "\ at end of pattern".
(** The reason given for a source outside the fragment. *)
Definition outside_fragment : string := "outside the fragment".

(** A quantifier applies to the atom just read, once; a question mark
    after a quantifier makes it lazy. *)
Definition quantify (q : quantifier) (read : list item) : exc (list item) :=
  match read with
  | Atom a Once :: before => Ok (Atom a q :: before)
  | Atom _ _ :: _ =>
      match q with
      | Opt => Throw outside_fragment
      | _ => Throw nothing_to_repeat
      end
  | _ => Throw nothing_to_repeat
  end.

(** What is wrong with a class that is never closed: the source ends in
    the class, after a backslash or not. *)
Fixpoint open_class (s : string) : string :=
  match s with
  | EmptyString => unterminated_class
  | String c rest =>
      if Ascii.eqb c "\" then
        match rest with
        | String _ rest' => open_class rest'
        | EmptyString => backslash_at_end
        end
      else open_class rest
  end.

(** [read] holds the items read so far, last first. *)
Fixpoint parse (source : string) (read : list item) : exc (list item) :=
  match source with
  | EmptyString => Ok (rev read)
  | String c rest =>
      if Ascii.eqb c "\" then
        match rest with
        | String d rest' =>
            if Ascii.eqb d "s" then parse rest' (Atom Space Once :: read)
            else if is_syntax_character d
                 then parse rest' (Atom (Lit d) Once :: read)
                 else Throw outside_fragment
        | EmptyString => Throw backslash_at_end
        end
      else if Ascii.eqb c "." then parse rest (Atom Any Once :: read)
      else if Ascii.eqb c "^" then parse rest (Bol :: read)
      else if Ascii.eqb c "$" then parse rest (Eol :: read)
      else if Ascii.eqb c "*" then read' ← quantify Star read; parse rest read'
      else if Ascii.eqb c "+" then read' ← quantify Plus read; parse rest read'
      else if Ascii.eqb c "?" then read' ← quantify Opt read; parse rest read'
      else if Ascii.eqb c ")" then Throw unmatched_parenthesis
      else if Ascii.eqb c "(" then
        (* a group that is never closed: what is wrong with its content,
           or the group itself *)
        if has_char ")" rest || has_char "[" rest || has_char "|" rest
           || match rest with String "?" _ => true | _ => false end
        then Throw outside_fragment
        else match parse rest [] with
             | Ok _ => Throw unterminated_group
             | Throw reason => Throw reason
             end
      else if Ascii.eqb c "[" then
        if has_char "]" rest then Throw outside_fragment
        else Throw (open_class rest)
      else if Ascii.eqb c "|" then Throw outside_fragment
      else if Ascii.eqb c "{" then
        if begins_braced_quantifier rest then
          match read with
          | Atom _ Once :: _ => Throw outside_fragment
          | _ => Throw nothing_to_repeat
          end
        else parse rest (Atom (Lit c) Once :: read)
      else parse rest (Atom (Lit c) Once :: read)
  end.

(** The length of the match of [p] at the front of [s], if there is one;
    [at_start] tells whether [s] is the whole subject.  Quantifiers are
    greedy and give back one character at a time. *)
Fixpoint match_here (p : list item) : bool -> string -> option nat :=
  match p with
  | [] => fun _ _ => Some 0
  | Bol :: p' =>
      fun at_start s => if at_start then match_here p' at_start s else None
  | Eol :: p' =>
      fun at_start s =>
        match s with
        | EmptyString => match_here p' at_start s
        | String _ _ => None
        end
  | Atom a q :: p' =>
      let one (next : bool -> string -> option nat)
              (at_start : bool) (s : string) : option nat :=
        match s with
        | String c r => if atom_matches a c then S <$> next false r else None
        | EmptyString => None
        end in
      let many :=
        fix many (at_start : bool) (s : string) : option nat :=
          match s with
          | String c r =>
              if atom_matches a c then
                match many false r with
                | Some n => Some (S n)
                | None => match_here p' at_start s
                end
              else match_here p' at_start s
          | EmptyString => match_here p' at_start s
          end in
      match q with
      | Once => one (match_here p')
      | Star => many
      | Plus => one many
      | Opt =>
          fun at_start s =>
            match one (match_here p') at_start s with
            | Some n => Some n
            | None => match_here p' at_start s
            end
      end
  end.

(** The replacement text for one match: [$$], [$&], [$`] and [$'] are
    expanded; there being no group, [$1] and the like stand for
    themselves. *)
Fixpoint expand (replacement matched before after : string) : string :=
  match replacement with
  | EmptyString => EmptyString
  | String c rest =>
      if Ascii.eqb c "$" then
        match rest with
        | String d rest' =>
            if Ascii.eqb d "$" then String "$" (expand rest' matched before after)
            else if Ascii.eqb d "&"
                 then matched +:+ expand rest' matched before after
            else if Ascii.eqb d "`"
                 then before +:+ expand rest' matched before after
            else if Ascii.eqb d "'"
                 then after +:+ expand rest' matched before after
            else String c (expand rest matched before after)
        | EmptyString => String c EmptyString
        end
      else String c (expand rest matched before after)
  end.

(** [whole.replace(re, replacement)] from position [pos] on, [s] being
    what is left of [whole] there and [skip] the number of characters of
    the current match still to be passed. *)
Fixpoint replace_from (p : list item) (replacement whole : string)
    (pos skip : nat) (s : string) : string :=
  let at_start := (pos =? 0)%nat in
  match s with
  | EmptyString =>
      match skip, match_here p at_start s with
      | O, Some _ =>
          expand replacement EmptyString (substring 0 pos whole) EmptyString
      | _, _ => EmptyString
      end
  | String c r =>
      match skip with
      | S k => replace_from p replacement whole (S pos) k r
      | O =>
          match match_here p at_start s with
          | Some O =>
              expand replacement EmptyString (substring 0 pos whole) s
              +:+ String c (replace_from p replacement whole (S pos) 0 r)
          | Some (S n) =>
              expand replacement (substring pos (S n) whole)
                (substring 0 pos whole)
                (substring (pos + S n) (String.length whole) whole)
              +:+ replace_from p replacement whole (S pos) n r
          | None => String c (replace_from p replacement whole (S pos) 0 r)
          end
      end
  end.

Definition host : RegExpHost :=
  {| regexp := list item;
     RegExp_g source :=
       match parse source [] with
       | Ok p => Ok p
       | Throw reason =>
           Throw ("Invalid regular expression: /" +:+ source +:+ "/g: "
                  +:+ reason)
       end;
     String_replace subject re replacement :=
       replace_from re replacement subject 0 0 subject |}.

End Fragment.

(** ** TokenReplacer *)

Record replaceOptions : Type := {
  errorHandling : string;
  missingTokenPlaceholder : string;
  preserveUnknownTokens : bool
}.

Definition defaultReplaceOptions : replaceOptions :=
  {| errorHandling := "warn";
     missingTokenPlaceholder := "[MISSING]";
     preserveUnknownTokens := false |}.

(** The characters of the class [[.*+?^${}()|[\\]]. *)
Definition in_escape_class (c : ascii) : bool :=
  existsb (Ascii.eqb c) (list_ascii_of_string ".*+?^${}()|[\").

(** [str.replace(/[.*+?^${}()|[\\]\\\\]/g, '\\\\$&')].  As written, the
    expression is a character of the class followed by two backslashes and
    a closing bracket, and the replacement is two backslashes followed by
    the match. *)
Fixpoint escapeRegex (str : string) : string :=
  match str with
  | EmptyString => EmptyString
  | String c r =>
      match r with
      | String b1 (String b2 (String b3 rest)) =>
          if in_escape_class c && Ascii.eqb b1 "\" && Ascii.eqb b2 "\"
             && Ascii.eqb b3 "]"
          then String "\" (String "\" (String c (String "\" (String "\"
                 (String "]" (escapeRegex rest))))))
          else String c (escapeRegex r)
      | _ => String c (escapeRegex r)
      end
  end.

(** The source of [tokenRegex], after the template literal is evaluated. *)
Definition tokenRegexSource (token : string) : string :=
  "\{\{\s*" +:+ escapeRegex token +:+ "\s*\}\}".

Record handled : Type := {
  shouldReplace : bool;
  replacement : string
}.

Definition notFoundMessage (token : string) : string :=
  "Token '" +:+ token +:+ "' not found in config".

Definition causedErrorMessage (token message : string) : string :=
  "Token '" +:+ token +:+ "' caused error: " +:+ message.

(** [handleMissingToken(token, options, warnings, error)]: the [warnings]
    array after the push, and the object returned. *)
Definition handleMissingToken (token : string) (options : replaceOptions)
    (warnings : list string) (error : option string) : list string * handled :=
  let message := match error with
                 | Some e => causedErrorMessage token e
                 | None => notFoundMessage token
                 end in
  let warnings := warnings ++ [message] in
  if String.eqb (errorHandling options) "fail" then
    (warnings, {| shouldReplace := false; replacement := "" |})
  else if String.eqb (errorHandling options) "warn" then
    (warnings, {| shouldReplace := true;
                  replacement := missingTokenPlaceholder options |})
  else if String.eqb (errorHandling options) "graceful" then
    (warnings, {| shouldReplace := true;
                  replacement := missingTokenPlaceholder options |})
  else (warnings, {| shouldReplace := false; replacement := "" |}).

(** The sign and the two blanks [console.warn] prints before a warning (the
    sign is kept as its bytes). *)
Definition warn_sign : string := "⚠️  ".

(** What a call leaves behind: the lines given to [console.warn], and the
    value returned or the error thrown. *)
Record outcome (A : Type) : Type := {
  console : list string;
  returned : exc A
}.
Arguments console {A} o.
Arguments returned {A} o.

Record previewToken : Type := {
  pt_token : string; pt_value : string; pt_status : string
}.
Record previewMissing : Type := {
  pm_token : string; pm_path : string; pm_status : string
}.
Record previewError : Type := {
  pe_token : string; pe_error : string; pe_status : string
}.
Record preview : Type := {
  preview_tokens : list previewToken;
  preview_missing : list previewMissing;
  preview_errors : list previewError
}.

Section Replacer.
Context {host : RegExpHost} {realm : Realm}.

(** What the [catch] of the loop, and its branch of a missing token, do
    with the text and the warnings once [handleMissingToken] has
    answered. *)
Definition handleMissing (token : string) (opts : replaceOptions)
    (tokenRegex : regexp) (state : string * list string)
    (error : option string) : string * list string :=
  let (result, warnings) := state in
  let (warnings, h) := handleMissingToken token opts warnings error in
  if shouldReplace h
  then (String_replace result tokenRegex (replacement h), warnings)
  else (result, warnings).

(** The body of [for (const token of tokens)], from the state [(result,
    warnings)] before a token to the state after it.  [new RegExp] stands
    before the [try]: its [SyntaxError] leaves the function.  Inside the
    [try] stand the resolution of the token and [String(value)]; what they
    throw is caught. *)
Definition replaceStep (config : value) (opts : replaceOptions)
    (state : string * list string) (token : string)
    : exc (string * list string) :=
  tokenRegex ← RegExp_g (tokenRegexSource token);
  match (value ← getNestedValue config token;
         if defined value then
           text ← String_ value;
           Ok (String_replace (fst state) tokenRegex text, snd state)
         else Ok (handleMissing token opts tokenRegex state None)) with
  | Ok state => Ok state
  | Throw message =>
      Ok (handleMissing token opts tokenRegex state (Some message))
  end.

Fixpoint replaceLoop (config : value) (opts : replaceOptions)
    (tokens : list string) (state : string * list string)
    : exc (string * list string) :=
  match tokens with
  | [] => Ok state
  | token :: rest =>
      state ← replaceStep config opts state token;
      replaceLoop config opts rest state
  end.

(** [replaceTokens(content, config, tokens, options)], [options] merged
    with the defaults.  [tokens] is [None] for an absent or [null]
    argument. *)
Definition replaceTokens (content : string) (config : value)
    (tokens : option (list string)) (opts : replaceOptions)
    : outcome string :=
  let tokens := match tokens with
                | Some tokens => tokens
                | None => extractTokens content
                end in
  match replaceLoop config opts tokens (content, []) with
  | Throw message => {| console := []; returned := Throw message |}
  | Ok (result, warnings) =>
      match warnings with
      | [] => {| console := []; returned := Ok result |}
      | _ :: _ =>
          if String.eqb (errorHandling opts) "fail" then
            {| console := [];
               returned := Throw ("Token replacement failed:" +:+ newline
                                  +:+ join newline warnings) |}
          else if String.eqb (errorHandling opts) "warn" then
            {| console := map (fun warning => warn_sign +:+ warning) warnings;
               returned := Ok result |}
          else {| console := []; returned := Ok result |}
      end
  end.

(** The body of the loop of [previewReplacements]; [String(value)] stands
    inside the [try]. *)
Definition previewStep (config : value) (p : preview) (token : string)
    : preview :=
  match (value ← getNestedValue config token;
         if defined value then
           text ← String_ value;
           Ok {| preview_tokens := preview_tokens p ++
                   [{| pt_token := token; pt_value := text;
                       pt_status := "found" |}];
                 preview_missing := preview_missing p;
                 preview_errors := preview_errors p |}
         else
           Ok {| preview_tokens := preview_tokens p;
                 preview_missing := preview_missing p ++
                   [{| pm_token := token; pm_path := token;
                       pm_status := "missing" |}];
                 preview_errors := preview_errors p |}) with
  | Ok p => p
  | Throw message =>
      {| preview_tokens := preview_tokens p;
         preview_missing := preview_missing p;
         preview_errors := preview_errors p ++
           [{| pe_token := token; pe_error := message;
               pe_status := "error" |}] |}
  end.

(** [previewReplacements(content, config, tokens)] *)
Definition previewReplacements (content : string) (config : value)
    (tokens : option (list string)) : preview :=
  let tokens := match tokens with
                | Some tokens => tokens
                | None => extractTokens content
                end in
  fold_left (previewStep config) tokens
    {| preview_tokens := []; preview_missing := []; preview_errors := [] |}.

End Replacer.

(** ** ConfigValidator *)

Record validateOptions : Type := {
  strictMode : bool;
  allowEmpty : bool;
  warnOnUnused : bool
}.

Definition defaultValidateOptions : validateOptions :=
  {| strictMode := false; allowEmpty := false; warnOnUnused := false |}.

(** What [validateSingleToken] returns: [{found: true, value}] or
    [{found: false, reason}]. *)
Inductive tokenValidation : Type :=
| TokenFound (value : jsval)
| TokenMissing (reason : string).

(** [x === ''] *)
Definition is_empty_string (x : jsval) : bool :=
  match x with
  | Data (VString EmptyString) => true
  | _ => false
  end.

Record foundEntry : Type := {
  f_token : string; f_value : jsval; f_type : string
}.
Record missingEntry : Type := {
  m_token : string; m_reason : string
}.
Record validation : Type := {
  valid : bool;
  errors : list string;
  warnings : list string;
  missing : list missingEntry;
  found : list foundEntry;
  unused : list string
}.

(** [getAllConfigPaths(obj, prefix)].  [for (const key in obj)] visits the
    own properties of an object, the indices of an array and the indices of
    a string, and nothing of any other value. *)
Definition pathOf (prefix key : string) : string :=
  if negb (String.eqb prefix "") then prefix +:+ "." +:+ key else key.

(** [v && typeof v === 'object' && !Array.isArray(v)] *)
Definition isNestedObject (v : value) : bool :=
  truthy v && String.eqb (typeof v) "object" && negb (isArray v).

(** An object with an own property [hasOwnProperty]: [obj.hasOwnProperty]
    is then that property, a value of the configuration and no function,
    and the call [obj.hasOwnProperty(key)] throws a [TypeError].  An array
    and a string have no such own property. *)
Definition shadows_hasOwnProperty (props : list (string * value)) : bool :=
  match own_property props "hasOwnProperty" with
  | Some _ => true
  | None => false
  end.

Definition not_a_function : string := "obj.hasOwnProperty is not a function".

Fixpoint getAllConfigPaths (obj : value) (prefix : string) {struct obj}
    : exc (list string) :=
  match obj with
  | VObject props =>
      (fix each (rest : list (string * value)) : exc (list string) :=
         match rest with
         | [] => Ok []
         | (key, v) :: rest =>
             if shadows_hasOwnProperty props then Throw not_a_function
             else
               here ← (if isNestedObject v
                       then getAllConfigPaths v (pathOf prefix key)
                       else Ok [pathOf prefix key]);
               more ← each rest;
               Ok (here ++ more)
         end) props
  | VArray elems =>
      (fix each (i : nat) (elems : list value) : exc (list string) :=
         match elems with
         | [] => Ok []
         | v :: rest =>
             here ← (if isNestedObject v
                     then getAllConfigPaths v (pathOf prefix (show_nat i))
                     else Ok [pathOf prefix (show_nat i)]);
             more ← each (S i) rest;
             Ok (here ++ more)
         end) 0 elems
  | VString s =>
      Ok (map (fun i => pathOf prefix (show_nat i)) (seq 0 (String.length s)))
  | _ => Ok []
  end.

(** The two loops of [getAllConfigPaths] on their own: over the own
    properties of an object, [shadowed] telling whether the object has an
    own property [hasOwnProperty], *)
Definition eachProperty (shadowed : bool) (prefix : string)
    : list (string * value) -> exc (list string) :=
  fix each (rest : list (string * value)) : exc (list string) :=
    match rest with
    | [] => Ok []
    | (key, v) :: rest =>
        if shadowed then Throw not_a_function
        else
          here ← (if isNestedObject v
                  then getAllConfigPaths v (pathOf prefix key)
                  else Ok [pathOf prefix key]);
          more ← each rest;
          Ok (here ++ more)
    end.

(** and over the indices of an array. *)
Definition eachElement (prefix : string)
    : nat -> list value -> exc (list string) :=
  fix each (i : nat) (elems : list value) : exc (list string) :=
    match elems with
    | [] => Ok []
    | v :: rest =>
        here ← (if isNestedObject v
                then getAllConfigPaths v (pathOf prefix (show_nat i))
                else Ok [pathOf prefix (show_nat i)]);
        more ← each (S i) rest;
        Ok (here ++ more)
    end.

(** [findUnusedConfigValues(config, usedTokens)] *)
Definition findUnusedConfigValues (config : value) (usedTokens : list string)
    : exc (list string) :=
  allConfigPaths ← getAllConfigPaths config "";
  Ok (List.filter (fun configPath => negb (includes usedTokens configPath))
                  allConfigPaths).

Section Validator.
Context {realm : Realm}.

Definition validateSingleToken (config : value) (token : string)
    (allowEmpty : bool) : tokenValidation :=
  match getNestedValue config token with
  | Ok (Data VUndefined) => TokenMissing "not found in config"
  | Ok (Data VNull) => TokenMissing "value is null"
  | Ok value =>
      if negb allowEmpty && is_empty_string value
      then TokenMissing "value is empty string"
      else TokenFound value
  | Throw message => TokenMissing ("error accessing value: " +:+ message)
  end.

(** The body of [for (const token of requiredTokens)]. *)
Definition validateStep (config : value) (opts : validateOptions)
    (result : validation) (token : string) : validation :=
  match validateSingleToken config token (allowEmpty opts) with
  | TokenFound value =>
      {| valid := valid result; errors := errors result;
         warnings := warnings result; missing := missing result;
         found := found result ++
           [{| f_token := token; f_value := value; f_type := type_of value |}];
         unused := unused result |}
  | TokenMissing reason =>
      let missing' := missing result ++
                      [{| m_token := token; m_reason := reason |}] in
      if strictMode opts then
        {| valid := false;
           errors := errors result ++
             ["Required token '" +:+ token +:+ "' is missing: " +:+ reason];
           warnings := warnings result; missing := missing';
           found := found result; unused := unused result |}
      else
        {| valid := valid result; errors := errors result;
           warnings := warnings result ++
             ["Token '" +:+ token +:+ "' is missing: " +:+ reason];
           missing := missing'; found := found result;
           unused := unused result |}
  end.

(** The loop of [validateAgainstTokens] over the required tokens. *)
Definition validateLoop (config : value) (requiredTokens : list string)
    (opts : validateOptions) : validation :=
  fold_left (validateStep config opts) requiredTokens
    {| valid := true; errors := []; warnings := []; missing := [];
       found := []; unused := [] |}.

(** [validateAgainstTokens(config, requiredTokens, options)], [options]
    merged with the defaults.  What [findUnusedConfigValues] throws leaves
    the function. *)
Definition validateAgainstTokens (config : value) (requiredTokens : list string)
    (opts : validateOptions) : exc validation :=
  let result := validateLoop config requiredTokens opts in
  if warnOnUnused opts then
    unusedValues ← findUnusedConfigValues config requiredTokens;
    Ok {| valid := valid result; errors := errors result;
          warnings :=
            match unusedValues with
            | [] => warnings result
            | _ :: _ => warnings result ++
                        ["Unused config values: " +:+ join ", " unusedValues]
            end;
          missing := missing result; found := found result;
          unused := unusedValues |}
  else Ok result.

End Validator.

(** ** The file system and the extractor's cache *)

Record file : Type := {
  content : string;
  mtime : Z            (* [stats.mtime.getTime()] *)
}.

Record cacheEntry : Type := {
  ce_tokens : list string;
  ce_mtime : Z
}.

Section Files.
(** [path.resolve]; files and cache entries are keyed by absolute path. *)
Variable path_resolve : string -> string.

(** [fs.readFileSync(path, 'utf8')]: the file system is asked for the
    absolute form of [path]. *)
Definition readFileSync (fs : gmap string file) (path : string) : exc string :=
  match fs !! path_resolve path with
  | Some f => Ok (content f)
  | None => Throw ("ENOENT: no such file or directory, open '" +:+ path +:+ "'")
  end.

(** [fs.readFileSync(absolutePath, 'utf8')] and
    [fs.statSync(absolutePath).mtime.getTime()] on a path that is
    absolute already. *)
Definition readAbsolute (fs : gmap string file) (absolutePath : string)
    : exc string :=
  match fs !! absolutePath with
  | Some f => Ok (content f)
  | None => Throw ("ENOENT: no such file or directory, open '"
                   +:+ absolutePath +:+ "'")
  end.

Definition statAbsolute (fs : gmap string file) (absolutePath : string)
    : exc Z :=
  match fs !! absolutePath with
  | Some f => Ok (mtime f)
  | None => Throw ("ENOENT: no such file or directory, stat '"
                   +:+ absolutePath +:+ "'")
  end.

(** The second [try] of [getCachedTokens]: read, extract, stat, store. *)
Definition readAndCache (fs : gmap string file) (templatePath : string)
    (cache : gmap string cacheEntry)
    : exc (list string) * gmap string cacheEntry :=
  let absolutePath := path_resolve templatePath in
  match (content ← readAbsolute fs absolutePath;
         stamp ← statAbsolute fs absolutePath;
         Ok (extractTokens content, stamp)) with
  | Ok (tokens, stamp) =>
      (Ok tokens,
       <[absolutePath := {| ce_tokens := tokens; ce_mtime := stamp |}]> cache)
  | Throw message =>
      (Throw ("Error reading template file " +:+ templatePath +:+ ": "
              +:+ message), cache)
  end.

(** [TokenExtractor.getCachedTokens(templatePath)]: the list returned or
    the error thrown, and the cache afterwards. *)
Definition getCachedTokens (fs : gmap string file) (templatePath : string)
    (cache : gmap string cacheEntry)
    : exc (list string) * gmap string cacheEntry :=
  let absolutePath := path_resolve templatePath in
  match cache !! absolutePath with
  | Some cached =>
      match statAbsolute fs absolutePath with
      | Ok stamp =>
          if (stamp =? ce_mtime cached)%Z then (Ok (ce_tokens cached), cache)
          else readAndCache fs templatePath cache
      | Throw _ =>
          (Throw ("Template file not found: " +:+ templatePath),
           delete absolutePath cache)
      end
  | None => readAndCache fs templatePath cache
  end.
End Files.

(** ** TemplateProcessor *)

Record processorOptions : Type := {
  po_errorHandling : string;
  po_missingTokenPlaceholder : string;
  po_strictValidation : bool;
  po_allowEmptyValues : bool;
  po_warnOnUnused : bool;
  po_cacheTokens : bool
}.

(** The options of a processor built with no argument. *)
Definition defaultProcessorOptions : processorOptions :=
  {| po_errorHandling := "warn";
     po_missingTokenPlaceholder := "[MISSING]";
     po_strictValidation := false;
     po_allowEmptyValues := false;
     po_warnOnUnused := false;
     po_cacheTokens := true |}.

(** A [processingOptions] argument: the fields it sets. *)
Record processingOptions : Type := {
  set_errorHandling : option string;
  set_missingTokenPlaceholder : option string;
  set_strictValidation : option bool;
  set_allowEmptyValues : option bool;
  set_warnOnUnused : option bool;
  set_cacheTokens : option bool
}.

Definition noOverride : processingOptions :=
  {| set_errorHandling := None; set_missingTokenPlaceholder := None;
     set_strictValidation := None; set_allowEmptyValues := None;
     set_warnOnUnused := None; set_cacheTokens := None |}.

(** [{ ...this.options, ...processingOptions }] *)
Definition mergeOptions (options : processorOptions) (over : processingOptions)
    : processorOptions :=
  {| po_errorHandling := default (po_errorHandling options) (set_errorHandling over);
     po_missingTokenPlaceholder :=
       default (po_missingTokenPlaceholder options) (set_missingTokenPlaceholder over);
     po_strictValidation :=
       default (po_strictValidation options) (set_strictValidation over);
     po_allowEmptyValues :=
       default (po_allowEmptyValues options) (set_allowEmptyValues over);
     po_warnOnUnused := default (po_warnOnUnused options) (set_warnOnUnused over);
     po_cacheTokens := default (po_cacheTokens options) (set_cacheTokens over) |}.

Record tokenSummary : Type := {
  ts_found : list string;
  ts_total : nat;
  ts_missing : list string;
  ts_replaced : list string
}.

(** The object [processTemplate] resolves to, and the one the loop of
    [processMultipleTemplates] builds in its own [catch].  The time stamp
    [processedAt] of the metadata is left out. *)
Inductive processResult : Type :=
| Processed (templatePath : string) (content originalContent : string)
    (tokens : tokenSummary) (validation : validation)
    (options : processorOptions) (fileSize outputSize : nat)
| Failed (templatePath : string) (error : string)
    (options : option processorOptions).

Definition success (r : processResult) : bool :=
  match r with
  | Processed _ _ _ _ _ _ _ _ => true
  | Failed _ _ _ => false
  end.

Definition templatePathOf (r : processResult) : string :=
  match r with
  | Processed templatePath _ _ _ _ _ _ _ => templatePath
  | Failed templatePath _ _ => templatePath
  end.

(** The state a call works on: the extractor's cache and what has been
    written to the console. *)
Record world : Type := {
  cache : gmap string cacheEntry;
  printed : list string
}.

Record batchSummary : Type := {
  total : nat;
  successful : nat;
  failedCount : nat
}.

Record batchResult : Type := {
  batchSuccess : bool;
  processed : list processResult;
  failed : list processResult;
  summary : batchSummary;
  aggregatedTokens : list string;
  aggregatedErrors : list string;
  aggregatedWarnings : list string
}.

Section Processor.
Context {host : RegExpHost} {realm : Realm}.
Variable path_resolve : string -> string.
Variable fs : gmap string file.
(** [this.options] *)
Variable options : processorOptions.

(** [processTemplate(templatePath, config, processingOptions)].  The
    whole body stands in a [try] whose [catch] builds the failure object,
    so the promise never rejects. *)
Definition processTemplate (templatePath : string) (config : value)
    (processingOptions : processingOptions) (w : world)
    : exc processResult * world :=
  let opts := mergeOptions options processingOptions in
  let fail message w := (Ok (Failed templatePath message (Some opts)), w) in
  match readFileSync path_resolve fs templatePath with
  | Throw message => fail message w
  | Ok templateContent =>
      let (extracted, cache') :=
        if po_cacheTokens opts
        then getCachedTokens path_resolve fs templatePath (cache w)
        else (Ok (extractTokens templateContent), cache w) in
      let w := {| cache := cache'; printed := printed w |} in
      match extracted with
      | Throw message => fail message w
      | Ok tokens =>
          match validateAgainstTokens config tokens
                  {| strictMode := po_strictValidation opts;
                     allowEmpty := po_allowEmptyValues opts;
                     warnOnUnused := po_warnOnUnused opts |} with
          | Throw message => fail message w
          | Ok validation =>
              if negb (valid validation)
                 && String.eqb (po_errorHandling opts) "fail"
              then fail ("Template validation failed for " +:+ templatePath
                         +:+ ":" +:+ newline
                         +:+ join newline (errors validation)) w
              else
                let o := replaceTokens templateContent config (Some tokens)
                           {| errorHandling := po_errorHandling opts;
                              missingTokenPlaceholder :=
                                po_missingTokenPlaceholder opts;
                              preserveUnknownTokens := false |} in
                let w := {| cache := cache w;
                            printed := printed w ++ console o |} in
                match returned o with
                | Throw message => fail message w
                | Ok processedContent =>
                    (Ok (Processed templatePath processedContent
                           templateContent
                           {| ts_found := tokens;
                              ts_total := length tokens;
                              ts_missing := map m_token (missing validation);
                              ts_replaced := map f_token (found validation) |}
                           validation opts
                           (String.length templateContent)
                           (String.length processedContent)), w)
                end
          end
      end
  end.

(** The body of [for (const templatePath of templatePaths)]. *)
Definition batchStep (config : value) (processingOptions : processingOptions)
    (state : batchResult * world) (templatePath : string)
    : batchResult * world :=
  let (results, w) := state in
  let (attempt, w) := processTemplate templatePath config processingOptions w in
  let recordFailure (entry : processResult) : batchResult :=
    {| batchSuccess := false;
       processed := processed results;
       failed := failed results ++ [entry];
       summary := {| total := total (summary results);
                     successful := successful (summary results);
                     failedCount := S (failedCount (summary results)) |};
       aggregatedTokens := aggregatedTokens results;
       aggregatedErrors := aggregatedErrors results;
       aggregatedWarnings := aggregatedWarnings results |} in
  match attempt with
  | Ok (Processed _ _ _ tokens validation _ _ _ as result) =>
      ({| batchSuccess := batchSuccess results;
          processed := processed results ++ [result];
          failed := failed results;
          summary := {| total := total (summary results);
                        successful := S (successful (summary results));
                        failedCount := failedCount (summary results) |};
          aggregatedTokens :=
            fold_left set_add (ts_found tokens) (aggregatedTokens results);
          aggregatedErrors := aggregatedErrors results ++ errors validation;
          aggregatedWarnings :=
            aggregatedWarnings results ++ warnings validation |}, w)
  | Ok (Failed _ _ _ as result) => (recordFailure result, w)
  | Throw message => (recordFailure (Failed templatePath message None), w)
  end.

(** [processMultipleTemplates(templatePaths, config, processingOptions)] *)
Definition processMultipleTemplates (templatePaths : list string)
    (config : value) (processingOptions : processingOptions) (w : world)
    : batchResult * world :=
  fold_left (batchStep config processingOptions) templatePaths
    ({| batchSuccess := true; processed := []; failed := [];
        summary := {| total := length templatePaths; successful := 0;
                      failedCount := 0 |};
        aggregatedTokens := []; aggregatedErrors := [];
        aggregatedWarnings := [] |}, w).
End Processor.

(** ** Notions the statements below are written in *)

(** A value whose properties can be read: an object or an array. *)
Definition is_object (v : value) : bool :=
  match v with
  | VObject _ | VArray _ => true
  | _ => false
  end.

(** The value an object or an array holds under [key]; [None] when [v] is
    no object or has no such key. *)
Definition member (v : value) (key : string) : option value :=
  match v with
  | VObject props => own_property props key
  | VArray elems =>
      if String.eqb key "length" then Some (VNumber (show_nat (length elems)))
      else i ← array_index key; nth_error elems i
  | _ => None
  end.

(** [reaches v segments x]: going down from [v] one segment at a time,
    each time through an object or array holding the segment, ends at [x]. *)
Inductive reaches : value -> list string -> value -> Prop :=
| reaches_here (v : value) : reaches v [] v
| reaches_down (v : value) (key : string) (rest : list string) (x y : value) :
    member v key = Some x -> reaches x rest y -> reaches v (key :: rest) y.

(** The values [String] converts: every value but an object with an own
    property [toString], and an array that holds such an object, directly
    or in the arrays nested in it. *)
Fixpoint converts (v : value) : bool :=
  match v with
  | VObject props =>
      match own_property props "toString" with
      | Some _ => false
      | None => true
      end
  | VArray elems =>
      (fix each (elems : list value) : bool :=
         match elems with
         | [] => true
         | e :: rest => (if is_defined e then converts e else true) && each rest
         end) elems
  | _ => true
  end.

Definition cannot_convert : string := "Cannot convert object to primitive value".

(** What an object or an array that has no own property [key] answers for
    that key. *)
Definition inherits {realm : Realm} (v : value) (key : string) : jsval :=
  match v with
  | VObject _ => inherited ObjectPrototype key
  | VArray _ => inherited ArrayPrototype key
  | _ => Data VUndefined
  end.

(** A key under which objects and arrays inherit nothing: not
    [__proto__], not [constructor], not [length] (which [Array.prototype]
    has) and not the key of a method of a prototype. *)
Definition not_inherited {realm : Realm} (key : string) : bool :=
  negb (String.eqb key "__proto__") && negb (String.eqb key "length")
  && negb (holds_method ObjectPrototype key)
  && negb (holds_method ArrayPrototype key).

(** The tokens for which the replacer takes the branch of a resolved value,
    [value !== undefined && value !== null]. *)
Definition resolves {realm : Realm} (config : value) (token : string) : bool :=
  match getNestedValue config token with
  | Ok x => defined x
  | Throw _ => false
  end.

(** The tokens whose resolved value is the empty string. *)
Definition resolves_to_empty {realm : Realm} (config : value) (token : string)
    : bool :=
  match getNestedValue config token with
  | Ok x => is_empty_string x
  | Throw _ => false
  end.

(** The tokens that resolve and, unless empty values are allowed, do not
    resolve to the empty string. *)
Definition counted {realm : Realm} (config : value) (allowEmpty : bool)
    (token : string) : bool :=
  resolves config token && (allowEmpty || negb (resolves_to_empty config token)).

(** [String(value)] for the value a token resolves to: the text of the
    value, or the message of the [TypeError]. *)
Definition textOfToken {realm : Realm} (config : value) (token : string)
    : exc string :=
  value ← getNestedValue config token; String_ value.

(** The tokens that resolve to a value [String] cannot convert. *)
Definition unprintable {realm : Realm} (config : value) (token : string)
    : bool :=
  resolves config token
  && match textOfToken config token with
     | Ok _ => false
     | Throw _ => true
     end.

(** The tokens that resolve to a value [String] converts. *)
Definition printable {realm : Realm} (config : value) (token : string)
    : bool :=
  resolves config token && negb (unprintable config token).

(** [leaf_at v segments]: the keys [segments] lead from [v], through nested
    objects only, to a value that is not a nested object (a scalar, [null]
    or an array).  The keys of an array or of a string, which can only be
    the configuration itself, are its indices. *)
Inductive leaf_at : value -> list string -> Prop :=
| leaf_property (props : list (string * value)) (key : string) (v : value) :
    In (key, v) props -> isNestedObject v = false ->
    leaf_at (VObject props) [key]
| leaf_nested (props : list (string * value)) (key : string) (v : value)
    (rest : list string) :
    In (key, v) props -> isNestedObject v = true -> leaf_at v rest ->
    leaf_at (VObject props) (key :: rest)
| leaf_element (elems : list value) (i : nat) (v : value) :
    nth_error elems i = Some v -> isNestedObject v = false ->
    leaf_at (VArray elems) [show_nat i]
| leaf_element_nested (elems : list value) (i : nat) (v : value)
    (rest : list string) :
    nth_error elems i = Some v -> isNestedObject v = true -> leaf_at v rest ->
    leaf_at (VArray elems) (show_nat i :: rest)
| leaf_character (s : string) (i : nat) :
    i < String.length s -> leaf_at (VString s) [show_nat i].

(** The dotted path of a list of keys: the keys joined by dots. *)
Definition dotted (segments : list string) : string := join "." segments.

(** The path [getAllConfigPaths] builds for a list of keys below a
    prefix, one [currentPath] after the other. *)
Definition currentPath (prefix : string) (segments : list string) : string :=
  fold_left pathOf segments prefix.

(** The keys from the first that is not empty on. *)
Fixpoint drop_empty (segments : list string) : list string :=
  match segments with
  | EmptyString :: rest => drop_empty rest
  | _ => segments
  end.

(** No object met while flattening has an own property [hasOwnProperty]:
    the objects nested in objects, and those that are elements of the
    configuration when it is an array. *)
Fixpoint unshadowed (v : value) : bool :=
  match v with
  | VObject props =>
      negb (shadows_hasOwnProperty props)
      && (fix each (props : list (string * value)) : bool :=
            match props with
            | [] => true
            | (_, x) :: rest =>
                (if isNestedObject x then unshadowed x else true) && each rest
            end) props
  | VArray elems =>
      (fix each (elems : list value) : bool :=
         match elems with
         | [] => true
         | x :: rest =>
             (if isNestedObject x then unshadowed x else true) && each rest
         end) elems
  | _ => true
  end.

(** Whether [new RegExp] accepts the expression of a token. *)
Definition compiles {host : RegExpHost} (token : string) : bool :=
  match RegExp_g (tokenRegexSource token) with
  | Ok _ => true
  | Throw _ => false
  end.

(** The characters of a token name that stand for themselves or for an
    assertion or [.] in its expression: all but the backslash, the
    quantifiers and the characters that build groups, classes,
    alternatives and braced quantifiers.  Letters, digits, [_], [-], [$],
    [.] and blanks are among them. *)
Definition is_ordinary (c : ascii) : bool :=
  negb (Ascii.eqb c "\" || Ascii.eqb c "*" || Ascii.eqb c "+" || Ascii.eqb c "?"
        || Fragment.is_structure_character c).

Fixpoint all_ordinary (token : string) : bool :=
  match token with
  | EmptyString => true
  | String c rest => is_ordinary c && all_ordinary rest
  end.

(** The item an ordinary character is read as. *)
Definition item_of (c : ascii) : Fragment.item :=
  if Ascii.eqb c "." then Fragment.Atom Fragment.Any Fragment.Once
  else if Ascii.eqb c "^" then Fragment.Bol
  else if Ascii.eqb c "$" then Fragment.Eol
  else Fragment.Atom (Fragment.Lit c) Fragment.Once.

(** The tokens a call of [replaceTokens] works on. *)
Definition tokensOf (content : string) (tokens : option (list string))
    : list string :=
  match tokens with
  | Some tokens => tokens
  | None => extractTokens content
  end.

Section Discipline.
(** A history in which the content of a file is a function of its path
    and modification time: no edit keeps the time stamp. *)
Variable snapshot : string -> Z -> string.

Definition tracks (fs : gmap string file) : Prop :=
  forall path f, fs !! path = Some f -> content f = snapshot path (mtime f).

Definition coherent (cache : gmap string cacheEntry) : Prop :=
  forall path e, cache !! path = Some e ->
    ce_tokens e = extractTokens (snapshot path (ce_mtime e)).
End Discipline.

(** A history of calls of [getCachedTokens]: each call finds the file
    system in some state and the cache as the call before left it. *)
Fixpoint calls (path_resolve : string -> string)
    (history : list (gmap string file * string))
    (cache : gmap string cacheEntry) : list (exc (list string)) :=
  match history with
  | [] => []
  | (fs, templatePath) :: rest =>
      let (r, cache') := getCachedTokens path_resolve fs templatePath cache in
      r :: calls path_resolve rest cache'
  end.

Section Attempts.
Context {host : RegExpHost} {realm : Realm}.
Variable path_resolve : string -> string.
Variable fs : gmap string file.
Variable options : processorOptions.

(** What the batch gets for one input. *)
Definition attempt (templatePath : string) (config : value)
    (po : processingOptions) (w : world) : processResult * world :=
  match processTemplate path_resolve fs options templatePath config po w with
  | (Ok r, w') => (r, w')
  | (Throw message, w') => (Failed templatePath message None, w')
  end.

(** The results of the inputs, each processed in the state its
    predecessors left. *)
Fixpoint attempts (templatePaths : list string) (config : value)
    (po : processingOptions) (w : world) : list processResult :=
  match templatePaths with
  | [] => []
  | templatePath :: rest =>
      let (r, w') := attempt templatePath config po w in
      r :: attempts rest config po w'
  end.
End Attempts.

(* ===================================================================== *)
(** * Further functions and notions                                      *)
(* ===================================================================== *)

(** [s.includes(c)] for one character [c]. *)
Fixpoint contains (c : ascii) (s : string) : bool :=
  match s with
  | String d r => Ascii.eqb c d || contains c r
  | EmptyString => false
  end.

(** The order [array.sort()] puts strings in. *)
Definition code_unit_le (a b : string) : Prop := String.leb a b = true.


(** ** TokenExtractor: the rest of the class *)

Section Extractor.
Variable path_resolve : string -> string.

(** [TokenExtractor.clearCache(templatePath)]; [None] is a call without
    an argument, or with [null]. *)
Definition clearCache (templatePath : option string)
    (cache : gmap string cacheEntry) : gmap string cacheEntry :=
  match templatePath with
  | Some templatePath =>
      if truthy (VString templatePath)
      then delete (path_resolve templatePath) cache
      else ∅
  | None => ∅
  end.

(** The object [extractFromMultipleFiles] returns: its own properties, a
    map from paths to the list of tokens or, for [{ error: message }], to
    the message; and the prototype it has been given, if any.  The
    assignment [results[templatePath] = x] creates or changes an own
    property, except for the path [__proto__]: that assignment is the
    setter of [Object.prototype], which makes the object [x] the prototype
    of [results] and creates no property.  The order of the properties is
    left out. *)
Record fileResults : Type := {
  own_results : gmap string (exc (list string));
  given_prototype : option (exc (list string))
}.

(** [results[templatePath] = r] *)
Definition assign_result (results : fileResults) (templatePath : string)
    (r : exc (list string)) : fileResults :=
  if String.eqb templatePath "__proto__"
  then {| own_results := own_results results; given_prototype := Some r |}
  else {| own_results := <[templatePath := r]> (own_results results);
          given_prototype := given_prototype results |}.

(** [TokenExtractor.extractFromMultipleFiles(templatePaths)]: the object
    returned and the cache afterwards. *)
Definition extractFromMultipleFiles (fs : gmap string file)
    (templatePaths : list string) (cache : gmap string cacheEntry)
    : fileResults * gmap string cacheEntry :=
  fold_left
    (fun (state : fileResults * gmap string cacheEntry) templatePath =>
       let (results, cache) := state in
       let (r, cache) := getCachedTokens path_resolve fs templatePath cache in
       (assign_result results templatePath r, cache))
    templatePaths
    ({| own_results := ∅; given_prototype := None |}, cache).

(** The body of the loop of [getAllUniqueTokens]: the set, the cache and
    the console. *)
Definition uniqueStep (fs : gmap string file)
    (state : list string * (gmap string cacheEntry * list string))
    (templatePath : string)
    : list string * (gmap string cacheEntry * list string) :=
  let '(allTokens, (cache, console)) := state in
  match getCachedTokens path_resolve fs templatePath cache with
  | (Ok tokens, cache) => (fold_left set_add tokens allTokens, (cache, console))
  | (Throw message, cache) =>
      (allTokens,
       (cache, console ++ ["Warning: Could not extract tokens from "
                           +:+ templatePath +:+ ": " +:+ message]))
  end.

(** [TokenExtractor.getAllUniqueTokens(templatePaths)]: the list returned,
    the cache afterwards and the lines written with [console.warn]. *)
Definition getAllUniqueTokens (fs : gmap string file)
    (templatePaths : list string) (cache : gmap string cacheEntry)
    : list string * (gmap string cacheEntry * list string) :=
  let '(allTokens, after) :=
    fold_left (uniqueStep fs) templatePaths ([], (cache, [])) in
  (sort allTokens, after).
End Extractor.

(** The files of [templatePaths] that can be read. *)
Definition readable (path_resolve : string -> string) (fs : gmap string file)
    (templatePath : string) : bool :=
  match fs !! path_resolve templatePath with
  | Some _ => true
  | None => false
  end.


(** ** ConfigValidator: the rest of the class *)

(** [findMissingTokens(config, requiredTokens)] *)
Definition findMissingTokens {realm : Realm} (config : value)
    (requiredTokens : list string) : list string :=
  fold_left
    (fun missing token =>
       match validateSingleToken config token false with
       | TokenFound _ => missing
       | TokenMissing _ => missing ++ [token]
       end)
    requiredTokens [].

(** The entries the loop of [validateAgainstTokens] adds to [missing] for
    a list of tokens. *)
Definition missingOf {realm : Realm} (config : value) (allowEmpty : bool)
    (tokens : list string) : list missingEntry :=
  flat_map
    (fun token =>
       match validateSingleToken config token allowEmpty with
       | TokenFound _ => []
       | TokenMissing reason => [{| m_token := token; m_reason := reason |}]
       end)
    tokens.

(** The error of strict mode and the warning of the other mode for a
    missing token. *)
Definition requiredMessage (m : missingEntry) : string :=
  "Required token '" +:+ m_token m +:+ "' is missing: " +:+ m_reason m.

Definition missingMessage (m : missingEntry) : string :=
  "Token '" +:+ m_token m +:+ "' is missing: " +:+ m_reason m.


(** The text a run of the loop ends with, its warnings left aside. *)
Definition textOf (r : exc (string * list string)) : exc string :=
  match r with
  | Ok (text, _) => Ok text
  | Throw message => Throw message
  end.


(** ** TemplateProcessor: the rest of the class *)

(** What [previewProcessing] returns: the preview, or the object of its
    [catch], whose [wouldSucceed] is [false]. *)
Inductive processingPreview : Type :=
| Previewed (templatePath : string) (tokens : list string)
    (validation : validation) (replacementPreview : preview)
    (wouldSucceed : bool)
| PreviewFailed (templatePath : string) (error : string).

Definition wouldSucceed (p : processingPreview) : bool :=
  match p with
  | Previewed _ _ _ _ wouldSucceed => wouldSucceed
  | PreviewFailed _ _ => false
  end.

Section ProcessorRest.
Context {realm : Realm}.
Variable path_resolve : string -> string.
Variable fs : gmap string file.
Variable options : processorOptions.

(** [previewProcessing(templatePath, config)] *)
Definition previewProcessing (templatePath : string) (config : value)
    : processingPreview :=
  match readFileSync path_resolve fs templatePath with
  | Throw message => PreviewFailed templatePath message
  | Ok templateContent =>
      let tokens := extractTokens templateContent in
      match validateAgainstTokens config tokens
              {| strictMode := po_strictValidation options;
                 allowEmpty := po_allowEmptyValues options;
                 warnOnUnused := po_warnOnUnused options |} with
      | Throw message => PreviewFailed templatePath message
      | Ok validation =>
          let replacementPreview :=
            previewReplacements templateContent config (Some tokens) in
          Previewed templatePath tokens validation replacementPreview
            (valid validation
             || negb (String.eqb (po_errorHandling options) "fail"))
      end
  end.
End ProcessorRest.

(** [result.tokens.found], [result.validation.errors] and
    [result.validation.warnings] of a result of the batch; a failure has
    none. *)
Definition foundTokens (r : processResult) : list string :=
  match r with
  | Processed _ _ _ tokens _ _ _ _ => ts_found tokens
  | Failed _ _ _ => []
  end.

Definition validationErrors (r : processResult) : list string :=
  match r with
  | Processed _ _ _ _ validation _ _ _ => errors validation
  | Failed _ _ _ => []
  end.

Definition validationWarnings (r : processResult) : list string :=
  match r with
  | Processed _ _ _ _ validation _ _ _ => warnings validation
  | Failed _ _ _ => []
  end.

(** The result of a success of [processTemplate] on a template of content
    [templateContent]: the text [replaceTokens] returns for it, the
    content, its tokens and their validation. *)
Definition processedAs {host : RegExpHost} {realm : Realm}
    (templatePath : string) (config : value) (opts : processorOptions)
    (templateContent : string) (r : processResult) : Prop :=
  let tokens := extractTokens templateContent in
  exists validation text,
    validateAgainstTokens config tokens
      {| strictMode := po_strictValidation opts;
         allowEmpty := po_allowEmptyValues opts;
         warnOnUnused := po_warnOnUnused opts |} = Ok validation /\
    returned (replaceTokens templateContent config (Some tokens)
                {| errorHandling := po_errorHandling opts;
                   missingTokenPlaceholder := po_missingTokenPlaceholder opts;
                   preserveUnknownTokens := false |}) = Ok text /\
    r = Processed templatePath text templateContent
          {| ts_found := tokens;
             ts_total := length tokens;
             ts_missing := map m_token (missing validation);
             ts_replaced := map f_token (found validation) |}
          validation opts
          (String.length templateContent) (String.length text).

(** Whether the validation of [processTemplate] returns: it throws when
    unused values are asked for and the flattening of the configuration
    meets an object with an own property [hasOwnProperty]. *)
Definition validates (config : value) (opts : processorOptions) : bool :=
  negb (po_warnOnUnused opts) || unshadowed config.

(** The test a token has to pass for [processTemplate] to succeed under
    the policy ['fail']: it resolves to a value [String] converts and, in
    strict mode, passes the test of validation. *)
Definition passes {realm : Realm} (config : value) (opts : processorOptions)
    (token : string) : bool :=
  printable config token
  && (if po_strictValidation opts
      then counted config (po_allowEmptyValues opts) token
      else true).


(** ** Configurations written as JSON objects *)

(** No string of the list occurs twice. *)
Fixpoint unique (l : list string) : bool :=
  match l with
  | [] => true
  | x :: rest => negb (includes rest x) && unique rest
  end.

(** A key that one segment of a dotted path can name: not empty, and
    without a dot. *)
Definition plain_key (key : string) : bool :=
  negb (String.eqb key "") && negb (includes_dot key).

(** An object whose keys, and those of the objects nested in it, are
    plain and differ from one another, as the keys of a parsed JSON object
    do.  Arrays and scalars are leaves. *)
Fixpoint well_keyed (v : value) : bool :=
  match v with
  | VObject props =>
      unique (map fst props)
      && (fix each (props : list (string * value)) : bool :=
            match props with
            | [] => true
            | (key, x) :: rest => plain_key key && well_keyed x && each rest
            end) props
  | _ => true
  end.


(** ** The configuration system (scripts/config-system.js)

    The signs before the messages are kept as their bytes. *)

Definition quote : string := String (ascii_of_nat 34) EmptyString.

Definition quoted (s : string) : string := quote +:+ s +:+ quote.

(** [{ ...v }]: the own enumerable properties of [v]. *)
Definition spread (v : value) : list (string * value) :=
  match v with
  | VObject props => props
  | VArray elems => combine (map show_nat (seq 0 (length elems))) elems
  | VString s =>
      map (fun i => (show_nat i, char_at s i)) (seq 0 (String.length s))
  | _ => []
  end.

(** [obj[key] = v] on the properties of an object: the value of an
    existing property is replaced where it stands, a new property comes
    last. *)
Fixpoint set_property (props : list (string * value)) (key : string)
    (v : value) : list (string * value) :=
  match props with
  | [] => [(key, v)]
  | (k, x) :: rest =>
      if String.eqb k key then (k, v) :: rest
      else (k, x) :: set_property rest key v
  end.

(** [obj[key]] on the properties of an object. *)
Definition read (props : list (string * value)) (key : string) : value :=
  match own_property props key with
  | Some x => x
  | None => VUndefined
  end.

(** [v.trim()], [what] being the expression that gave [v]; only a string
    has the method. *)
Definition call_trim (what : string) (v : value) : exc string :=
  match v with
  | VString s => Ok (trim s)
  | VUndefined =>
      Throw "Cannot read properties of undefined (reading 'trim')"
  | VNull => Throw "Cannot read properties of null (reading 'trim')"
  | _ => Throw (what +:+ ".trim is not a function")
  end.

(** [!v || v.trim() === ''] *)
Definition blank (what : string) (v : value) : exc bool :=
  if negb (truthy v) then Ok true
  else s ← call_trim what v; Ok (String.eqb s "").

(** [v || d] *)
Definition or_else (v d : value) : value := if truthy v then v else d.

Section ConfigSystem.
(** [new Date().toLocaleDateString('en-US', ...)] at the time the module
    is loaded. *)
Variable today : string.

Definition DEFAULT_CONFIG_payment : list (string * value) :=
  [("amount", VString "Pay $1,000");
   ("description", VString "Deposit to Start");
   ("provider", VString "Bonsai")].

Definition DEFAULT_CONFIG : value :=
  VObject [("client_name", VString "");
           ("date", VString today);
           ("payment", VObject DEFAULT_CONFIG_payment)].

(** [applyDefaults(config)] *)
Definition applyDefaults (config : value) : exc value :=
  let result := spread config in
  noDate ← blank "result.date" (read result "date");
  let result :=
    if noDate : bool then set_property result "date" (VString today)
    else result in
  let payment := read result "payment" in
  if negb (truthy payment) then
    Ok (VObject (set_property result "payment"
                   (VObject DEFAULT_CONFIG_payment)))
  else
    amount ← get_prop payment "amount";
    description ← get_prop payment "description";
    provider ← get_prop payment "provider";
    Ok (VObject
          (set_property result "payment"
             (VObject
                [("amount",
                  or_else amount (read DEFAULT_CONFIG_payment "amount"));
                 ("description",
                  or_else description
                    (read DEFAULT_CONFIG_payment "description"));
                 ("provider",
                  or_else provider
                    (read DEFAULT_CONFIG_payment "provider"))]))).

(** [validateConfig(config)] *)
Definition validateConfig (config : value) : exc (list string) :=
  client_name ← get_prop config "client_name";
  noName ← blank "config.client_name" client_name;
  let errors :=
    if noName : bool
    then ["❌ client_name is required (e.g., "
          +:+ quoted "John Doe, Acme Corp" +:+ ")"]
    else [] in
  payment ← get_prop config "payment";
  if negb (truthy payment) then
    Ok (errors ++
        ["❌ payment object is required";
         "💡 Add: " +:+ quoted "payment" +:+ ": { "
         +:+ quoted "amount" +:+ ": " +:+ quoted "Pay $1,000" +:+ ", "
         +:+ quoted "description" +:+ ": " +:+ quoted "Deposit" +:+ ", "
         +:+ quoted "provider" +:+ ": " +:+ quoted "Bonsai" +:+ " }"])
  else
    amount ← get_prop payment "amount";
    noAmount ← blank "config.payment.amount" amount;
    let errors :=
      if noAmount : bool
      then errors ++ ["❌ payment.amount is required (e.g., "
                      +:+ quoted "Pay $1,000" +:+ ")"]
      else errors in
    description ← get_prop payment "description";
    noDescription ← blank "config.payment.description" description;
    let errors :=
      if noDescription : bool
      then errors ++ ["❌ payment.description is required (e.g., "
                      +:+ quoted "Deposit to Start" +:+ ")"]
      else errors in
    provider ← get_prop payment "provider";
    noProvider ← blank "config.payment.provider" provider;
    let errors :=
      if noProvider : bool
      then errors ++ ["❌ payment.provider is required (e.g., "
                      +:+ quoted "Bonsai" +:+ ", " +:+ quoted "FreshBooks"
                      +:+ ")"]
      else errors in
    Ok errors.

(** The example [processConfig] prints, as [JSON.stringify(..., null, 2)]
    renders it. *)
Definition exampleConfig : string :=
  join newline
    ["{";
     "  " +:+ quoted "client_name" +:+ ": "
       +:+ quoted "John Doe, Acme Corporation" +:+ ",";
     "  " +:+ quoted "date" +:+ ": " +:+ quoted "June 6, 2025" +:+ ",";
     "  " +:+ quoted "payment" +:+ ": {";
     "    " +:+ quoted "amount" +:+ ": " +:+ quoted "Pay $1,000" +:+ ",";
     "    " +:+ quoted "description" +:+ ": " +:+ quoted "Deposit to Start"
       +:+ ",";
     "    " +:+ quoted "provider" +:+ ": " +:+ quoted "Bonsai";
     "  }";
     "}"].

(** [processConfig(rawConfig)] *)
Definition processConfig (rawConfig : value) : exc value :=
  configWithDefaults ← applyDefaults rawConfig;
  errors ← validateConfig configWithDefaults;
  match errors with
  | [] => Ok configWithDefaults
  | _ :: _ =>
      Throw (join newline
               (["❌ Configuration validation failed:"; ""] ++ errors
                ++ [""; "💡 Example valid config:"; exampleConfig]))
  end.
End ConfigSystem.


(** The properties [applyDefaults] goes on with after the date: those of the
    argument when its date is a string that is not blank, and otherwise
    those with the date of the day. *)
Definition dated (today : string) (rawConfig : value)
    (result : list (string * value)) : Prop :=
  (result = spread rawConfig /\
   exists date, own_property (spread rawConfig) "date" = Some (VString date) /\
                trim date <> "") \/
  result = set_property (spread rawConfig) "date" (VString today).


(** ** The client slug (generateClientSlug of the customize script) *)

(** [c.toLowerCase()] for one code unit below 256. *)
Definition to_lower (c : ascii) : ascii :=
  let n := nat_of_ascii c in
  if ((65 <=? n)%nat && (n <=? 90)%nat)
     || ((192 <=? n)%nat && (n <=? 222)%nat && negb (n =? 215)%nat)
  then ascii_of_nat (n + 32) else c.

Fixpoint toLowerCase (s : string) : string :=
  match s with
  | EmptyString => EmptyString
  | String c r => String (to_lower c) (toLowerCase r)
  end.

Definition is_hyphen (c : ascii) : bool := Ascii.eqb c "-".

(** The class [[a-z0-9\s-]]. *)
Definition in_slug_class (c : ascii) : bool :=
  let n := nat_of_ascii c in
  ((97 <=? n)%nat && (n <=? 122)%nat) || ((48 <=? n)%nat && (n <=? 57)%nat)
  || is_space c || is_hyphen c.

(** [s.replace(/[^...]/g, '')] for a class given by [keep]. *)
Fixpoint remove_outside (keep : ascii -> bool) (s : string) : string :=
  match s with
  | EmptyString => EmptyString
  | String c r =>
      if keep c then String c (remove_outside keep r)
      else remove_outside keep r
  end.

(** [s.replace(/C+/g, rep)] for a class [C] of characters and one
    character [rep]; [in_run] tells that the character before belongs to
    the run being replaced. *)
Fixpoint replace_runs (C : ascii -> bool) (rep : ascii) (in_run : bool)
    (s : string) : string :=
  match s with
  | EmptyString => EmptyString
  | String c r =>
      if C c then
        if in_run then replace_runs C rep true r
        else String rep (replace_runs C rep true r)
      else String c (replace_runs C rep false r)
  end.

(** [s.replace(/-$/, '')] *)
Fixpoint remove_last_hyphen (s : string) : string :=
  match s with
  | EmptyString => EmptyString
  | String c EmptyString => if is_hyphen c then EmptyString else s
  | String c r => String c (remove_last_hyphen r)
  end.

(** [s.replace(/^-|-$/g, '')]: a hyphen at the start goes, and so does one
    at the end of what follows. *)
Definition remove_edge_hyphens (s : string) : string :=
  match s with
  | String c r => if is_hyphen c then remove_last_hyphen r
                  else remove_last_hyphen s
  | EmptyString => EmptyString
  end.

(** [generateClientSlug(clientName)] *)
Definition generateClientSlug (clientName : string) : string :=
  remove_edge_hyphens
    (replace_runs is_hyphen "-" false
       (replace_runs is_space "-" false
          (remove_outside in_slug_class (toLowerCase clientName)))).

(** Lower-case letters, digits and hyphens. *)
Definition is_slug_char (c : ascii) : bool :=
  let n := nat_of_ascii c in
  ((97 <=? n)%nat && (n <=? 122)%nat) || ((48 <=? n)%nat && (n <=? 57)%nat)
  || is_hyphen c.

Fixpoint all_chars (P : ascii -> bool) (s : string) : bool :=
  match s with
  | EmptyString => true
  | String c r => P c && all_chars P r
  end.

Definition starts_with_hyphen (s : string) : bool :=
  match s with
  | String c _ => is_hyphen c
  | EmptyString => false
  end.

Fixpoint ends_with_hyphen (s : string) : bool :=
  match s with
  | EmptyString => false
  | String c EmptyString => is_hyphen c
  | String _ r => ends_with_hyphen r
  end.

Fixpoint has_double_hyphen (s : string) : bool :=
  match s with
  | String a r => (is_hyphen a && starts_with_hyphen r) || has_double_hyphen r
  | EmptyString => false
  end.

(** A name for a directory: lower-case letters, digits and single hyphens,
    with no hyphen at either end. *)
Definition slug_shaped (s : string) : bool :=
  all_chars is_slug_char s && negb (has_double_hyphen s)
  && negb (starts_with_hyphen s) && negb (ends_with_hyphen s).


(** The letters [a-z] and the digits. *)
Definition is_alnum (c : ascii) : bool :=
  let n := nat_of_ascii c in
  ((97 <=? n)%nat && (n <=? 122)%nat) || ((48 <=? n)%nat && (n <=? 57)%nat).

Fixpoint some_char (P : ascii -> bool) (s : string) : bool :=
  match s with
  | EmptyString => false
  | String c r => P c || some_char P r
  end.


(** ** lib/template: the path of a configuration file *)

(** [s.startsWith(prefix)] *)
Fixpoint startsWith (s prefix : string) : bool :=
  match prefix, s with
  | EmptyString, _ => true
  | String p prefix', String c r => Ascii.eqb c p && startsWith r prefix'
  | String _ _, EmptyString => false
  end.

(** [s.includes(needle)] *)
Fixpoint includes_string (s needle : string) : bool :=
  startsWith s needle
  || match s with
     | String _ r => includes_string r needle
     | EmptyString => false
     end.

(** [s.endsWith(suffix)] *)
Fixpoint endsWith (s suffix : string) : bool :=
  String.eqb s suffix
  || match s with
     | String _ r => endsWith r suffix
     | EmptyString => false
     end.

(** [resolveConfigPath(input)] *)
Definition resolveConfigPath (input : string) : string :=
  if includes_string input "/" || includes_string input ".json" then input
  else
    let configName := if endsWith input ".json" then input
                      else input +:+ ".json" in
    "configs/" +:+ configName.


(** ** Templates written as texts and markers *)

(** A template seen as its parts: the texts between the markers, and the
    markers, each with the blanks written before and after its name. *)
Inductive piece : Type :=
| Text (s : string)
| Marker (before name after : string).

Definition print_piece (p : piece) : string :=
  match p with
  | Text s => s
  | Marker before name after => "{{" +:+ before +:+ name +:+ after +:+ "}}"
  end.

Fixpoint print (pieces : list piece) : string :=
  match pieces with
  | [] => ""
  | p :: rest => print_piece p +:+ print rest
  end.

(** The names of the markers, in the order of the template. *)
Fixpoint names (pieces : list piece) : list string :=
  match pieces with
  | [] => []
  | Text _ :: rest => names rest
  | Marker _ name _ :: rest => name :: names rest
  end.

(** A character of a name: ordinary, and neither an assertion of the
    expression, nor a closing brace, nor a blank.  Letters, digits, [_],
    [-] and [.] are such characters. *)
Definition is_name_char (c : ascii) : bool :=
  is_ordinary c && negb (Ascii.eqb c "^") && negb (Ascii.eqb c "$")
  && negb (Ascii.eqb c "}") && negb (is_space c).

(** Every dot is followed by a character that is no dot. *)
Fixpoint dots_ok (s : string) : bool :=
  match s with
  | EmptyString => true
  | String c r =>
      (negb (Ascii.eqb c ".")
       || match r with
          | String d _ => negb (Ascii.eqb d ".")
          | EmptyString => false
          end)
      && dots_ok r
  end.

(** A dotted name: name characters, with something before, between and
    after its dots. *)
Definition name_shaped (t : string) : bool :=
  match t with
  | EmptyString => false
  | String c _ =>
      negb (Ascii.eqb c ".") && all_chars is_name_char t && dots_ok t
  end.

(** A text without an opening brace, or a marker of a dotted name
    between blanks. *)
Definition well_formed_piece (p : piece) : bool :=
  match p with
  | Text s => negb (contains "{" s)
  | Marker before name after =>
      all_chars is_space before && name_shaped name && all_chars is_space after
  end.

(** [matches_name t name]: the characters of the token [t], read as the
    expression [escapeRegex] leaves them, match the characters of [name]
    one by one, a dot of [t] matching any character. *)
Fixpoint matches_name (t name : string) : bool :=
  match t, name with
  | EmptyString, EmptyString => true
  | String c r, String c' r' =>
      (Ascii.eqb c "." || Ascii.eqb c c') && matches_name r r'
  | _, _ => false
  end.

(** The expression of a dotted name, as the engine reads it: the opening
    braces and blanks, the characters of the name, and the blanks and
    closing braces. *)
Definition closing : list Fragment.item :=
  [Fragment.Atom Fragment.Space Fragment.Star;
   Fragment.Atom (Fragment.Lit "}") Fragment.Once;
   Fragment.Atom (Fragment.Lit "}") Fragment.Once].

Definition expression (t : string) : list Fragment.item :=
  [Fragment.Atom (Fragment.Lit "{") Fragment.Once;
   Fragment.Atom (Fragment.Lit "{") Fragment.Once;
   Fragment.Atom Fragment.Space Fragment.Star]
  ++ map item_of (list_ascii_of_string t) ++ closing.

(** One pass of the loop of [replaceTokens] seen on the pieces: the
    markers whose name the token matches become the text of its value. *)
Definition pass (t text : string) (pieces : list piece) : list piece :=
  map (fun p => match p with
                | Text _ => p
                | Marker _ name _ => if matches_name t name then Text text else p
                end) pieces.

(** The text a token that resolves to a value [String] converts is
    replaced by. *)
Definition valueText {realm : Realm} (config : value) (t : string) : string :=
  match textOfToken config t with
  | Ok text => text
  | Throw _ => ""
  end.

(** A replacement text in which [String.prototype.replace] finds no
    pattern: no dollar sign is followed by a dollar sign, an ampersand, a
    back quote or a quote.  There being no group in the expression of a
    token, a dollar sign followed by a digit stands for itself. *)
Fixpoint dollar_plain (s : string) : bool :=
  match s with
  | EmptyString => true
  | String c r =>
      (negb (Ascii.eqb c "$")
       || match r with
          | String d _ =>
              negb (Ascii.eqb d "$" || Ascii.eqb d "&" || Ascii.eqb d "`"
                    || Ascii.eqb d "'")
          | EmptyString => true
          end)
      && dollar_plain r
  end.

(** A token that resolves to a value that [String] converts to a text
    with no pattern of replacement and no opening brace. *)
Definition substitutable {realm : Realm} (config : value) (t : string) : bool :=
  printable config t
  && dollar_plain (valueText config t)
  && negb (contains "{" (valueText config t)).

(** What a piece has become when the tokens have been replaced one after
    the other: a marker carries the value of the first token that matches
    its name. *)
Definition rendered {realm : Realm} (config : value) (tokens : list string)
    (p : piece) : string :=
  match p with
  | Text s => s
  | Marker _ name _ =>
      match find (fun t => matches_name t name) tokens with
      | Some t => valueText config t
      | None => print_piece p
      end
  end.


(** A blank or a closing brace: what follows the name in a marker. *)
Definition is_stop (c : ascii) : bool := is_space c || Ascii.eqb c "}".


(** What is written between the braces of a marker. *)
Definition body_of (before name after : string) : string :=
  before +:+ (name +:+ after).

Fixpoint bodies (pieces : list piece) : list string :=
  match pieces with
  | [] => []
  | Text _ :: rest => bodies rest
  | Marker before name after :: rest =>
      body_of before name after :: bodies rest
  end.

(** One pass seen on one piece. *)
Definition pass_piece {realm : Realm} (config : value) (t : string) (p : piece)
    : piece :=
  match p with
  | Text _ => p
  | Marker _ name _ =>
      if matches_name t name then Text (valueText config t) else p
  end.

(** The template after replacement: the texts as they are, each marker
    replaced by the value of the first of [tokens] that matches its
    name. *)
Definition render {realm : Realm} (config : value) (tokens : list string)
    (pieces : list piece) : string :=
  print (map (fun p => Text (rendered config tokens p)) pieces).

(** No name of the template is matched by the expression of another. *)
Definition unambiguous (pieces : list piece) : bool :=
  forallb (fun t =>
             forallb (fun name => negb (matches_name t name)
                                  || String.eqb t name)
                     (names pieces))
          (names pieces).


(** What the markers a token matches are replaced by: the text of its
    value when it resolves to a value [String] converts; otherwise (the
    token does not resolve, or the conversion throws) the placeholder
    under the policies ['warn'] and ['graceful'], and nothing under any
    other policy, which leaves the markers in place. *)
Definition replacementFor {realm : Realm} (config : value)
    (opts : replaceOptions) (t : string) : option string :=
  if printable config t then Some (valueText config t)
  else if String.eqb (errorHandling opts) "warn"
          || String.eqb (errorHandling opts) "graceful"
       then Some (missingTokenPlaceholder opts)
       else None.

(** The warning the loop of [replaceTokens] records for a token: none
    when its value is substituted, the one of a missing token when it does
    not resolve, and the one of the [catch] when [String] throws. *)
Definition warningFor {realm : Realm} (config : value) (t : string)
    : option string :=
  if negb (resolves config t) then Some (notFoundMessage t)
  else match textOfToken config t with
       | Ok _ => None
       | Throw message => Some (causedErrorMessage t message)
       end.

(** The warnings recorded for a list of tokens, in their order. *)
Definition warningsFor {realm : Realm} (config : value) (tokens : list string)
    : list string :=
  flat_map (fun t => match warningFor config t with
                     | Some warning => [warning]
                     | None => []
                     end) tokens.

(** The replacement of the token, if there is one, holds no pattern of
    replacement and no opening brace. *)
Definition admissible {realm : Realm} (config : value) (opts : replaceOptions)
    (t : string) : bool :=
  match replacementFor config opts t with
  | Some text => dollar_plain text && negb (contains "{" text)
  | None => true
  end.

Definition replaces {realm : Realm} (config : value) (opts : replaceOptions)
    (name t : string) : bool :=
  matches_name t name
  && match replacementFor config opts t with
     | Some _ => true
     | None => false
     end.

(** What a piece has become after the loop, under a policy: a marker
    carries the replacement of the first token that matches its name and
    has one. *)
Definition renderedUnder {realm : Realm} (config : value)
    (opts : replaceOptions) (tokens : list string) (p : piece) : string :=
  match p with
  | Text s => s
  | Marker _ name _ =>
      match find (replaces config opts name) tokens with
      | Some t => default "" (replacementFor config opts t)
      | None => print_piece p
      end
  end.

Definition renderUnder {realm : Realm} (config : value) (opts : replaceOptions)
    (tokens : list string) (pieces : list piece) : string :=
  print (map (fun p => Text (renderedUnder config opts tokens p)) pieces).

(** One pass under a policy, seen on the pieces and on one piece. *)
Definition passUnder {realm : Realm} (config : value) (opts : replaceOptions)
    (t : string) (pieces : list piece) : list piece :=
  match replacementFor config opts t with
  | Some text => pass t text pieces
  | None => pieces
  end.

Definition passPieceUnder {realm : Realm} (config : value)
    (opts : replaceOptions) (t : string) (p : piece) : piece :=
  match p with
  | Text _ => p
  | Marker _ name _ =>
      if replaces config opts name t
      then Text (default "" (replacementFor config opts t))
      else p
  end.


(** ** ConfigValidator: suggestions for the missing tokens

    The suggestions are built from an empty object and hold nothing but
    the placeholders, which are strings, and the objects [setNestedValue]
    creates. *)

Inductive suggestion : Type :=
| Placeholder (text : string)
| Nested (fields : list (string * suggestion)).

(** The suggestions as a configuration. *)
Fixpoint to_value (s : suggestion) : value :=
  match s with
  | Placeholder text => VString text
  | Nested fields =>
      VObject ((fix each (fields : list (string * suggestion))
                  : list (string * value) :=
                  match fields with
                  | [] => []
                  | (key, x) :: rest => (key, to_value x) :: each rest
                  end) fields)
  end.

Definition to_properties (fields : list (string * suggestion))
    : list (string * value) :=
  map (fun kx => (fst kx, to_value (snd kx))) fields.

Fixpoint own_field (fields : list (string * suggestion)) (key : string)
    : option suggestion :=
  match fields with
  | [] => None
  | (k, x) :: rest => if String.eqb k key then Some x else own_field rest key
  end.

(** A key that is an array index: a canonical numeral below [2^32 - 1].
    The properties under such keys come first in the order of the
    properties of an object, by ascending index; the others follow in the
    order of their creation. *)
Definition property_index (key : string) : option nat :=
  match array_index key with
  | Some n => if (N.of_nat n <? 4294967295)%N then Some n else None
  | None => None
  end.

(** The place of a new property under the index [n]. *)
Fixpoint insert_index (n : nat) (key : string) (x : suggestion)
    (fields : list (string * suggestion)) : list (string * suggestion) :=
  match fields with
  | [] => [(key, x)]
  | (k, y) :: rest =>
      match property_index k with
      | Some m => if (m <? n)%nat then (k, y) :: insert_index n key x rest
                  else (key, x) :: fields
      | None => (key, x) :: fields
      end
  end.

Fixpoint replace_field (fields : list (string * suggestion)) (key : string)
    (x : suggestion) : list (string * suggestion) :=
  match fields with
  | [] => []
  | (k, y) :: rest =>
      if String.eqb k key then (k, x) :: rest
      else (k, y) :: replace_field rest key x
  end.

(** [obj[key] = x] for a key other than [__proto__]: the value of an own
    property is replaced where it stands, and a new property is created
    at its place in the order of the properties.  (A member inherited
    under [key] is a method or the constructor, which can be written
    over: the assignment creates an own property then as well.) *)
Definition assign (fields : list (string * suggestion)) (key : string)
    (x : suggestion) : list (string * suggestion) :=
  match own_field fields key with
  | Some _ => replace_field fields key x
  | None =>
      match property_index key with
      | Some n => insert_index n key x fields
      | None => fields ++ [(key, x)]
      end
  end.

(** The loop and the last assignment of [setNestedValue], on the parts of
    the path; [split] gives at least one part.  The answer is [None] when
    the call goes on to write to [Object.prototype], which is not followed
    here: for a part [__proto__] before the last, [part in current] holds
    and [current[part]] is [Object.prototype], an object, so that
    [current] becomes [Object.prototype].  For any other part,
    [current[part]] is an object exactly when [current] has an own
    property [part] that is one.  The last assignment, of a string, does
    nothing for the key [__proto__], whose setter takes objects only. *)
Fixpoint set_parts (fields : list (string * suggestion)) (parts : list string)
    (text : string) : option (list (string * suggestion)) :=
  match parts with
  | [] => Some fields
  | [last] =>
      if String.eqb last "__proto__" then Some fields
      else Some (assign fields last (Placeholder text))
  | part :: rest =>
      if String.eqb part "__proto__" then None
      else
        let inner := match own_field fields part with
                     | Some (Nested inner) => inner
                     | _ => []
                     end in
        inner' ← set_parts inner rest text;
        Some (assign fields part (Nested inner'))
  end.

(** [setNestedValue(obj, path, value)] for a string [value]: the
    properties of [obj] afterwards. *)
Definition setNestedValue (obj : list (string * suggestion)) (path : string)
    (text : string) : option (list (string * suggestion)) :=
  set_parts obj (split_dot path) text.

(** The body of the loop of [generateConfigSuggestions]. *)
Definition suggest (suggestions : list (string * suggestion))
    (token : string) : option (list (string * suggestion)) :=
  if includes_dot token
  then setNestedValue suggestions token ("[" +:+ token +:+ "]")
  else if String.eqb token "__proto__" then Some suggestions
  else Some (assign suggestions token (Placeholder ("[" +:+ token +:+ "]"))).

(** [generateConfigSuggestions(missingTokens)]: the object returned, or
    [None] when a call of [setNestedValue] has written to
    [Object.prototype]. *)
Fixpoint suggestFrom (suggestions : list (string * suggestion))
    (missingTokens : list missingEntry)
    : option (list (string * suggestion)) :=
  match missingTokens with
  | [] => Some suggestions
  | missing :: rest =>
      suggestions ← suggest suggestions (m_token missing);
      suggestFrom suggestions rest
  end.

Definition generateConfigSuggestions (missingTokens : list missingEntry)
    : option (list (string * suggestion)) :=
  suggestFrom [] missingTokens.

Record reportSummary : Type := {
  rs_total : nat;
  rs_found : nat;
  rs_missing : nat;
  rs_valid : bool
}.

Record validationReport : Type := {
  report_summary : reportSummary;
  details : validation;
  recommendations : list string;
  suggestedConfig : option (list (string * suggestion))
}.

(** The report built from a validation and the suggestions made for its
    missing tokens ([[]] when there are none). *)
Definition reportOf (tokens : list string) (validation : validation)
    (suggested : list (string * suggestion)) : validationReport :=
  let hasMissing := negb (length (missing validation) =? 0)%nat in
  let hasSuggestions := hasMissing && negb (length suggested =? 0)%nat in
  {| report_summary :=
       {| rs_total := length tokens;
          rs_found := length (found validation);
          rs_missing := length (missing validation);
          rs_valid := valid validation |};
     details := validation;
     recommendations :=
       (if hasMissing then ["Add missing tokens to your config file"] else [])
       ++ (if hasSuggestions
           then ["Consider adding these fields to your config"] else [])
       ++ (if negb (length (unused validation) =? 0)%nat
           then ["Remove unused config values to keep config clean"]
           else []);
     suggestedConfig := if hasSuggestions then Some suggested else None |}.

(** [generateValidationReport(config, tokens, options)]: the report, or
    the error of the validation; [Ok None] when the suggestions have
    written to [Object.prototype]. *)
Definition generateValidationReport {realm : Realm} (config : value)
    (tokens : list string) (opts : validateOptions)
    : exc (option validationReport) :=
  validation ← validateAgainstTokens config tokens opts;
  match missing validation with
  | [] => Ok (Some (reportOf tokens validation []))
  | _ :: _ =>
      Ok (suggested ← generateConfigSuggestions (missing validation);
          Some (reportOf tokens validation suggested))
  end.

(** [is_prefix a b]: the list [a] begins the list [b]. *)
Fixpoint is_prefix (a b : list string) : bool :=
  match a, b with
  | [], _ => true
  | x :: a', y :: b' => String.eqb x y && is_prefix a' b'
  | _ :: _, [] => false
  end.

(** No token of the list is another one, or a part of another one up to a
    dot. *)
Definition unrelated (tokens : list string) : bool :=
  forallb (fun t =>
             forallb (fun t' => String.eqb t t'
                                || negb (is_prefix (split_dot t) (split_dot t')))
                     tokens)
          tokens.

(** No part of the token is [__proto__]. *)
Definition proto_free (token : string) : bool :=
  negb (includes (split_dot token) "__proto__").

(** The suggestion found in nested objects under the keys [parts]. *)
Fixpoint lookup_parts (fields : list (string * suggestion))
    (parts : list string) : option suggestion :=
  match parts with
  | [] => None
  | [last] => own_field fields last
  | part :: rest =>
      match own_field fields part with
      | Some (Nested inner) => lookup_parts inner rest
      | _ => None
      end
  end.

(** ** Notions about the flattening and the policies *)

(** The test of [unshadowed] on the values an object or an array holds. *)
Definition nested_unshadowed (v : value) : bool :=
  if isNestedObject v then unshadowed v else true.

(** What the flattening of one value of an object or array gives, below
    the path [here] of the value. *)
Definition flattened (v : value) (here : string) (paths : list string) : Prop :=
  forall p, In p paths <->
    if isNestedObject v
    then exists segments, leaf_at v segments /\ p = currentPath here segments
    else p = here.

(** What [getAllConfigPaths] gives for a value, below every prefix: the
    paths of its leaves, or the error of [hasOwnProperty]. *)
Definition flattens (v : value) : Prop :=
  forall prefix,
    if unshadowed v
    then exists paths,
           getAllConfigPaths v prefix = Ok paths /\
           forall p, In p paths <->
             exists segments, leaf_at v segments /\ p = currentPath prefix segments
    else getAllConfigPaths v prefix = Throw not_a_function.

(** Whether a policy replaces the markers of a token that has no value to
    show. *)
Definition puts_placeholder (opts : replaceOptions) : bool :=
  String.eqb (errorHandling opts) "warn"
  || String.eqb (errorHandling opts) "graceful".


(* ===================================================================== *)
(** * Part II: the properties                                            *)
(* ===================================================================== *)

(** ** Strings *)

Lemma append_cons (x : ascii) (a b : string) :
  String x a +:+ b = String x (a +:+ b).
Proof. reflexivity. Qed.

Lemma append_assoc (a b c : string) : (a +:+ b) +:+ c = a +:+ (b +:+ c).
Proof.
  induction a as [|x a IH]; [reflexivity|]. now rewrite !append_cons, IH.
Qed.

Lemma append_empty_r (a : string) : a +:+ "" = a.
Proof.
  induction a as [|x a IH]; [reflexivity|]. now rewrite append_cons, IH.
Qed.

(** ** Resolution *)

Lemma value_nested_ind (P : value -> Prop) :
  P VUndefined -> P VNull -> (forall b, P (VBool b)) ->
  (forall shown, P (VNumber shown)) -> (forall s, P (VString s)) ->
  (forall elems, Forall P elems -> P (VArray elems)) ->
  (forall props, Forall (fun kv => P (snd kv)) props -> P (VObject props)) ->
  forall v, P v.
Proof.
  intros Hu Hn Hb Hnum Hs Ha Ho.
  fix IH 1.
  intros [| |b|shown|s|elems|props];
    [exact Hu | exact Hn | apply Hb | apply Hnum | apply Hs | | ].
  - apply Ha. induction elems as [|e elems IHe]; constructor; [apply IH | exact IHe].
  - apply Ho. induction props as [|[k e] props IHp]; constructor;
      [apply IH | exact IHp].
Qed.

Lemma is_object_spec (v : value) :
  is_object v = is_defined v && String.eqb (typeof v) "object".
Proof. now destruct v. Qed.

Lemma member_is_object (v : value) (key : string) (x : value) :
  member v key = Some x -> is_object v = true.
Proof. destruct v; simpl; congruence. Qed.

Lemma toString_array (elems : list value) :
  toString (VArray elems) = (texts ← toStrings elems; Ok (join "," texts)).
Proof. reflexivity. Qed.

Lemma toStrings_cons (e : value) (rest : list value) :
  toStrings (e :: rest)
  = (text ← (if is_defined e then toString e else Ok "");
     texts ← toStrings rest; Ok (text :: texts)).
Proof. reflexivity. Qed.

(** [String] returns on the values that convert, and throws its
    [TypeError] on the others. *)
Lemma toString_converts (v : value) :
  if converts v then exists text, toString v = Ok text
  else toString v = Throw cannot_convert.
Proof.
  induction v as [| |b| | |elems IH|props _] using value_nested_ind;
    simpl converts; try (simpl; eauto; fail).
  - destruct b; simpl; eauto.
  - rewrite toString_array.
    assert (H : if (fix each (elems : list value) : bool :=
                      match elems with
                      | [] => true
                      | e :: rest =>
                          (if is_defined e then converts e else true)
                          && each rest
                      end) elems
                then exists texts, toStrings elems = Ok texts
                else toStrings elems = Throw cannot_convert).
    { induction IH as [|e rest He _ IHrest]; [simpl; eauto|].
      rewrite toStrings_cons.
      destruct (is_defined e).
      - destruct (converts e).
        + destruct He as [text ->]. cbn [andb mbind exc_bind].
          destruct ((fix each (elems : list value) : bool := _) rest).
          * destruct IHrest as [texts ->]. simpl. eauto.
          * now rewrite IHrest.
        + now rewrite He.
      - cbn [andb mbind exc_bind].
        destruct ((fix each (elems : list value) : bool := _) rest).
        + destruct IHrest as [texts ->]. simpl. eauto.
        + now rewrite IHrest. }
    destruct ((fix each (elems : list value) : bool := _) elems).
    + destruct H as [texts ->]. simpl. eauto.
    + now rewrite H.
  - simpl. destruct (own_property props "toString"); eauto.
Qed.

Lemma toString_throws (v : value) (message : string) :
  toString v = Throw message -> message = cannot_convert /\ converts v = false.
Proof.
  intros H. pose proof (toString_converts v) as C.
  destruct (converts v).
  - destruct C as [text C]. congruence.
  - split; congruence.
Qed.

Lemma String_throws (x : jsval) (message : string) :
  String_ x = Throw message ->
  message = cannot_convert /\ exists v, x = Data v /\ converts v = false.
Proof.
  destruct x as [v|[]|p key]; simpl; try discriminate.
  intros H. apply toString_throws in H as [-> C]. eauto.
Qed.

Section ResolutionFacts.
Context {realm : Realm}.

Lemma get_member (v : value) (key : string) (x : value) :
  member v key = Some x -> get (Data v) key = Ok (Data x).
Proof.
  unfold get. destruct v as [| | | | |elems|props]; simpl; try discriminate.
  - destruct (String.eqb key "length"); [now intros [= <-]|].
    unfold element. now intros ->.
  - now intros ->.
Qed.

Lemma get_inherits (v : value) (key : string) :
  is_object v = true -> member v key = None ->
  get (Data v) key = Ok (inherits v key).
Proof.
  unfold get.
  destruct v as [| | | | |elems|props]; simpl; try discriminate; intros _.
  - destruct (String.eqb key "length"); [discriminate|].
    unfold element. now intros ->.
  - now intros ->.
Qed.

Lemma get_total (x : jsval) (key : string) :
  defined x = true -> exists y, get x key = Ok y.
Proof.
  unfold get. destruct x as [v|p|p k]; [destruct v|destruct p|]; simpl;
    try discriminate; intros _; eauto;
    destruct (String.eqb key _); eauto.
Qed.

Lemma descend_total (parts : list string) :
  forall current, exists x, descend current parts = Ok x.
Proof.
  induction parts as [|part rest IH]; intros current; simpl; [eauto|].
  destruct (defined current) eqn:D; simpl; [|eauto].
  destruct (String.eqb (type_of current) "object"); simpl; [|eauto].
  destruct (get_total current part D) as [x ->]. apply IH.
Qed.

Lemma getNestedValue_total (obj : value) (path : string) :
  exists x, getNestedValue obj path = Ok x.
Proof.
  unfold getNestedValue.
  destruct (truthy obj) eqn:T; cbn [negb orb]; [|eauto].
  destruct (String.eqb (typeof obj) "object"); cbn [negb orb]; [|eauto].
  destruct (includes_dot path); cbn [negb].
  - apply descend_total.
  - apply get_total. now destruct obj.
Qed.

Lemma descend_undefined (parts : list string) :
  descend (Data VUndefined) parts = Ok (Data VUndefined).
Proof. now destruct parts. Qed.

Lemma descend_reaches (parts : list string) :
  forall v y, reaches v parts y -> descend (Data v) parts = Ok (Data y).
Proof.
  induction parts as [|part rest IH]; intros v y R; inversion R; subst.
  - reflexivity.
  - simpl. match goal with H : member _ _ = _ |- _ =>
      pose proof (member_is_object _ _ _ H) as O; rename H into M end.
    rewrite is_object_spec in O. apply andb_prop in O as [-> ->]. simpl.
    rewrite (get_member _ _ _ M). simpl. now apply IH.
Qed.

(** Where the own properties end: resolution stops at a value that is no
    object, and goes on from what an object inherits. *)
Lemma descend_stuck (before : list string) :
  forall v x key after,
    reaches v before x -> member x key = None ->
    descend (Data v) (before ++ key :: after)
    = if is_object x then descend (inherits x key) after
      else Ok (Data VUndefined).
Proof.
  induction before as [|b before IH]; intros v x key after R M;
    inversion R; subst; simpl.
  - destruct (is_object x) eqn:O.
    + pose proof O as O'. rewrite is_object_spec in O'.
      apply andb_prop in O' as [-> ->]. simpl.
      now rewrite (get_inherits _ _ O M).
    + rewrite is_object_spec in O.
      destruct (is_defined x); simpl; [|reflexivity].
      simpl in O. now rewrite O.
  - match goal with H : member _ _ = Some _ |- _ =>
      pose proof (member_is_object _ _ _ H) as O; rename H into M' end.
    rewrite is_object_spec in O.
    apply andb_prop in O as [-> ->]. simpl.
    rewrite (get_member _ _ _ M'). simpl. eapply IH; eauto.
Qed.

Lemma split_dot_single (path : string) :
  includes_dot path = false -> split_dot path = [path].
Proof.
  induction path as [|c r IH]; simpl; [reflexivity|].
  destruct (Ascii.eqb c "."); simpl; [discriminate|].
  intros H. now rewrite (IH H).
Qed.

Lemma split_dot_not_nil (path : string) : split_dot path <> [].
Proof.
  destruct path as [|c r]; simpl; [discriminate|].
  destruct (Ascii.eqb c "."); [discriminate|].
  destruct (split_dot r); discriminate.
Qed.

Lemma getNestedValue_descend (obj : value) (path : string) :
  getNestedValue obj path = descend (Data obj) (split_dot path).
Proof.
  unfold getNestedValue.
  pose proof (split_dot_not_nil path) as E.
  destruct (split_dot path) as [|part rest] eqn:S; [contradiction|].
  destruct (truthy obj) eqn:T; simpl.
  - destruct (String.eqb (typeof obj) "object") eqn:O; simpl.
    + assert (D : is_defined obj = true) by now destruct obj.
      destruct (includes_dot path) eqn:I; simpl; rewrite D; simpl.
      * reflexivity.
      * rewrite (split_dot_single _ I) in S. injection S as <- <-.
        simpl. now destruct (get (Data obj) path).
    + now destruct (is_defined obj).
  - destruct (is_defined obj) eqn:D; simpl; [|reflexivity].
    destruct (String.eqb (typeof obj) "object") eqn:O; simpl; [|reflexivity].
    exfalso. destruct obj; simpl in *; congruence.
Qed.

Lemma inherited_nothing (p : prototype) (key : string) :
  not_inherited key = true -> inherited p key = Data VUndefined.
Proof.
  unfold not_inherited, inherited, from_prototype. intros H.
  apply andb_prop in H as [H A]. apply andb_prop in H as [H O].
  apply andb_prop in H as [P L].
  apply negb_true_iff in P, L, O, A. rewrite P.
  destruct p; now rewrite ?L, ?A, ?O.
Qed.

Lemma inherits_nothing (v : value) (key : string) :
  not_inherited key = true -> inherits v key = Data VUndefined.
Proof.
  intros H. destruct v; simpl; try reflexivity; now apply inherited_nothing.
Qed.

(** Nothing is inherited under an array index. *)
Lemma index_not_inherited (key : string) (i : nat) :
  array_index key = Some i -> not_inherited key = true.
Proof.
  intros A. unfold not_inherited, holds_method.
  assert (N : forall name, array_index name = None -> String.eqb key name = false).
  { intros name E. apply String.eqb_neq. intros ->. congruence. }
  assert (M : forall p, includes (methods p) key = false).
  { intros p. destruct (includes (methods p) key) eqn:I; [|reflexivity].
    unfold includes in I. apply existsb_exists in I as (k & I & E).
    apply String.eqb_eq in E. subst k.
    apply methods_are_named in I. congruence. }
  now rewrite !M, (N "__proto__"), (N "length"), (N "constructor").
Qed.

End ResolutionFacts.

Lemma reaches_app (before after : list string) :
  forall v x y,
    reaches v before x -> reaches x after y -> reaches v (before ++ after) y.
Proof.
  induction before as [|b before IH]; intros v x y R1 R2; inversion R1; subst.
  - exact R2.
  - simpl. econstructor; eauto.
Qed.

(** C4, the claim as stated fails: a final value that is [null] is
    returned as [null], not as [undefined]. *)
Lemma final_null_is_returned_as_null :
  getNestedValue (realm := ES2023.realm)
    (VObject [("payment", VObject [("amount", VNull)])])
    "payment.amount" = Ok (Data VNull) /\
  getNestedValue (realm := ES2023.realm)
    (VObject [("payment", VObject [("amount", VNull)])])
    "payment.amount" <> Ok (Data VUndefined).
Proof. split; [reflexivity | discriminate]. Qed.

(** C4, amended.  Resolution never throws; it goes down one segment at a
    time and returns the value the segments reach through own properties,
    as it is: a final value that is [null] or [undefined] is returned as
    [null] or [undefined], and counts as missing in either case.  It
    returns [undefined] as soon as the value reached so far is no object,
    or is an object that neither holds nor inherits the next segment.
    Where the object inherits under the segment ([__proto__],
    [constructor], the methods of the prototypes), resolution goes on from
    the inherited member: [constructor] resolves to the function [Object].
    The two examples of the specification follow. *)
Theorem getNestedValue_descends_to_value_or_missing {realm : Realm}
    (config : value) (path : string) :
  (exists x, getNestedValue config path = Ok x) /\
  (forall x, reaches config (split_dot path) x ->
     getNestedValue config path = Ok (Data x)) /\
  (forall before key after x,
     split_dot path = before ++ key :: after ->
     reaches config before x -> member x key = None ->
     (is_object x = false -> getNestedValue config path = Ok (Data VUndefined)) /\
     (not_inherited key = true ->
      getNestedValue config path = Ok (Data VUndefined)) /\
     (is_object x = true ->
      getNestedValue config path = descend (inherits x key) after)) /\
  (forall x, reaches config (split_dot path) x -> is_defined x = false ->
     resolves config path = false) /\
  getNestedValue (VObject [("a", VObject [("b", VString "text")])]) "a.b.c"
    = Ok (Data VUndefined) /\
  getNestedValue (VObject [("payment", VObject [("amount", VString "$1,500")])])
    "payment.amount" = Ok (Data (VString "$1,500")) /\
  getNestedValue (VObject []) "constructor"
    = Ok (Method ObjectPrototype "constructor") /\
  getNestedValue (VObject []) "__proto__.__proto__" = Ok (Data VNull).
Proof.
  split; [apply getNestedValue_total|].
  split; [intros x R; rewrite getNestedValue_descend; now apply descend_reaches|].
  split.
  { intros before key after x E R M.
    rewrite getNestedValue_descend, E, (descend_stuck _ _ _ _ _ R M).
    split; [now intros ->|]. split.
    - intros N. destruct (is_object x); [|reflexivity].
      rewrite (inherits_nothing _ _ N). apply descend_undefined.
    - now intros ->. }
  split.
  { intros x R D. unfold resolves.
    rewrite getNestedValue_descend, (descend_reaches _ _ _ R). exact D. }
  repeat split.
Qed.

(** C6, the claim as stated fails: the token [items.0] resolves to the
    first element of the array under [items]. *)
Lemma array_index_token_resolves :
  getNestedValue (realm := ES2023.realm)
    (VObject [("items", VArray [VString "a"; VString "b"])])
    "items.0" = Ok (Data (VString "a")).
Proof. reflexivity. Qed.

(** C6, amended.  Resolution goes into an array as into any object: when
    the segments before the last reach an array, the path resolves to what
    the array holds under the last segment, the element at that index for
    an index and [undefined] past the end, the number of elements for
    [length]; under any other key it resolves to what arrays inherit,
    [undefined] unless the key is one of a member of the prototypes.
    Only [getAllConfigPaths] stops at an array, which it lists as one
    leaf. *)
Theorem array_segment_resolves_to_element {realm : Realm}
    (config : value) (path : string) (before : list string) (key : string)
    (elems : list value) :
  split_dot path = before ++ [key] ->
  reaches config before (VArray elems) ->
  getNestedValue config path
    = Ok (match member (VArray elems) key with
          | Some x => Data x
          | None => inherited ArrayPrototype key
          end) /\
  (forall i, array_index key = Some i ->
     getNestedValue config path = Ok (Data (nth i elems VUndefined))) /\
  (String.eqb key "length" = true ->
   getNestedValue config path = Ok (Data (VNumber (show_nat (length elems))))) /\
  (member (VArray elems) key = None -> not_inherited key = true ->
   getNestedValue config path = Ok (Data VUndefined)) /\
  (forall name prefix,
     getAllConfigPaths (VObject [(name, VArray elems)]) prefix
       = if String.eqb name "hasOwnProperty" then Throw not_a_function
         else Ok [pathOf prefix name]).
Proof.
  intros E R.
  assert (G : getNestedValue config path
              = Ok (match member (VArray elems) key with
                    | Some x => Data x
                    | None => inherited ArrayPrototype key
                    end)).
  { rewrite getNestedValue_descend, E.
    destruct (member (VArray elems) key) as [x|] eqn:M.
    - apply descend_reaches. eapply reaches_app; [exact R|].
      econstructor; [exact M | constructor].
    - now rewrite (descend_stuck _ _ _ _ _ R M). }
  split; [exact G|]. split; [|split; [|split]].
  - intros i A. rewrite G. simpl. rewrite A.
    destruct (String.eqb key "length") eqn:L.
    { apply String.eqb_eq in L. subst key. vm_compute in A. discriminate. }
    simpl. destruct (nth_error elems i) as [x|] eqn:N.
    + do 2 f_equal. symmetry. now apply nth_error_nth.
    + rewrite (inherited_nothing _ _ (index_not_inherited _ _ A)).
      do 2 f_equal. symmetry. apply nth_overflow. now apply nth_error_None.
  - intros L. rewrite G. simpl. now rewrite L.
  - intros M N. rewrite G, M. now rewrite inherited_nothing.
  - intros name prefix. simpl. unfold shadows_hasOwnProperty. simpl.
    now destruct (String.eqb name "hasOwnProperty").
Qed.

Lemma array_segment_resolves_to_element_witness :
  getNestedValue (realm := ES2023.realm)
    (VObject [("items", VArray [VString "a"; VString "b"])])
    "items.1" = Ok (Data (VString "b")).
Proof.
  apply (array_segment_resolves_to_element (realm := ES2023.realm)
           (VObject [("items", VArray [VString "a"; VString "b"])])
           "items.1" ["items"] "1" [VString "a"; VString "b"]).
  - reflexivity.
  - econstructor; [reflexivity | constructor].
Defined.


(** ** Preview and validation of one token *)

Section PreviewFacts.
Context {realm : Realm}.

Lemma resolves_value (config : value) (token : string) :
  resolves config token = true ->
  exists x, getNestedValue config token = Ok x /\ defined x = true.
Proof.
  unfold resolves. destruct (getNestedValue config token); eauto. discriminate.
Qed.

Lemma unresolved_value (config : value) (token : string) :
  resolves config token = false ->
  exists x, getNestedValue config token = Ok x /\ defined x = false.
Proof.
  unfold resolves. destruct (getNestedValue_total config token) as [x ->]. eauto.
Qed.

(** The text of a token that resolves and is printable, and the error of
    one that is not. *)
Lemma printable_text (config : value) (token : string) :
  printable config token = true ->
  exists x text, getNestedValue config token = Ok x /\ defined x = true /\
                 String_ x = Ok text /\ textOfToken config token = Ok text /\
                 valueText config token = text.
Proof.
  unfold printable, unprintable, valueText, textOfToken. intros H.
  apply andb_prop in H as [R H].
  destruct (resolves_value _ _ R) as (x & G & D). rewrite R, G in *.
  cbn [mbind exc_bind andb] in *.
  destruct (String_ x) as [text|] eqn:S; [|discriminate]. eauto 10.
Qed.

Lemma unprintable_error (config : value) (token : string) :
  unprintable config token = true ->
  exists x, getNestedValue config token = Ok x /\ defined x = true /\
            String_ x = Throw cannot_convert /\
            textOfToken config token = Throw cannot_convert.
Proof.
  unfold unprintable, textOfToken. intros H. apply andb_prop in H as [R H].
  destruct (resolves_value _ _ R) as (x & G & D). rewrite G in *.
  cbn [mbind exc_bind] in *.
  destruct (String_ x) as [text|message] eqn:S; [discriminate|].
  apply String_throws in S as S'. destruct S' as [-> _]. eauto.
Qed.

(** A token resolves to a printable value, resolves to one that is not,
    or does not resolve. *)
Lemma token_cases (config : value) (token : string) :
  (printable config token = true /\ unprintable config token = false /\
   resolves config token = true) \/
  (printable config token = false /\ unprintable config token = true /\
   resolves config token = true) \/
  (printable config token = false /\ unprintable config token = false /\
   resolves config token = false).
Proof.
  unfold printable, unprintable.
  destruct (resolves config token); simpl; [|tauto].
  destruct (textOfToken config token); simpl; tauto.
Qed.

Lemma previewStep_cases (config : value) (p : preview) (token : string) :
  previewStep config p token
  = if negb (resolves config token) then
      {| preview_tokens := preview_tokens p;
         preview_missing := preview_missing p ++
           [{| pm_token := token; pm_path := token; pm_status := "missing" |}];
         preview_errors := preview_errors p |}
    else if unprintable config token then
      {| preview_tokens := preview_tokens p;
         preview_missing := preview_missing p;
         preview_errors := preview_errors p ++
           [{| pe_token := token; pe_error := cannot_convert;
               pe_status := "error" |}] |}
    else
      {| preview_tokens := preview_tokens p ++
           [{| pt_token := token; pt_value := valueText config token;
               pt_status := "found" |}];
         preview_missing := preview_missing p;
         preview_errors := preview_errors p |}.
Proof.
  destruct (token_cases config token) as [(P & U & R)|[(P & U & R)|(P & U & R)]];
    rewrite R, U; cbn [negb]; unfold previewStep.
  - destruct (printable_text _ _ P) as (x & text & -> & D & S & _ & ->).
    cbn [mbind exc_bind]. now rewrite D, S.
  - destruct (unprintable_error _ _ U) as (x & -> & D & S & _).
    cbn [mbind exc_bind]. now rewrite D, S.
  - destruct (unresolved_value _ _ R) as (x & -> & D).
    cbn [mbind exc_bind]. now rewrite D.
Qed.

Lemma preview_fold (config : value) (tokens : list string) :
  forall p,
    let q := fold_left (previewStep config) tokens p in
    preview_tokens q
    = preview_tokens p
      ++ map (fun t => {| pt_token := t; pt_value := valueText config t;
                          pt_status := "found" |})
           (List.filter (printable config) tokens) /\
    preview_missing q
    = preview_missing p
      ++ map (fun t => {| pm_token := t; pm_path := t; pm_status := "missing" |})
           (List.filter (fun t => negb (resolves config t)) tokens) /\
    preview_errors q
    = preview_errors p
      ++ map (fun t => {| pe_token := t; pe_error := cannot_convert;
                          pe_status := "error" |})
           (List.filter (unprintable config) tokens).
Proof.
  induction tokens as [|t tokens IH]; intros p; cbn zeta.
  - simpl. now rewrite !app_nil_r.
  - cbn [fold_left List.filter].
    destruct (IH (previewStep config p t)) as (T & M & E).
    rewrite T, M, E, previewStep_cases.
    destruct (token_cases config t) as [(P & U & R)|[(P & U & R)|(P & U & R)]];
      rewrite P, U, R; cbn [negb map preview_tokens preview_missing
                            preview_errors];
      rewrite <- ?app_assoc; repeat split.
Qed.

Lemma validateSingleToken_reason (config : value) (token : string)
    (allowEmpty : bool) :
  match validateSingleToken config token allowEmpty with
  | TokenFound _ => True
  | TokenMissing reason =>
      reason = "not found in config" \/ reason = "value is null" \/
      reason = "value is empty string"
  end.
Proof.
  unfold validateSingleToken.
  destruct (getNestedValue_total config token) as [x ->].
  destruct x as [[]| |]; try destruct (negb allowEmpty && _); auto.
Qed.

End PreviewFacts.

(** C10, the claim as stated fails: the value of the token [a] is an
    object with an own property [toString]; [String(value)], which stands
    inside the [try] of [previewReplacements], throws, and the token lands
    in [errors]. *)
Lemma conversion_error_lands_in_errors :
  getNestedValue (realm := ES2023.realm)
    (VObject [("a", VObject [("toString", VString "x")])]) "a"
  = Ok (Data (VObject [("toString", VString "x")])) /\
  String_ (Data (VObject [("toString", VString "x")]))
  = Throw "Cannot convert object to primitive value" /\
  previewReplacements (realm := ES2023.realm) "{{a}}"
    (VObject [("a", VObject [("toString", VString "x")])]) None
  = {| preview_tokens := []; preview_missing := [];
       preview_errors :=
         [{| pe_token := "a";
             pe_error := "Cannot convert object to primitive value";
             pe_status := "error" |}] |}.
Proof. repeat split. Qed.

(** C10, amended.  [getNestedValue] returns for every configuration and
    every token, so the reason [validateSingleToken] gives for a missing
    token is never the one of its [catch].  The [try] of
    [previewReplacements] also holds [String(value)], which throws for the
    values that do not convert: the [errors] of a preview are the tokens
    that resolve to such a value, each with the message of the
    [TypeError]. *)
Theorem getNestedValue_returns_and_String_may_throw {realm : Realm} :
  (forall config token, exists x, getNestedValue config token = Ok x) /\
  (forall config token allowEmpty,
     match validateSingleToken config token allowEmpty with
     | TokenFound _ => True
     | TokenMissing reason =>
         reason = "not found in config" \/ reason = "value is null" \/
         reason = "value is empty string"
     end) /\
  (forall config token allowEmpty message,
     validateSingleToken config token allowEmpty
       <> TokenMissing ("error accessing value: " +:+ message)) /\
  (forall content config tokens,
     preview_errors (previewReplacements content config tokens)
     = map (fun t => {| pe_token := t; pe_error := cannot_convert;
                        pe_status := "error" |})
         (List.filter (unprintable config) (tokensOf content tokens))) /\
  (forall config token,
     unprintable config token = true <->
     exists v, getNestedValue config token = Ok (Data v) /\
               is_defined v = true /\ converts v = false) /\
  (forall v, converts v = true <-> exists text, toString v = Ok text).
Proof.
  split; [apply getNestedValue_total|].
  split; [apply validateSingleToken_reason|].
  split.
  { intros config token allowEmpty message E.
    pose proof (validateSingleToken_reason config token allowEmpty) as R.
    rewrite E in R. destruct R as [R|[R|R]]; vm_compute in R; discriminate. }
  split.
  { intros content config tokens. unfold previewReplacements.
    fold (tokensOf content tokens).
    now destruct (preview_fold config (tokensOf content tokens)
                    {| preview_tokens := []; preview_missing := [];
                       preview_errors := [] |}) as (_ & _ & ->). }
  split.
  { intros config token. split.
    - intros U. destruct (unprintable_error _ _ U) as (x & G & D & S & _).
      apply String_throws in S as (_ & v & -> & C). eauto.
    - intros (v & G & D & C). unfold unprintable, resolves, textOfToken.
      rewrite G. cbn [mbind exc_bind defined String_]. rewrite D.
      pose proof (toString_converts v) as T. rewrite C in T. now rewrite T. }
  intros v. pose proof (toString_converts v) as T. split.
  - intros C. now rewrite C in T.
  - intros [text E]. destruct (converts v); [reflexivity|congruence].
Qed.

(** ** Flattening *)

Lemma getAllConfigPaths_object (props : list (string * value)) (prefix : string) :
  getAllConfigPaths (VObject props) prefix
  = eachProperty (shadows_hasOwnProperty props) prefix props.
Proof. reflexivity. Qed.

Lemma getAllConfigPaths_array (elems : list value) (prefix : string) :
  getAllConfigPaths (VArray elems) prefix = eachElement prefix 0 elems.
Proof. reflexivity. Qed.

Lemma isNestedObject_inv (v : value) :
  isNestedObject v = true -> exists props, v = VObject props.
Proof.
  unfold isNestedObject. intros H.
  apply andb_prop in H as [H Ha]. apply andb_prop in H as [Hy Ht].
  destruct v; simpl in *; try discriminate; eauto.
Qed.

Lemma unshadowed_object (props : list (string * value)) :
  unshadowed (VObject props)
  = negb (shadows_hasOwnProperty props)
    && forallb (fun kv => nested_unshadowed (snd kv)) props.
Proof.
  simpl. f_equal. induction props as [|[k x] props IH]; [reflexivity|].
  simpl. now rewrite IH.
Qed.

Lemma unshadowed_array (elems : list value) :
  unshadowed (VArray elems) = forallb nested_unshadowed elems.
Proof.
  simpl. induction elems as [|x elems IH]; [reflexivity|].
  simpl. now rewrite IH.
Qed.

Lemma flatten_one (v : value) (here : string) :
  flattens v ->
  if nested_unshadowed v
  then exists paths,
         (if isNestedObject v then getAllConfigPaths v here else Ok [here])
         = Ok paths /\ flattened v here paths
  else (if isNestedObject v then getAllConfigPaths v here else Ok [here])
       = Throw not_a_function.
Proof.
  intros F. unfold nested_unshadowed, flattened.
  destruct (isNestedObject v).
  - specialize (F here). destruct (unshadowed v); exact F.
  - exists [here]. split; [reflexivity|]. intros p. simpl. intuition.
Qed.

Lemma eachProperty_spec (prefix : string) (props : list (string * value)) :
  Forall (fun kv => flattens (snd kv)) props ->
  if forallb (fun kv => nested_unshadowed (snd kv)) props
  then exists paths,
         eachProperty false prefix props = Ok paths /\
         forall p, In p paths <->
           exists key v paths', In (key, v) props /\
             flattened v (pathOf prefix key) paths' /\ In p paths'
  else eachProperty false prefix props = Throw not_a_function.
Proof.
  induction 1 as [|[key v] props Hv _ IH]; simpl.
  - exists []. split; [reflexivity|].
    intros p. split; [intros [] | intros (? & ? & ? & [] & _)].
  - pose proof (flatten_one v (pathOf prefix key) Hv) as O. simpl in Hv.
    destruct (nested_unshadowed v); simpl.
    + destruct O as (here & -> & Fh). cbn [mbind exc_bind].
      destruct (forallb _ props).
      * destruct IH as (more & -> & Fm). cbn [mbind exc_bind].
        exists (here ++ more). split; [reflexivity|].
        intros p. rewrite in_app_iff, Fm. split.
        -- intros [I | (k & x & paths' & I & F' & J)].
           ++ exists key, v, here. split; [now left|]. now split.
           ++ exists k, x, paths'. split; [now right|]. now split.
        -- intros (k & x & paths' & [E|I] & F' & J).
           ++ injection E as <- <-. left. apply Fh. now apply F'.
           ++ right. eauto 6.
      * now rewrite IH.
    + now rewrite O.
Qed.

Lemma eachElement_spec (prefix : string) (elems : list value) :
  Forall flattens elems ->
  forall start,
    if forallb nested_unshadowed elems
    then exists paths,
           eachElement prefix start elems = Ok paths /\
           forall p, In p paths <->
             exists i v paths', nth_error elems i = Some v /\
               flattened v (pathOf prefix (show_nat (start + i))) paths' /\
               In p paths'
    else eachElement prefix start elems = Throw not_a_function.
Proof.
  induction 1 as [|v elems Hv _ IH]; intros start; simpl.
  - exists []. split; [reflexivity|].
    intros p. split; [intros [] | intros ([|?] & ? & ? & E & _); discriminate].
  - pose proof (flatten_one v (pathOf prefix (show_nat start)) Hv) as O.
    specialize (IH (S start)).
    destruct (nested_unshadowed v); simpl.
    + destruct O as (here & -> & Fh). cbn [mbind exc_bind].
      destruct (forallb _ elems).
      * destruct IH as (more & -> & Fm). cbn [mbind exc_bind].
        exists (here ++ more). split; [reflexivity|].
        intros p. rewrite in_app_iff, Fm. split.
        -- intros [I | (i & x & paths' & E & F' & J)].
           ++ exists 0, v, here. rewrite Nat.add_0_r.
              split; [reflexivity|]. now split.
           ++ exists (S i), x, paths'. split; [exact E|].
              now replace (start + S i) with (S start + i) by lia.
        -- intros ([|i] & x & paths' & E & F' & J); simpl in E.
           ++ injection E as <-. rewrite Nat.add_0_r in F'.
              left. apply Fh. now apply F'.
           ++ right. exists i, x, paths'. split; [exact E|].
              now replace (S start + i) with (start + S i) by lia.
      * now rewrite IH.
    + now rewrite O.
Qed.

(** [getAllConfigPaths] throws when it meets an object with an own
    property [hasOwnProperty], and otherwise lists the paths of the
    leaves, as it builds them, and nothing else. *)
Lemma getAllConfigPaths_leaves (v : value) : flattens v.
Proof.
  induction v as [| | | |s|elems IH|props IH] using value_nested_ind;
    intros prefix;
    try (simpl; exists []; split; [reflexivity|];
         intros p; split; [intros [] | intros (? & L & _); inversion L]).
  - simpl. eexists. split; [reflexivity|]. intros p. rewrite in_map_iff. split.
    + intros (i & <- & I). apply in_seq in I.
      exists [show_nat i]. split; [constructor; lia | reflexivity].
    + intros (segs & L & ->). inversion L; subst.
      eexists. split; [reflexivity|]. apply in_seq. lia.
  - rewrite unshadowed_array, getAllConfigPaths_array.
    pose proof (eachElement_spec prefix elems IH 0) as E.
    destruct (forallb nested_unshadowed elems) eqn:B; [|exact E].
    destruct E as (paths & -> & F). exists paths. split; [reflexivity|].
    intros p. rewrite F. simpl. split.
    + intros (i & v & paths' & E & F' & J). apply F' in J.
      destruct (isNestedObject v) eqn:N.
      * destruct J as (segs & L & ->).
        exists (show_nat i :: segs). split; [|reflexivity].
        eapply leaf_element_nested; eauto.
      * subst p. exists [show_nat i]. split; [|reflexivity].
        eapply leaf_element; eauto.
    + intros (segs & L & ->). inversion L; subst.
      * exists i, v, [pathOf prefix (show_nat i)]. split; [assumption|].
        split; [|now left]. intros p. unfold flattened.
        match goal with H : isNestedObject v = false |- _ => rewrite H end.
        simpl. intuition.
      * pose proof (List.Forall_forall flattens elems) as [A _].
        specialize (A IH v ltac:(eapply nth_error_In; eauto)
                      (pathOf prefix (show_nat i))).
        assert (U : unshadowed v = true).
        { rewrite forallb_forall in B.
          specialize (B v ltac:(eapply nth_error_In; eauto)).
          unfold nested_unshadowed in B.
          match goal with H : isNestedObject v = true |- _ =>
            rewrite H in B end. exact B. }
        rewrite U in A. destruct A as (paths' & G & F').
        exists i, v, paths'. split; [assumption|]. split.
        -- intros p. unfold flattened.
           match goal with H : isNestedObject v = true |- _ => rewrite H end.
           apply F'.
        -- apply F'. eauto.
  - rewrite unshadowed_object, getAllConfigPaths_object.
    destruct (shadows_hasOwnProperty props) eqn:S; cbn [negb andb].
    + destruct props as [|[k x] props]; [discriminate S|]. reflexivity.
    + pose proof (eachProperty_spec prefix props IH) as E.
      destruct (forallb _ props) eqn:B; [|exact E].
      destruct E as (paths & -> & F). exists paths. split; [reflexivity|].
      intros p. rewrite F. split.
      * intros (key & v & paths' & I & F' & J). apply F' in J.
        destruct (isNestedObject v) eqn:N.
        -- destruct J as (segs & L & ->).
           exists (key :: segs). split; [|reflexivity].
           eapply leaf_nested; eauto.
        -- subst p. exists [key]. split; [|reflexivity].
           eapply leaf_property; eauto.
      * intros (segs & L & ->). inversion L; subst.
        -- exists key, v, [pathOf prefix key]. split; [assumption|].
           split; [|now left]. intros p. unfold flattened.
           match goal with H : isNestedObject v = false |- _ => rewrite H end.
           simpl. intuition.
        -- pose proof (List.Forall_forall (fun kv => flattens (snd kv)) props)
             as [A _].
           specialize (A IH (key, v) ltac:(assumption) (pathOf prefix key)).
           simpl in A.
           assert (U : unshadowed v = true).
           { rewrite forallb_forall in B.
             specialize (B (key, v) ltac:(assumption)).
             unfold nested_unshadowed in B. simpl in B.
             match goal with H : isNestedObject v = true |- _ =>
               rewrite H in B end. exact B. }
           rewrite U in A. destruct A as (paths' & G & F').
           exists key, v, paths'. split; [assumption|]. split.
           ++ intros p. unfold flattened.
              match goal with H : isNestedObject v = true |- _ => rewrite H end.
              apply F'.
           ++ apply F'. eauto.
Qed.

Lemma pathOf_nonempty (prefix key : string) :
  prefix <> "" -> pathOf prefix key = prefix +:+ "." +:+ key.
Proof.
  intros H. unfold pathOf. destruct (String.eqb prefix "") eqn:E; [|reflexivity].
  now apply String.eqb_eq in E.
Qed.

Lemma currentPath_join (segments : list string) :
  forall prefix, prefix <> "" ->
    currentPath prefix segments = join "." (prefix :: segments).
Proof.
  induction segments as [|k rest IH]; intros prefix H; [reflexivity|].
  unfold currentPath in *. simpl fold_left. rewrite pathOf_nonempty by exact H.
  rewrite IH by (destruct prefix; [congruence | discriminate]).
  destruct rest as [|k' rest]; simpl.
  - reflexivity.
  - now rewrite !append_assoc.
Qed.

(** The path built for a leaf is the dotted path of its keys without the
    empty keys at the front: an empty prefix is taken for no prefix. *)
Lemma currentPath_dotted (segments : list string) :
  currentPath "" segments = dotted (drop_empty segments).
Proof.
  induction segments as [|k rest IH]; [reflexivity|].
  destruct k as [|c k].
  - exact IH.
  - unfold dotted. simpl drop_empty. change (currentPath "" (String c k :: rest))
      with (currentPath (String c k) rest).
    now apply currentPath_join.
Qed.

Lemma includes_In (l : list string) (x : string) :
  includes l x = true <-> In x l.
Proof.
  unfold includes. rewrite existsb_exists. split.
  - intros (y & I & E). apply String.eqb_eq in E. now subst.
  - intros I. exists x. split; [exact I | apply String.eqb_refl].
Qed.

(** ** The validation report *)

Section ReportFacts.
Context {realm : Realm}.

Lemma validateSingleToken_counted (config : value) (token : string)
    (allowEmpty : bool) :
  match validateSingleToken config token allowEmpty with
  | TokenFound x =>
      counted config allowEmpty token = true /\
      getNestedValue config token = Ok x
  | TokenMissing _ => counted config allowEmpty token = false
  end.
Proof.
  unfold validateSingleToken, counted, resolves, resolves_to_empty.
  destruct (getNestedValue_total config token) as [x ->].
  destruct x as [[| |b|n|s|elems|props]|p|p k]; simpl; auto;
    try (destruct allowEmpty; simpl; auto).
  destruct s; simpl; auto.
Qed.

Lemma found_fold (config : value) (opts : validateOptions) (tokens : list string) :
  forall r,
    map f_token (found (fold_left (validateStep config opts) tokens r))
    = map f_token (found r)
      ++ List.filter (counted config (allowEmpty opts)) tokens.
Proof.
  induction tokens as [|t tokens IH]; intros r; simpl.
  - now rewrite app_nil_r.
  - rewrite IH. unfold validateStep.
    pose proof (validateSingleToken_counted config t (allowEmpty opts)) as C.
    destruct (validateSingleToken config t (allowEmpty opts)) as [v|reason].
    + destruct C as [-> _]. simpl. now rewrite map_app, <- app_assoc.
    + rewrite C. now destruct (strictMode opts).
Qed.


(** Without the search for unused values the validation is its loop, and
    never throws. *)
Lemma validateAgainstTokens_plain (config : value) (tokens : list string)
    (opts : validateOptions) :
  warnOnUnused opts = false ->
  validateAgainstTokens config tokens opts = Ok (validateLoop config tokens opts).
Proof. intros W. unfold validateAgainstTokens. now rewrite W. Qed.

(** With it, the validation throws when the flattening does, and
    otherwise returns the result of the loop, with the unused paths and
    their warning. *)
Lemma validateAgainstTokens_unused (config : value) (tokens : list string)
    (opts : validateOptions) :
  warnOnUnused opts = true ->
  let result := validateLoop config tokens opts in
  if unshadowed config
  then exists paths,
         getAllConfigPaths config "" = Ok paths /\
         let unusedValues :=
           List.filter (fun p => negb (includes tokens p)) paths in
         validateAgainstTokens config tokens opts
         = Ok {| valid := valid result; errors := errors result;
                 warnings :=
                   match unusedValues with
                   | [] => warnings result
                   | _ :: _ =>
                       warnings result
                       ++ ["Unused config values: " +:+ join ", " unusedValues]
                   end;
                 missing := missing result; found := found result;
                 unused := unusedValues |}
  else validateAgainstTokens config tokens opts = Throw not_a_function.
Proof.
  intros W result. unfold validateAgainstTokens, findUnusedConfigValues.
  rewrite W. pose proof (getAllConfigPaths_leaves config "") as F.
  destruct (unshadowed config).
  - destruct F as (paths & -> & _). exists paths. now split.
  - now rewrite F.
Qed.

Lemma validates_returns (config : value) (tokens : list string)
    (opts : validateOptions) :
  if negb (warnOnUnused opts) || unshadowed config
  then exists validation,
         validateAgainstTokens config tokens opts = Ok validation /\
         valid validation = valid (validateLoop config tokens opts) /\
         errors validation = errors (validateLoop config tokens opts) /\
         missing validation = missing (validateLoop config tokens opts) /\
         found validation = found (validateLoop config tokens opts)
  else validateAgainstTokens config tokens opts = Throw not_a_function.
Proof.
  destruct (warnOnUnused opts) eqn:W; cbn [negb orb].
  - pose proof (validateAgainstTokens_unused config tokens opts W) as U.
    cbn zeta in U. destruct (unshadowed config); [|exact U].
    destruct U as (paths & _ & ->). eexists. split; [reflexivity|].
    now repeat split.
  - rewrite (validateAgainstTokens_plain _ _ _ W). eexists.
    split; [reflexivity|]. now repeat split.
Qed.

End ReportFacts.





(** ** The replacement loop *)

Section ReplacerFacts.
Context {host : RegExpHost} {realm : Realm}.
Variable config : value.

Lemma compiles_Ok (token : string) :
  compiles token = true ->
  exists re, RegExp_g (tokenRegexSource token) = Ok re.
Proof.
  unfold compiles. destruct (RegExp_g (tokenRegexSource token)); eauto.
  discriminate.
Qed.

Lemma handleMissing_eq (token : string) (opts : replaceOptions) (re : regexp)
    (result : string) (warnings : list string) (error : option string) :
  handleMissing token opts re (result, warnings) error
  = (if puts_placeholder opts
     then String_replace result re (missingTokenPlaceholder opts)
     else result,
     warnings ++ [match error with
                  | Some e => causedErrorMessage token e
                  | None => notFoundMessage token
                  end]).
Proof.
  unfold handleMissing, handleMissingToken, puts_placeholder.
  destruct (String.eqb (errorHandling opts) "fail") eqn:F.
  - apply String.eqb_eq in F. now rewrite F.
  - now destruct (String.eqb (errorHandling opts) "warn"),
                 (String.eqb (errorHandling opts) "graceful").
Qed.

(** One turn of the loop, whatever the policy: the markers the expression
    matches receive the replacement of the token, if it has one, and the
    warning of the token, if it has one, is recorded. *)
Lemma replaceStep_eq (opts : replaceOptions) (token : string) (re : regexp)
    (result : string) (warnings : list string) :
  RegExp_g (tokenRegexSource token) = Ok re ->
  replaceStep config opts (result, warnings) token
  = Ok (match replacementFor config opts token with
        | Some text => String_replace result re text
        | None => result
        end,
        warnings ++ warningsFor config [token]).
Proof.
  intros R. unfold replaceStep, replacementFor, warningsFor, warningFor.
  rewrite R. cbn [mbind exc_bind fst snd flat_map].
  fold (puts_placeholder opts).
  destruct (token_cases config token) as [(P & U & V)|[(P & U & V)|(P & U & V)]];
    rewrite P, V; cbn [negb].
  - destruct (printable_text _ _ P) as (x & text & -> & D & S & -> & ->).
    cbn [mbind exc_bind]. rewrite D, S. cbn [mbind exc_bind].
    now rewrite !app_nil_r.
  - destruct (unprintable_error _ _ U) as (x & -> & D & S & ->).
    cbn [mbind exc_bind]. rewrite D, S. cbn [mbind exc_bind].
    rewrite handleMissing_eq, app_nil_r.
    now destruct (puts_placeholder opts).
  - destruct (unresolved_value _ _ V) as (x & -> & D).
    cbn [mbind exc_bind]. rewrite D. cbn [mbind exc_bind].
    rewrite handleMissing_eq, app_nil_r.
    now destruct (puts_placeholder opts).
Qed.

Lemma replacementFor_printable (opts : replaceOptions) (token : string) :
  printable config token = true ->
  replacementFor config opts token = Some (valueText config token) /\
  warningsFor config [token] = [].
Proof.
  intros P. unfold replacementFor, warningsFor, warningFor. rewrite P.
  cbn [flat_map].
  destruct (printable_text _ _ P) as (x & text & G & D & S & -> & _).
  unfold printable in P. apply andb_prop in P as [-> _]. now split.
Qed.

Lemma replacementFor_other (opts : replaceOptions) (token : string) :
  printable config token = false ->
  replacementFor config opts token
  = (if puts_placeholder opts then Some (missingTokenPlaceholder opts)
     else None) /\
  warningsFor config [token]
  = [if resolves config token then causedErrorMessage token cannot_convert
     else notFoundMessage token].
Proof.
  intros P. unfold replacementFor, warningsFor, warningFor. rewrite P.
  split; [reflexivity|]. cbn [flat_map].
  destruct (token_cases config token) as [(P' & U & V)|[(P' & U & V)|(P' & U & V)]];
    [congruence| |]; rewrite V; cbn [negb].
  - now destruct (unprintable_error _ _ U) as (x & _ & _ & _ & ->).
  - reflexivity.
Qed.

(** A token that resolves to a printable value is substituted by its
    value, whatever the policy. *)
Lemma replaceStep_resolved (opts : replaceOptions) (token : string)
    (re : regexp) (result : string) (warnings : list string) :
  RegExp_g (tokenRegexSource token) = Ok re ->
  printable config token = true ->
  replaceStep config opts (result, warnings) token
  = Ok (String_replace result re (valueText config token), warnings).
Proof.
  intros R P. rewrite (replaceStep_eq opts token re) by exact R.
  destruct (replacementFor_printable opts token P) as [-> ->].
  now rewrite app_nil_r.
Qed.




Lemma replaceLoop_cons (opts : replaceOptions) (token : string)
    (rest : list string) (state : string * list string) :
  replaceLoop config opts (token :: rest) state
  = (state' ← replaceStep config opts state token;
     replaceLoop config opts rest state').
Proof. reflexivity. Qed.

Lemma warningsFor_cons (token : string) (rest : list string) :
  warningsFor config (token :: rest)
  = warningsFor config [token] ++ warningsFor config rest.
Proof. unfold warningsFor. simpl. now rewrite app_nil_r. Qed.

(** Whatever the policy, a turn of the loop that does not throw adds the
    warning of the token, if it has one. *)
Lemma replaceStep_warnings (opts : replaceOptions) (token : string)
    (state state' : string * list string) :
  replaceStep config opts state token = Ok state' ->
  snd state' = snd state ++ warningsFor config [token].
Proof.
  destruct state as [result warnings].
  destruct (RegExp_g (tokenRegexSource token)) as [re|message] eqn:R.
  - rewrite (replaceStep_eq opts token re) by exact R. now intros [= <-].
  - unfold replaceStep. now rewrite R.
Qed.

Lemma replaceLoop_warnings (opts : replaceOptions) (tokens : list string) :
  forall state state',
    replaceLoop config opts tokens state = Ok state' ->
    snd state' = snd state ++ warningsFor config tokens.
Proof.
  induction tokens as [|t tokens IH]; intros state state'.
  - intros [= <-]. simpl. now rewrite app_nil_r.
  - rewrite replaceLoop_cons.
    destruct (replaceStep config opts state t) as [middle|] eqn:E;
      [|discriminate].
    cbn [mbind exc_bind]. intros L.
    rewrite (IH _ _ L), (replaceStep_warnings _ _ _ _ E).
    now rewrite (warningsFor_cons t tokens), app_assoc.
Qed.





Lemma handleMissingToken_warn_graceful (token : string) (opts : replaceOptions)
    (warnings : list string) (error : option string) :
  handleMissingToken token
    {| errorHandling := "warn";
       missingTokenPlaceholder := missingTokenPlaceholder opts;
       preserveUnknownTokens := preserveUnknownTokens opts |} warnings error
  = handleMissingToken token
      {| errorHandling := "graceful";
         missingTokenPlaceholder := missingTokenPlaceholder opts;
         preserveUnknownTokens := preserveUnknownTokens opts |} warnings error.
Proof. reflexivity. Qed.

Lemma replaceLoop_warn_graceful (opts : replaceOptions) (tokens : list string) :
  forall state,
    replaceLoop config
      {| errorHandling := "warn";
         missingTokenPlaceholder := missingTokenPlaceholder opts;
         preserveUnknownTokens := preserveUnknownTokens opts |} tokens state
    = replaceLoop config
        {| errorHandling := "graceful";
           missingTokenPlaceholder := missingTokenPlaceholder opts;
           preserveUnknownTokens := preserveUnknownTokens opts |} tokens state.
Proof.
  induction tokens as [|t tokens IH]; intros state; simpl; [reflexivity|].
  assert (E : forall re error,
            handleMissing t
              {| errorHandling := "warn";
                 missingTokenPlaceholder := missingTokenPlaceholder opts;
                 preserveUnknownTokens := preserveUnknownTokens opts |}
              re state error
            = handleMissing t
                {| errorHandling := "graceful";
                   missingTokenPlaceholder := missingTokenPlaceholder opts;
                   preserveUnknownTokens := preserveUnknownTokens opts |}
                re state error) by reflexivity.
  assert (S : replaceStep config
                {| errorHandling := "warn";
                   missingTokenPlaceholder := missingTokenPlaceholder opts;
                   preserveUnknownTokens := preserveUnknownTokens opts |}
                state t
              = replaceStep config
                  {| errorHandling := "graceful";
                     missingTokenPlaceholder := missingTokenPlaceholder opts;
                     preserveUnknownTokens := preserveUnknownTokens opts |}
                  state t).
  { unfold replaceStep.
    destruct (RegExp_g (tokenRegexSource t)) as [re|]; [|reflexivity].
    cbn [mbind exc_bind]. now rewrite !E. }
  rewrite S. destruct (replaceStep _ _ state t) as [st|]; [apply IH | reflexivity].
Qed.
End ReplacerFacts.




(** C5.  On ["Hi {{name}}"] and an empty configuration, ['warn'] returns
    ["Hi [MISSING]"] and prints one warning, naming [name]; ['graceful']
    returns the same text and prints nothing.  On every input the two
    policies return the same text, or throw the same error, and
    ['graceful'] prints nothing. *)
Theorem warn_and_graceful_return_the_same_text :
  replaceTokens (host := Fragment.host) (realm := ES2023.realm)
    "Hi {{name}}" (VObject []) None
    {| errorHandling := "warn"; missingTokenPlaceholder := "[MISSING]";
       preserveUnknownTokens := false |}
  = {| console := [warn_sign +:+ "Token 'name' not found in config"];
       returned := Ok "Hi [MISSING]" |} /\
  replaceTokens (host := Fragment.host) (realm := ES2023.realm)
    "Hi {{name}}" (VObject []) None
    {| errorHandling := "graceful"; missingTokenPlaceholder := "[MISSING]";
       preserveUnknownTokens := false |}
  = {| console := []; returned := Ok "Hi [MISSING]" |} /\
  forall (host : RegExpHost) (realm : Realm) (content : string)
         (config : value) (tokens : option (list string))
         (opts : replaceOptions),
    let warn := replaceTokens content config tokens
                  {| errorHandling := "warn";
                     missingTokenPlaceholder := missingTokenPlaceholder opts;
                     preserveUnknownTokens := preserveUnknownTokens opts |} in
    let graceful := replaceTokens content config tokens
                  {| errorHandling := "graceful";
                     missingTokenPlaceholder := missingTokenPlaceholder opts;
                     preserveUnknownTokens := preserveUnknownTokens opts |} in
    returned warn = returned graceful /\ console graceful = [].
Proof.
  split; [reflexivity|]. split; [reflexivity|].
  intros host realm content config tokens opts warn graceful.
  subst warn graceful. unfold replaceTokens.
  rewrite replaceLoop_warn_graceful.
  destruct (replaceLoop _ _ _ _) as [[result [|w ws]]|message]; simpl; auto.
Qed.

Lemma found_validateLoop {realm : Realm} (config : value)
    (tokens : list string) (opts : validateOptions) :
  map f_token (found (validateLoop config tokens opts))
  = List.filter (counted config (allowEmpty opts)) tokens.
Proof. unfold validateLoop. now rewrite found_fold. Qed.



(** C7, the code at an input on which the round trip fails: the token
    [$amount] resolves, [escapeRegex] leaves its [$] as it is, the
    expression built from it matches nothing, and the marker is still in
    the text after replacement.  A value holding [$&] puts the marker back
    as well. *)
Theorem dollar_token_survives_replacement :
  extractTokens "Due: {{$amount}}" = ["$amount"] /\
  getNestedValue (realm := ES2023.realm)
    (VObject [("$amount", VString "5")]) "$amount"
    = Ok (Data (VString "5")) /\
  escapeRegex "$amount" = "$amount" /\
  replaceTokens (host := Fragment.host) (realm := ES2023.realm)
    "Due: {{$amount}}"
    (VObject [("$amount", VString "5")]) None defaultReplaceOptions
    = {| console := []; returned := Ok "Due: {{$amount}}" |} /\
  replaceTokens (host := Fragment.host) (realm := ES2023.realm) "By {{firm}}"
    (VObject [("firm", VString "A$&B")]) None defaultReplaceOptions
    = {| console := []; returned := Ok "By A{{firm}}B" |} /\
  extractTokens "By A{{firm}}B" = ["firm"].
Proof. repeat split. Qed.


(** ** The cache of the extractor *)

Section CacheFacts.
Variable path_resolve : string -> string.

Lemma readAndCache_present (fs : gmap string file) (templatePath : string)
    (cache : gmap string cacheEntry) (f : file) :
  fs !! path_resolve templatePath = Some f ->
  readAndCache path_resolve fs templatePath cache
  = (Ok (extractTokens (content f)),
     <[path_resolve templatePath :=
         {| ce_tokens := extractTokens (content f); ce_mtime := mtime f |}]>
       cache).
Proof.
  intros F. unfold readAndCache, readAbsolute, statAbsolute. now rewrite F.
Qed.

Lemma readAndCache_absent (fs : gmap string file) (templatePath : string)
    (cache : gmap string cacheEntry) :
  fs !! path_resolve templatePath = None ->
  snd (readAndCache path_resolve fs templatePath cache) = cache.
Proof.
  intros F. unfold readAndCache, readAbsolute. now rewrite F.
Qed.

Lemma coherent_insert (snapshot : string -> Z -> string)
    (fs : gmap string file) (cache : gmap string cacheEntry)
    (key : string) (f : file) :
  tracks snapshot fs -> coherent snapshot cache -> fs !! key = Some f ->
  coherent snapshot
    (<[key := {| ce_tokens := extractTokens (content f);
                 ce_mtime := mtime f |}]> cache).
Proof.
  intros T C F path e. rewrite lookup_insert. case_decide as K.
  - subst path. intros [= <-]. simpl. now rewrite (T key f F).
  - apply C.
Qed.

Lemma coherent_delete (snapshot : string -> Z -> string)
    (cache : gmap string cacheEntry) (key : string) :
  coherent snapshot cache -> coherent snapshot (delete key cache).
Proof.
  intros C path e. rewrite lookup_delete. case_decide; [discriminate | apply C].
Qed.

(** Under the discipline, a call returns the tokens of the file as it is
    now, and leaves a coherent cache. *)
Lemma getCachedTokens_coherent (snapshot : string -> Z -> string)
    (fs : gmap string file) (templatePath : string)
    (cache : gmap string cacheEntry) :
  tracks snapshot fs -> coherent snapshot cache ->
  coherent snapshot (snd (getCachedTokens path_resolve fs templatePath cache)) /\
  forall f, fs !! path_resolve templatePath = Some f ->
    fst (getCachedTokens path_resolve fs templatePath cache)
    = Ok (extractTokens (content f)).
Proof.
  intros T C. unfold getCachedTokens, statAbsolute.
  destruct (cache !! path_resolve templatePath) as [e|] eqn:E;
    destruct (fs !! path_resolve templatePath) as [f|] eqn:F.
  - destruct (Z.eqb_spec (mtime f) (ce_mtime e)) as [M|M].
    + split; [exact C|]. intros f' [= <-]. simpl.
      rewrite (C _ _ E), (T _ _ F). now rewrite M.
    + rewrite (readAndCache_present _ _ _ _ F). simpl. split.
      * now apply (coherent_insert snapshot fs).
      * now intros f' [= <-].
  - simpl. split; [now apply coherent_delete | discriminate].
  - rewrite (readAndCache_present _ _ _ _ F). simpl. split.
    + now apply (coherent_insert snapshot fs).
    + now intros f' [= <-].
  - rewrite (readAndCache_absent _ _ _ F). split; [exact C | discriminate].
Qed.

(** Along a history that starts with an empty cache and keeps the
    discipline, every call on a file that exists returns the tokens of
    the content the file has at that time. *)
Lemma calls_fresh (snapshot : string -> Z -> string)
    (history : list (gmap string file * string)) :
  Forall (fun step => tracks snapshot (fst step)) history ->
  forall cache, coherent snapshot cache ->
    Forall2 (fun step r =>
               forall f, fst step !! path_resolve (snd step) = Some f ->
                         r = Ok (extractTokens (content f)))
            history (calls path_resolve history cache).
Proof.
  induction 1 as [|[fs templatePath] history T _ IH]; intros cache C; simpl.
  - constructor.
  - destruct (getCachedTokens_coherent snapshot fs templatePath cache T C)
      as [C' R].
    destruct (getCachedTokens path_resolve fs templatePath cache) as [r cache'].
    constructor; [exact R | now apply IH].
Qed.
End CacheFacts.

(** C8, the claim as stated fails: the content of the file changes from
    [{{a}}] to [{{b}}] under the same time stamp, and the second call
    returns the list cached by the first, not the tokens of the file. *)
Lemma unchanged_timestamp_serves_cached_list :
  getCachedTokens (fun path => path)
    {["/t/a.html" := {| content := "{{a}}"; mtime := 1 |}]} "/t/a.html" ∅
  = (Ok ["a"], {["/t/a.html" := {| ce_tokens := ["a"]; ce_mtime := 1 |}]}) /\
  fst (getCachedTokens (fun path => path)
         {["/t/a.html" := {| content := "{{b}}"; mtime := 1 |}]} "/t/a.html"
         {["/t/a.html" := {| ce_tokens := ["a"]; ce_mtime := 1 |}]})
  = Ok ["a"] /\
  extractTokens "{{b}}" = ["b"].
Proof. repeat split. Qed.

(** C8, amended.  For a file that exists and has a cache entry: when its
    time stamp differs from the cached one, the file is read again, the
    tokens of its content are returned and the entry is replaced by them
    and the new time stamp; when the time stamp is the cached one, the
    cached list is returned as it is and the cache is left alone.  The list
    returned is the one a fresh extraction gives whenever the content of a
    file is a function of its time stamp and the cache was filled under
    that discipline, which the call then maintains. *)
Theorem getCachedTokens_invalidates_on_timestamp
    (path_resolve : string -> string) (fs : gmap string file)
    (cache : gmap string cacheEntry) (templatePath : string)
    (f : file) (e : cacheEntry) :
  fs !! path_resolve templatePath = Some f ->
  cache !! path_resolve templatePath = Some e ->
  (mtime f <> ce_mtime e ->
   getCachedTokens path_resolve fs templatePath cache
   = (Ok (extractTokens (content f)),
      <[path_resolve templatePath :=
          {| ce_tokens := extractTokens (content f); ce_mtime := mtime f |}]>
        cache)) /\
  (mtime f = ce_mtime e ->
   getCachedTokens path_resolve fs templatePath cache
   = (Ok (ce_tokens e), cache)) /\
  (forall snapshot, tracks snapshot fs -> coherent snapshot cache ->
   fst (getCachedTokens path_resolve fs templatePath cache)
     = Ok (extractTokens (content f)) /\
   coherent snapshot
     (snd (getCachedTokens path_resolve fs templatePath cache))).
Proof.
  intros F E. split; [|split].
  - intros M. unfold getCachedTokens, statAbsolute. rewrite E, F.
    apply Z.eqb_neq in M. rewrite M. now apply readAndCache_present.
  - intros M. unfold getCachedTokens, statAbsolute. rewrite E, F.
    apply Z.eqb_eq in M. now rewrite M.
  - intros snapshot T C.
    destruct (getCachedTokens_coherent path_resolve snapshot fs templatePath
                cache T C) as [C' R].
    split; [now apply R | exact C'].
Qed.

Lemma getCachedTokens_invalidates_on_timestamp_witness :
  getCachedTokens (fun path => path)
    {["/t/a.html" := {| content := "{{b}} {{c}}"; mtime := 2 |}]} "/t/a.html"
    {["/t/a.html" := {| ce_tokens := ["a"]; ce_mtime := 1 |}]}
  = (Ok (extractTokens "{{b}} {{c}}"),
     <["/t/a.html" := {| ce_tokens := extractTokens "{{b}} {{c}}";
                         ce_mtime := 2 |}]>
       {["/t/a.html" := {| ce_tokens := ["a"]; ce_mtime := 1 |}]}) /\
  fst (getCachedTokens (fun path => path)
         {["/t/a.html" := {| content := "{{a}}"; mtime := 1 |}]} "/t/a.html"
         {["/t/a.html" := {| ce_tokens := ["a"]; ce_mtime := 1 |}]})
  = Ok (extractTokens "{{a}}").
Proof.
  split.
  - apply (getCachedTokens_invalidates_on_timestamp (fun path => path)
             {["/t/a.html" := {| content := "{{b}} {{c}}"; mtime := 2 |}]}
             {["/t/a.html" := {| ce_tokens := ["a"]; ce_mtime := 1 |}]}
             "/t/a.html"
             {| content := "{{b}} {{c}}"; mtime := 2 |}
             {| ce_tokens := ["a"]; ce_mtime := 1 |});
      [reflexivity | reflexivity | simpl; lia].
  - refine (proj1 (proj2 (proj2
             (getCachedTokens_invalidates_on_timestamp (fun path => path)
                {["/t/a.html" := {| content := "{{a}}"; mtime := 1 |}]}
                {["/t/a.html" := {| ce_tokens := ["a"]; ce_mtime := 1 |}]}
                "/t/a.html"
                {| content := "{{a}}"; mtime := 1 |}
                {| ce_tokens := ["a"]; ce_mtime := 1 |} _ _))
             (fun _ _ => "{{a}}") _ _)).
    + reflexivity.
    + reflexivity.
    + intros path f H. apply lookup_singleton_Some in H as [_ <-]. reflexivity.
    + intros path e H. apply lookup_singleton_Some in H as [_ <-]. reflexivity.
Defined.

(** ** The batch *)

Section BatchFacts.
Context {host : RegExpHost} {realm : Realm}.
Variable path_resolve : string -> string.
Variable fs : gmap string file.
Variable options : processorOptions.
Variable config : value.
Variable po : processingOptions.

(** [processTemplate] catches what its body throws. *)
Lemma processTemplate_returns (templatePath : string) (w : world) :
  exists r,
    fst (processTemplate path_resolve fs options templatePath config po w)
      = Ok r /\ templatePathOf r = templatePath.
Proof.
  unfold processTemplate.
  destruct (readFileSync path_resolve fs templatePath); [|eauto].
  destruct (if po_cacheTokens (mergeOptions options po) then _ else _)
    as [[tokens|message] cache']; [|eauto].
  destruct (validateAgainstTokens _ _ _); [|eauto].
  destruct (negb _ && _); [eauto|].
  destruct (returned _); eauto.
Qed.

Lemma attempt_path (templatePath : string) (w : world) :
  templatePathOf (fst (attempt path_resolve fs options templatePath config po w))
  = templatePath.
Proof.
  unfold attempt.
  destruct (processTemplate_returns templatePath w) as (r & E & P).
  destruct (processTemplate _ _ _ _ _ _ _) as [[r'|message] w']; simpl in *.
  - now injection E as ->.
  - reflexivity.
Qed.

Lemma attempts_paths (templatePaths : list string) :
  forall w,
    map templatePathOf
      (attempts path_resolve fs options templatePaths config po w)
    = templatePaths.
Proof.
  induction templatePaths as [|p rest IH]; intros w; simpl; [reflexivity|].
  pose proof (attempt_path p w) as P.
  destruct (attempt path_resolve fs options p config po w) as [r w'].
  simpl in *. now rewrite P, IH.
Qed.

(** One turn of the loop adds the result of the input to [processed] or
    to [failed], counts it, and clears the flag on a failure. *)
Lemma batchStep_attempt (results : batchResult) (w : world)
    (templatePath : string) :
  let r := fst (attempt path_resolve fs options templatePath config po w) in
  let after := fst (batchStep path_resolve fs options config po (results, w)
                      templatePath) in
  snd (batchStep path_resolve fs options config po (results, w) templatePath)
    = snd (attempt path_resolve fs options templatePath config po w) /\
  processed after = processed results ++ List.filter success [r] /\
  failed after
    = failed results ++ List.filter (fun r => negb (success r)) [r] /\
  total (summary after) = total (summary results) /\
  successful (summary after)
    = successful (summary results) + length (List.filter success [r]) /\
  failedCount (summary after)
    = failedCount (summary results)
      + length (List.filter (fun r => negb (success r)) [r]) /\
  batchSuccess after = batchSuccess results && success r.
Proof.
  unfold batchStep, attempt.
  destruct (processTemplate _ _ _ _ _ _ _) as [[[]|message] w']; simpl;
    rewrite ?app_nil_r, ?Nat.add_0_r, ?Nat.add_1_r, ?andb_true_r, ?andb_false_r;
    repeat split.
Qed.

Lemma batch_fold (templatePaths : list string) :
  forall (results : batchResult) (w : world),
    let rs := attempts path_resolve fs options templatePaths config po w in
    let after := fst (fold_left (batchStep path_resolve fs options config po)
                        templatePaths (results, w)) in
    processed after = processed results ++ List.filter success rs /\
    failed after
      = failed results ++ List.filter (fun r => negb (success r)) rs /\
    total (summary after) = total (summary results) /\
    successful (summary after)
      = successful (summary results) + length (List.filter success rs) /\
    failedCount (summary after)
      = failedCount (summary results)
        + length (List.filter (fun r => negb (success r)) rs) /\
    batchSuccess after = batchSuccess results && forallb success rs.
Proof.
  induction templatePaths as [|p rest IH]; intros results w.
  - simpl. rewrite !app_nil_r, !Nat.add_0_r, andb_true_r. repeat split.
  - cbn [fold_left attempts].
    destruct (batchStep_attempt results w p) as (W & P & F & T & S & C & B).
    destruct (batchStep path_resolve fs options config po (results, w) p)
      as [results' w'].
    destruct (attempt path_resolve fs options p config po w) as [r w''].
    simpl in W. subst w''. cbn [fst] in *.
    destruct (IH results' w') as (P' & F' & T' & S' & C' & B').
    cbv zeta in *. rewrite P', F', T', S', C', B', P, F, T, S, C, B.
    cbn [List.filter forallb]. destruct (success r); cbn [negb app length];
      rewrite <- ?app_assoc, ?app_nil_r, ?andb_assoc; cbn [app];
      repeat split; lia.
Qed.
End BatchFacts.

(** C3.  The batch processes every input, one result per input and in
    their order: the successful ones make up [processed], the others
    [failed]; [total] is the number of inputs, [successful] and [failed]
    count the two lists and add up to [total]; the flag is set exactly when
    every input succeeded.  Three inputs of which the second cannot be read
    give total 3, successful 2, failed 1. *)
Theorem batch_attempts_every_input
    {host : RegExpHost} {realm : Realm} (path_resolve : string -> string)
    (fs : gmap string file) (options : processorOptions)
    (templatePaths : list string) (config : value) (po : processingOptions)
    (w : world) :
  let results := attempts path_resolve fs options templatePaths config po w in
  let batch := fst (processMultipleTemplates path_resolve fs options
                      templatePaths config po w) in
  map templatePathOf results = templatePaths /\
  processed batch = List.filter success results /\
  failed batch = List.filter (fun r => negb (success r)) results /\
  total (summary batch) = length templatePaths /\
  successful (summary batch) = length (processed batch) /\
  failedCount (summary batch) = length (failed batch) /\
  successful (summary batch) + failedCount (summary batch)
    = total (summary batch) /\
  batchSuccess batch = forallb success results /\
  (let batch3 :=
     fst (processMultipleTemplates (host := Fragment.host)
            (realm := ES2023.realm) (fun path => path)
            (<["/t/cover.html" := {| content := "Hi {{client_name}}"; mtime := 1 |}]>
               {["/t/terms.html" :=
                   {| content := "{{client_name}} owes {{payment.amount}}";
                      mtime := 2 |}]})
            defaultProcessorOptions
            ["/t/cover.html"; "/t/absent.html"; "/t/terms.html"]
            (VObject [("client_name", VString "Ada");
                      ("payment", VObject [("amount", VString "$1,500")])])
            noOverride {| cache := ∅; printed := [] |}) in
   summary batch3 = {| total := 3; successful := 2; failedCount := 1 |} /\
   batchSuccess batch3 = false /\
   map templatePathOf (processed batch3) = ["/t/cover.html"; "/t/terms.html"] /\
   map templatePathOf (failed batch3) = ["/t/absent.html"]).
Proof.
  intros results batch.
  destruct (batch_fold path_resolve fs options config po templatePaths
              {| batchSuccess := true; processed := []; failed := [];
                 summary := {| total := length templatePaths; successful := 0;
                               failedCount := 0 |};
                 aggregatedTokens := []; aggregatedErrors := [];
                 aggregatedWarnings := [] |} w) as (P & F & T & S & C & B).
  fold results in P, F, S, C, B. unfold processMultipleTemplates in batch.
  fold batch in P, F, T, S, C, B. simpl in P, F, T, S, C, B.
  assert (L : length (List.filter success results)
              + length (List.filter (fun r => negb (success r)) results)
              = length results).
  { clear. induction results as [|r rs IH]; simpl; [reflexivity|].
    destruct (success r); simpl; lia. }
  assert (N : length results = length templatePaths).
  { unfold results. rewrite <- (List.length_map templatePathOf).
    now rewrite attempts_paths. }
  split; [apply attempts_paths|].
  repeat split; try assumption; try (rewrite ?P, ?F; lia).
Qed.

(** ** Expressions of ordinary tokens *)

Lemma is_ordinary_not_backslash (c : ascii) :
  is_ordinary c = true -> Ascii.eqb c "\" = false.
Proof.
  unfold is_ordinary. rewrite negb_true_iff, !orb_false_iff. tauto.
Qed.

Lemma escapeRegex_ordinary (token : string) :
  all_ordinary token = true -> escapeRegex token = token.
Proof.
  induction token as [|c r IH]; [reflexivity|].
  cbn [all_ordinary]. intros H. apply andb_prop in H as [_ H].
  specialize (IH H). cbn [escapeRegex].
  destruct r as [|b1 [|b2 [|b3 rest]]]; try (now rewrite IH).
  cbn [all_ordinary] in H. apply andb_prop in H as [H1 _].
  rewrite (is_ordinary_not_backslash _ H1), andb_false_r. cbn [andb].
  now rewrite IH.
Qed.

Lemma parse_ordinary (token : string) :
  forall (rest : string) (read : list Fragment.item),
    all_ordinary token = true ->
    Fragment.parse (token +:+ rest) read
    = Fragment.parse rest
        (rev (map item_of (list_ascii_of_string token)) ++ read).
Proof.
  induction token as [|c r IH]; intros rest read H; [reflexivity|].
  cbn [all_ordinary] in H. apply andb_prop in H as [Hc H].
  rewrite append_cons. cbn [Fragment.parse list_ascii_of_string map rev].
  rewrite <- app_assoc. cbn [app].
  unfold is_ordinary in Hc. rewrite negb_true_iff, !orb_false_iff in Hc.
  destruct Hc as [[[[E1 E2] E3] E4] E5]. rewrite E1, E2, E3, E4.
  unfold Fragment.is_structure_character in E5.
  cbn [existsb list_ascii_of_string] in E5. rewrite !orb_false_iff in E5.
  destruct E5 as (P1 & P2 & P3 & P4 & P5 & _). rewrite P1, P2, P3, P4, P5.
  unfold item_of.
  destruct (Ascii.eqb c "."); [now apply IH|].
  destruct (Ascii.eqb c "^"); [now apply IH|].
  destruct (Ascii.eqb c "$"); now apply IH.
Qed.

(** The engine of the fragment accepts the expression of every token
    written with ordinary characters. *)
Lemma ordinary_token_compiles (token : string) :
  all_ordinary token = true -> compiles (host := Fragment.host) token = true.
Proof.
  intros H. unfold compiles, tokenRegexSource. cbn [RegExp_g Fragment.host].
  rewrite (escapeRegex_ordinary _ H).
  change ("\{\{\s*" +:+ token +:+ "\s*\}\}")
    with (String "\" (String "{" (String "\" (String "{" (String "\"
            (String "s" (String "*" (token +:+ "\s*\}\}")))))))).
  cbn [Fragment.parse Ascii.eqb Bool.eqb Fragment.is_syntax_character existsb
       list_ascii_of_string orb Fragment.quantify mbind exc_bind].
  rewrite (parse_ordinary _ _ _ H).
  destruct (rev (map item_of (list_ascii_of_string token)) ++ _); reflexivity.
Qed.

(* ===================================================================== *)
(** * Part III: further properties of the code                           *)
(* ===================================================================== *)

(** ** The extractor *)

Lemma sort_insert_In (x y : string) (l : list string) :
  In y (sort_insert x l) <-> y = x \/ In y l.
Proof.
  induction l as [|z l IH]; simpl.
  - intuition congruence.
  - destruct (String.leb x z); simpl; [intuition congruence|].
    rewrite IH. intuition congruence.
Qed.

Lemma sort_In (y : string) (l : list string) : In y (sort l) <-> In y l.
Proof.
  induction l as [|x l IH]; simpl; [tauto|].
  rewrite sort_insert_In, IH. intuition congruence.
Qed.

Lemma sort_insert_NoDup (x : string) (l : list string) :
  ~ In x l -> List.NoDup l -> List.NoDup (sort_insert x l).
Proof.
  induction l as [|z l IH]; simpl; intros N D.
  - constructor; [tauto | constructor].
  - destruct (String.leb x z).
    + constructor; [simpl; tauto | exact D].
    + inversion D as [|? ? Nz Dl]; subst. constructor.
      * rewrite sort_insert_In. intuition congruence.
      * apply IH; [tauto | exact Dl].
Qed.

Lemma sort_NoDup (l : list string) : List.NoDup l -> List.NoDup (sort l).
Proof.
  induction 1 as [|x l N D IH]; simpl; [constructor|].
  apply sort_insert_NoDup; [now rewrite sort_In | exact IH].
Qed.

Lemma sort_insert_Sorted (x : string) (l : list string) :
  Sorted code_unit_le l -> Sorted code_unit_le (sort_insert x l).
Proof.
  induction l as [|z l IH]; simpl; intros S.
  - repeat constructor.
  - destruct (String.leb x z) eqn:L.
    + constructor; [exact S | constructor; exact L].
    + inversion S as [|? ? Sl Hd]; subst. constructor; [now apply IH|].
      assert (Z : code_unit_le z x).
      { destruct (String.leb_total x z) as [T|T]; [congruence | exact T]. }
      destruct l as [|w l]; simpl.
      * constructor. exact Z.
      * destruct (String.leb x w); constructor; [exact Z|].
        now inversion Hd.
Qed.

Lemma sort_Sorted (l : list string) : Sorted code_unit_le (sort l).
Proof.
  induction l as [|x l IH]; simpl; [constructor | now apply sort_insert_Sorted].
Qed.

Lemma set_add_In (set : list string) (x y : string) :
  In y (set_add set x) <-> In y set \/ y = x.
Proof.
  unfold set_add. destruct (includes set x) eqn:I.
  - apply includes_In in I. intuition congruence.
  - rewrite in_app_iff. simpl. intuition congruence.
Qed.

Lemma set_add_NoDup (set : list string) (x : string) :
  List.NoDup set -> List.NoDup (set_add set x).
Proof.
  intros D. unfold set_add. destruct (includes set x) eqn:I; [exact D|].
  apply List.NoDup_app.
  - exact D.
  - repeat constructor. intros [].
  - intros y Iy [<-|[]]. apply includes_In in Iy. congruence.
Qed.

Lemma set_add_fold_In {A : Type} (f : A -> string) (l : list A) :
  forall (set : list string) (y : string),
    In y (fold_left (fun set b => set_add set (f b)) l set)
    <-> In y set \/ In y (map f l).
Proof.
  induction l as [|b l IH]; intros set y; simpl; [tauto|].
  rewrite IH, set_add_In. intuition congruence.
Qed.

Lemma set_add_fold_NoDup {A : Type} (f : A -> string) (l : list A) :
  forall set, List.NoDup set ->
    List.NoDup (fold_left (fun set b => set_add set (f b)) l set).
Proof.
  induction l as [|b l IH]; intros set D; simpl; [exact D|].
  apply IH. now apply set_add_NoDup.
Qed.

Lemma contains_append (c : ascii) (a b : string) :
  contains c (a +:+ b) = contains c a || contains c b.
Proof.
  induction a as [|x a IH]; [reflexivity|].
  rewrite append_cons. simpl. now rewrite IH, orb_assoc.
Qed.

Lemma contains_trimStart (c : ascii) (s : string) :
  contains c s = false -> contains c (trimStart s) = false.
Proof.
  induction s as [|x s IH]; simpl; [reflexivity|].
  intros H. apply orb_false_iff in H as [Hx Hs].
  destruct (is_space x); [now apply IH|]. simpl. now rewrite Hx, Hs.
Qed.

Lemma contains_trimEnd (c : ascii) (s : string) :
  contains c s = false -> contains c (trimEnd s) = false.
Proof.
  induction s as [|x s IH]; simpl; [reflexivity|].
  intros H. apply orb_false_iff in H as [Hx Hs]. specialize (IH Hs).
  destruct (trimEnd s) as [|y t].
  - destruct (is_space x); simpl; [reflexivity | now rewrite Hx].
  - simpl. rewrite Hx. exact IH.
Qed.

Lemma contains_trim (c : ascii) (s : string) :
  contains c s = false -> contains c (trim s) = false.
Proof. intros H. unfold trim. now apply contains_trimEnd, contains_trimStart. Qed.

Lemma trimEnd_cons (c : ascii) (r : string) :
  trimEnd (String c r) =
  match trimEnd r with
  | EmptyString => if is_space c then EmptyString else String c EmptyString
  | r' => String c r'
  end.
Proof. reflexivity. Qed.

Lemma trimEnd_idempotent (s : string) : trimEnd (trimEnd s) = trimEnd s.
Proof.
  induction s as [|x s IH]; [reflexivity|].
  rewrite trimEnd_cons. destruct (trimEnd s) as [|y t] eqn:E.
  - destruct (is_space x) eqn:X; [reflexivity|].
    rewrite trimEnd_cons. simpl. now rewrite X.
  - rewrite trimEnd_cons, IH. reflexivity.
Qed.

(** A string that does not begin with a blank. *)
Lemma trimStart_shape (s : string) :
  trimStart s = EmptyString \/
  exists x t, trimStart s = String x t /\ is_space x = false.
Proof.
  induction s as [|x s IH]; simpl; [now left|].
  destruct (is_space x) eqn:X; [exact IH | right; eauto].
Qed.

Lemma trimStart_trimEnd (x : ascii) (t : string) :
  is_space x = false ->
  trimStart (trimEnd (String x t)) = trimEnd (String x t).
Proof.
  intros X. simpl. destruct (trimEnd t); rewrite ?X; simpl; now rewrite X.
Qed.

Lemma trim_idempotent (s : string) : trim (trim s) = trim s.
Proof.
  unfold trim. destruct (trimStart_shape s) as [-> | (x & t & -> & X)].
  - reflexivity.
  - rewrite (trimStart_trimEnd x t X). apply trimEnd_idempotent.
Qed.

Lemma span_body_spec (r : string) :
  contains "}" (fst (span_body r)) = false /\
  r = fst (span_body r) +:+ snd (span_body r).
Proof.
  induction r as [|c r [IH1 IH2]]; [now split|].
  cbn [span_body]. destruct (Ascii.eqb c "}") eqn:E; [now split|].
  destruct (span_body r) as [body rest]. cbn [fst snd contains] in *.
  rewrite Ascii.eqb_sym, E, IH1. split; [reflexivity|].
  now rewrite append_cons, <- IH2.
Qed.

Lemma span_body_app (name rest : string) :
  contains "}" name = false ->
  span_body (name +:+ String "}" rest) = (name, String "}" rest).
Proof.
  induction name as [|c name IH]; cbn [contains]; intros H.
  - reflexivity.
  - apply orb_false_iff in H as [Hc Hn]. rewrite append_cons.
    cbn [span_body]. rewrite Ascii.eqb_sym, Hc, (IH Hn). reflexivity.
Qed.

(** [match_marker] with its tests written out. *)
Lemma match_marker_tests (s : string) :
  match_marker s =
  match s with
  | String c1 (String c2 r) =>
      if Ascii.eqb c1 "{" && Ascii.eqb c2 "{" then
        match span_body r with
        | (String c body, String d1 (String d2 _)) =>
            if Ascii.eqb d1 "}" && Ascii.eqb d2 "}"
            then Some (String c body, 4 + String.length (String c body))
            else None
        | _ => None
        end
      else None
  | _ => None
  end.
Proof.
  destruct s as [|c1 [|c2 r]];
    [reflexivity | destruct c1 as [[] [] [] [] [] [] [] []]; reflexivity |].
  destruct c1 as [[] [] [] [] [] [] [] []]; try reflexivity.
  destruct c2 as [[] [] [] [] [] [] [] []]; try reflexivity.
  cbn. destruct (span_body r) as [[|c body] [|d1 [|d2 t]]]; try reflexivity.
  - destruct d1 as [[] [] [] [] [] [] [] []]; reflexivity.
  - destruct d1 as [[] [] [] [] [] [] [] []]; try reflexivity;
      destruct d2 as [[] [] [] [] [] [] [] []]; reflexivity.
Qed.

Lemma match_marker_body (s body : string) (len : nat) :
  match_marker s = Some (body, len) ->
  contains "}" body = false /\ body <> EmptyString.
Proof.
  rewrite match_marker_tests. destruct s as [|c1 [|c2 r]]; try discriminate.
  destruct (Ascii.eqb c1 "{" && Ascii.eqb c2 "{"); [|discriminate].
  pose proof (span_body_spec r) as [C _].
  destruct (span_body r) as [[|c b] [|d1 [|d2 t]]]; try discriminate.
  destruct (Ascii.eqb d1 "}" && Ascii.eqb d2 "}"); [|discriminate].
  intros [= <- _]. split; [exact C | discriminate].
Qed.

Lemma scan_bodies (s : string) :
  forall skip body, In body (scan skip s) ->
    contains "}" body = false /\ body <> EmptyString.
Proof.
  induction s as [|c s IH]; intros skip body; cbn [scan]; [intros []|].
  destruct skip as [|k]; [|apply IH].
  destruct (match_marker (String c s)) as [[b len]|] eqn:M; [|apply IH].
  intros [<-|I]; [eapply match_marker_body; eauto | eapply IH; eauto].
Qed.

Lemma match_marker_not_brace (c : ascii) (s : string) :
  Ascii.eqb "{" c = false -> match_marker (String c s) = None.
Proof.
  intros H. rewrite match_marker_tests. destruct s as [|c2 r]; [reflexivity|].
  now rewrite Ascii.eqb_sym, H.
Qed.

Lemma scan_no_brace (pre rest : string) :
  contains "{" pre = false -> scan 0 (pre +:+ rest) = scan 0 rest.
Proof.
  induction pre as [|c pre IH]; cbn [contains]; intros H; [reflexivity|].
  apply orb_false_iff in H as [Hc Hp]. rewrite append_cons.
  cbn [scan]. rewrite (match_marker_not_brace _ _ Hc). now apply IH.
Qed.

Lemma match_marker_marker (name post : string) :
  contains "}" name = false -> name <> EmptyString ->
  match_marker ("{{" +:+ name +:+ "}}" +:+ post)
  = Some (name, 4 + String.length name).
Proof.
  intros C N. rewrite match_marker_tests.
  change ("{{" +:+ name +:+ "}}" +:+ post)
    with (String "{" (String "{" (name +:+ String "}" (String "}" post)))).
  cbn [Ascii.eqb Bool.eqb andb]. rewrite (span_body_app _ _ C).
  destruct name as [|c name]; [contradiction|]. reflexivity.
Qed.

(** X1.  The list [extractTokens] returns is in ascending code-unit order
    and free of duplicates; each of its tokens is trimmed and holds no
    closing brace. *)
Theorem extractTokens_sorted_unique_trimmed (templateContent : string) :
  Sorted code_unit_le (extractTokens templateContent) /\
  List.NoDup (extractTokens templateContent) /\
  forall token, In token (extractTokens templateContent) ->
    trim token = token /\ contains "}" token = false.
Proof.
  unfold extractTokens. split; [apply sort_Sorted|]. split.
  - apply sort_NoDup, set_add_fold_NoDup. constructor.
  - intros token I. apply sort_In, set_add_fold_In in I as [[]|I].
    apply in_map_iff in I as (body & <- & I).
    apply scan_bodies in I as [C _]. split.
    + apply trim_idempotent.
    + now apply contains_trim.
Qed.

(** X2.  In a text that begins with characters other than the opening
    brace, followed by a marker whose name is not empty and holds no
    closing brace, the marker is found: its trimmed name is among the
    tokens.  From the part before the marker nothing is extracted. *)
Theorem extractTokens_finds_first_marker (before name after : string) :
  contains "{" before = false ->
  contains "}" name = false -> name <> EmptyString ->
  In (trim name)
     (extractTokens (before +:+ "{{" +:+ name +:+ "}}" +:+ after)) /\
  extractTokens before = [].
Proof.
  intros B C N. split.
  - unfold extractTokens. apply sort_In, set_add_fold_In. right.
    apply in_map. rewrite (scan_no_brace _ _ B).
    remember ("{{" +:+ name +:+ "}}" +:+ after) as m eqn:E.
    assert (M : match_marker m = Some (name, 4 + String.length name))
      by (subst m; now apply match_marker_marker).
    destruct m as [|c m]; [discriminate|].
    cbn [scan]. rewrite M. now left.
  - unfold extractTokens.
    rewrite <- (append_empty_r before), (scan_no_brace _ _ B). reflexivity.
Qed.

Lemma extractTokens_finds_first_marker_witness :
  In (trim " payment.amount ")
     (extractTokens ("Due: " +:+ "{{" +:+ " payment.amount " +:+ "}}"
                     +:+ " by {{date}}")) /\
  extractTokens "Due: " = [].
Proof.
  apply (extractTokens_finds_first_marker "Due: " " payment.amount "
           " by {{date}}"); [reflexivity | reflexivity | discriminate].
Defined.


(** ** The cache, the other entry points *)

Section ExtractorFacts.
Variable path_resolve : string -> string.

Lemma getCachedTokens_absent (fs : gmap string file) (templatePath : string)
    (cache : gmap string cacheEntry) :
  fs !! path_resolve templatePath = None ->
  getCachedTokens path_resolve fs templatePath cache
  = (Throw (match cache !! path_resolve templatePath with
            | Some _ => "Template file not found: " +:+ templatePath
            | None =>
                "Error reading template file " +:+ templatePath +:+ ": "
                +:+ "ENOENT: no such file or directory, open '"
                +:+ path_resolve templatePath +:+ "'"
            end),
     delete (path_resolve templatePath) cache).
Proof.
  intros F. unfold getCachedTokens, statAbsolute, readAndCache, readAbsolute.
  rewrite F. destruct (cache !! path_resolve templatePath) eqn:E; simpl.
  - reflexivity.
  - now rewrite delete_id.
Qed.

Lemma set_add_list_In (tokens : list string) :
  forall (set : list string) (y : string),
    In y (fold_left set_add tokens set) <-> In y set \/ In y tokens.
Proof.
  intros set y.
  rewrite <- (map_id tokens) at 2. apply (set_add_fold_In (fun t => t)).
Qed.

Lemma unreadable_cons (fs : gmap string file) (p : string)
    (rest : list string) :
  List.filter (fun p => negb (readable path_resolve fs p)) (p :: rest)
  = if readable path_resolve fs p
    then List.filter (fun p => negb (readable path_resolve fs p)) rest
    else p :: List.filter (fun p => negb (readable path_resolve fs p)) rest.
Proof. simpl. now destruct (readable path_resolve fs p). Qed.

Lemma uniqueStep_fold (snapshot : string -> Z -> string)
    (fs : gmap string file) (templatePaths : list string) :
  tracks snapshot fs ->
  forall allTokens cache console, coherent snapshot cache ->
    let '(allTokens', (cache', console')) :=
      fold_left (uniqueStep path_resolve fs) templatePaths
        (allTokens, (cache, console)) in
    coherent snapshot cache' /\
    (forall token, In token allTokens' <->
       In token allTokens \/
       exists templatePath f,
         In templatePath templatePaths /\
         fs !! path_resolve templatePath = Some f /\
         In token (extractTokens (content f))) /\
    length console'
    = length console
      + length (List.filter (fun p => negb (readable path_resolve fs p))
                  templatePaths) /\
    (List.NoDup allTokens -> List.NoDup allTokens').
Proof.
  intros T. induction templatePaths as [|p rest IH];
    intros allTokens cache console C.
  - simpl. split; [exact C|]. split; [|split; [lia | auto]].
    intros token. split; [now left|].
    intros [H|(p & f & [] & _)]. exact H.
  - cbn [fold_left]. unfold uniqueStep at 2. rewrite unreadable_cons.
    destruct (getCachedTokens_coherent path_resolve snapshot fs p cache T C)
      as [C' R].
    unfold readable at 1.
    destruct (fs !! path_resolve p) as [f|] eqn:F.
    + specialize (R f eq_refl).
      destruct (getCachedTokens path_resolve fs p cache) as [r cache1].
      simpl in R, C'. subst r.
      specialize (IH (fold_left set_add (extractTokens (content f)) allTokens)
                    cache1 console C').
      destruct (fold_left (uniqueStep path_resolve fs) rest _)
        as [allTokens' [cache' console']].
      destruct IH as (C2 & M & L & D). repeat split.
      * exact C2.
      * intros H. apply M in H as [H|(q & g & I & G & H)].
        -- apply set_add_list_In in H as [H|H]; [now left|].
           right. exists p, f. simpl. auto.
        -- right. exists q, g. simpl. auto.
      * intros [H|(q & g & [<-|I] & G & H)]; apply M.
        -- left. apply set_add_list_In. now left.
        -- left. apply set_add_list_In. right. congruence.
        -- right. eauto.
      * exact L.
      * intros N. apply D. clear -N.
        revert allTokens N.
        induction (extractTokens (content f)) as [|t l IHl]; intros a N;
          simpl; [exact N | apply IHl, set_add_NoDup, N].
    + rewrite (getCachedTokens_absent _ _ _ F) in C' |- *. simpl in C'.
      specialize (IH allTokens (delete (path_resolve p) cache)
                    (console ++ ["Warning: Could not extract tokens from "
                       +:+ p +:+ ": " +:+
                       match cache !! path_resolve p with
                       | Some _ => "Template file not found: " +:+ p
                       | None =>
                           "Error reading template file " +:+ p +:+ ": "
                           +:+ "ENOENT: no such file or directory, open '"
                           +:+ path_resolve p +:+ "'"
                       end]) C').
      destruct (fold_left (uniqueStep path_resolve fs) rest _)
        as [allTokens' [cache' console']].
      destruct IH as (C2 & M & L & D). repeat split.
      * exact C2.
      * intros H. apply M in H as [H|(q & g & I & G & H)]; [now left|].
        right. exists q, g. simpl. auto.
      * intros [H|(q & g & [<-|I] & G & H)]; apply M;
          [now left | congruence | right; eauto].
      * rewrite L, length_app. simpl. lia.
      * exact D.
Qed.

Lemma extract_fold (snapshot : string -> Z -> string)
    (fs : gmap string file) (templatePaths : list string) :
  tracks snapshot fs ->
  forall results cache, coherent snapshot cache ->
    let '(results', cache') :=
      fold_left
        (fun (state : fileResults * gmap string cacheEntry) templatePath =>
           let (results, cache) := state in
           let (r, cache) :=
             getCachedTokens path_resolve fs templatePath cache in
           (assign_result results templatePath r, cache))
        templatePaths (results, cache) in
    coherent snapshot cache' /\
    (forall templatePath, templatePath <> "__proto__" ->
      (In templatePath templatePaths ->
       match fs !! path_resolve templatePath with
       | Some f =>
           own_results results' !! templatePath
           = Some (Ok (extractTokens (content f)))
       | None =>
           exists message,
             own_results results' !! templatePath = Some (Throw message)
       end) /\
      (~ In templatePath templatePaths ->
       own_results results' !! templatePath
       = own_results results !! templatePath)) /\
    own_results results' !! "__proto__" = own_results results !! "__proto__" /\
    (In "__proto__" templatePaths ->
     match fs !! path_resolve "__proto__" with
     | Some f =>
         given_prototype results' = Some (Ok (extractTokens (content f)))
     | None => exists message, given_prototype results' = Some (Throw message)
     end) /\
    (~ In "__proto__" templatePaths ->
     given_prototype results' = given_prototype results).
Proof.
  intros T. induction templatePaths as [|p rest IH]; intros results cache C.
  - simpl. split; [exact C|]. split; [|split; [reflexivity|split]].
    + intros q _. split; [intros [] | reflexivity].
    + intros [].
    + reflexivity.
  - cbn [fold_left].
    destruct (getCachedTokens_coherent path_resolve snapshot fs p cache T C)
      as [C' R].
    pose proof (getCachedTokens_absent fs p cache) as A.
    destruct (getCachedTokens path_resolve fs p cache) as [r cache1].
    simpl in C', R.
    specialize (IH (assign_result results p r) cache1 C').
    destruct (fold_left _ rest _) as [results' cache'].
    destruct IH as (C2 & M & O & G1 & G2). split; [exact C2|].
    assert (Ar : match fs !! path_resolve p with
                 | Some f => r = Ok (extractTokens (content f))
                 | None => exists message, r = Throw message
                 end).
    { destruct (fs !! path_resolve p) as [f|] eqn:F.
      - now apply R.
      - specialize (A eq_refl). injection A as -> _. eauto. }
    unfold assign_result in M, O, G1, G2.
    destruct (String.eqb_spec p "__proto__") as [->|N];
      cbn [own_results given_prototype] in M, O, G1, G2.
    + split; [|split; [exact O|split]].
      * intros q Q. destruct (M q Q) as [M1 M2]. split.
        -- intros [E|I]; [congruence | now apply M1].
        -- intros I. apply M2. simpl in I. tauto.
      * intros _.
        destruct (in_dec String.string_dec "__proto__" rest) as [I|I];
          [now apply G1|].
        rewrite (G2 I).
        destruct (fs !! path_resolve "__proto__") as [f|].
        -- now rewrite Ar.
        -- destruct Ar as [message ->]. eauto.
      * intros I. simpl in I. tauto.
    + split; [|split; [|split]].
      * intros q Q. destruct (M q Q) as [M1 M2]. split.
        -- intros [<-|I]; [|now apply M1].
           destruct (in_dec String.string_dec p rest) as [I|I]; [now apply M1|].
           rewrite (M2 I), lookup_insert_eq.
           destruct (fs !! path_resolve p) as [f|].
           ++ now rewrite Ar.
           ++ destruct Ar as [message ->]. eauto.
        -- intros I. simpl in I. rewrite M2 by tauto.
           rewrite lookup_insert_ne; [reflexivity | tauto].
      * rewrite O. now apply lookup_insert_ne.
      * intros [E|I]; [congruence | now apply G1].
      * intros I. simpl in I. apply G2. tauto.
Qed.

(** X3.  [getCachedTokens] on a file that does not exist throws and leaves
    no cache entry for the file; the message depends on the cache: with
    an entry for the file it is [Template file not found: <path>], without
    one it is [Error reading template file <path>: ] followed by the
    message of the file system. *)
Theorem getCachedTokens_missing_file (fs : gmap string file)
    (templatePath : string) (cache : gmap string cacheEntry) :
  fs !! path_resolve templatePath = None ->
  fst (getCachedTokens path_resolve fs templatePath cache)
  = Throw (if decide (is_Some (cache !! path_resolve templatePath))
           then "Template file not found: " +:+ templatePath
           else "Error reading template file " +:+ templatePath +:+ ": "
                +:+ "ENOENT: no such file or directory, open '"
                +:+ path_resolve templatePath +:+ "'") /\
  snd (getCachedTokens path_resolve fs templatePath cache)
  = delete (path_resolve templatePath) cache /\
  snd (getCachedTokens path_resolve fs templatePath cache)
    !! path_resolve templatePath = None.
Proof.
  intros F. rewrite (getCachedTokens_absent _ _ _ F). simpl.
  split; [|split; [reflexivity | apply lookup_delete_eq]].
  destruct (cache !! path_resolve templatePath) eqn:E.
  - rewrite decide_True; [reflexivity | eauto].
  - rewrite decide_False; [reflexivity | intros [? ?]; discriminate].
Qed.

(** X4.  After [clearCache(templatePath)] with a path that is not empty,
    a call for a file that exists reads the file, whatever time stamp
    had been cached, and the other entries stay; after [clearCache()]
    the cache holds this one entry.  [clearCache('')] clears the whole
    cache, like [clearCache()]. *)
Theorem clearCache_forces_reading (fs : gmap string file)
    (templatePath : string) (cache : gmap string cacheEntry) (f : file) :
  fs !! path_resolve templatePath = Some f ->
  let entry := {| ce_tokens := extractTokens (content f);
                  ce_mtime := mtime f |} in
  (templatePath <> "" ->
   getCachedTokens path_resolve fs templatePath
     (clearCache path_resolve (Some templatePath) cache)
   = (Ok (extractTokens (content f)),
      <[path_resolve templatePath := entry]> cache)) /\
  getCachedTokens path_resolve fs templatePath
    (clearCache path_resolve None cache)
  = (Ok (extractTokens (content f)), {[path_resolve templatePath := entry]}) /\
  clearCache path_resolve (Some "") cache = ∅.
Proof.
  intros F entry. split; [|split; [|reflexivity]].
  - intros N. unfold clearCache. simpl.
    apply String.eqb_neq in N. rewrite N. simpl.
    unfold getCachedTokens. rewrite lookup_delete_eq.
    rewrite (readAndCache_present _ _ _ _ _ F). now rewrite insert_delete_eq.
  - unfold clearCache, getCachedTokens. rewrite lookup_empty.
    now rewrite (readAndCache_present _ _ _ _ _ F).
Qed.

(** X5.  Along a history of calls in which no edit keeps the time stamp
    of a file, starting with an empty cache, every call for a file that
    exists returns the tokens of the content the file has at that time,
    and every call for a file that does not exist throws. *)
Theorem calls_follow_the_files (snapshot : string -> Z -> string)
    (history : list (gmap string file * string)) :
  Forall (fun step => tracks snapshot (fst step)) history ->
  Forall2 (fun step r =>
             match fst step !! path_resolve (snd step) with
             | Some f => r = Ok (extractTokens (content f))
             | None => exists message, r = Throw message
             end)
          history (calls path_resolve history ∅).
Proof.
  intros H.
  assert (C : coherent snapshot (∅ : gmap string cacheEntry))
    by (intros path e; rewrite lookup_empty; discriminate).
  revert C. generalize (∅ : gmap string cacheEntry).
  induction H as [|[fs templatePath] history T _ IH]; intros cache C; simpl.
  - constructor.
  - destruct (getCachedTokens_coherent path_resolve snapshot fs templatePath
                cache T C) as [C' R].
    pose proof (getCachedTokens_absent fs templatePath cache) as A.
    destruct (getCachedTokens path_resolve fs templatePath cache) as [r cache'].
    constructor; [|now apply IH]. simpl.
    destruct (fs !! path_resolve templatePath) as [f|].
    + now apply R.
    + specialize (A eq_refl). injection A as -> _. eauto.
Qed.

(** X6.  [extractFromMultipleFiles] answers for exactly the paths it is
    given: under the discipline of time stamps, a path whose file exists
    is mapped to the tokens of the file's content, a path whose file does
    not exist to an error, and no other path is a key of the result.  The
    path [__proto__] is the exception: it never becomes a key, and its
    answer becomes the prototype of the object returned. *)
Theorem extractFromMultipleFiles_answers_each_path
    (snapshot : string -> Z -> string) (fs : gmap string file)
    (templatePaths : list string) (cache : gmap string cacheEntry) :
  tracks snapshot fs -> coherent snapshot cache ->
  let results :=
    fst (extractFromMultipleFiles path_resolve fs templatePaths cache) in
  (forall templatePath, templatePath <> "__proto__" ->
     (In templatePath templatePaths ->
      match fs !! path_resolve templatePath with
      | Some f =>
          own_results results !! templatePath
          = Some (Ok (extractTokens (content f)))
      | None =>
          exists message,
            own_results results !! templatePath = Some (Throw message)
      end) /\
     (~ In templatePath templatePaths ->
      own_results results !! templatePath = None)) /\
  own_results results !! "__proto__" = None /\
  (In "__proto__" templatePaths ->
   match fs !! path_resolve "__proto__" with
   | Some f => given_prototype results = Some (Ok (extractTokens (content f)))
   | None => exists message, given_prototype results = Some (Throw message)
   end) /\
  (~ In "__proto__" templatePaths -> given_prototype results = None).
Proof.
  intros T C. unfold extractFromMultipleFiles.
  pose proof (extract_fold snapshot fs templatePaths T
                {| own_results := ∅; given_prototype := None |} cache C) as H.
  destruct (fold_left _ templatePaths _) as [results' cache'].
  destruct H as (_ & M & O & G1 & G2). cbn [fst own_results given_prototype] in *.
  split; [|split; [|split]].
  - intros q Q. destruct (M q Q) as [M1 M2]. split; [exact M1|].
    intros N. rewrite (M2 N). apply lookup_empty.
  - rewrite O. apply lookup_empty.
  - exact G1.
  - exact G2.
Qed.

(** X7.  [getAllUniqueTokens] returns, in ascending order and without
    duplicates, the tokens of the files that exist among the paths given,
    under the discipline of time stamps; it writes one warning for each
    path given whose file does not exist. *)
Theorem getAllUniqueTokens_is_the_sorted_union
    (snapshot : string -> Z -> string) (fs : gmap string file)
    (templatePaths : list string) (cache : gmap string cacheEntry) :
  tracks snapshot fs -> coherent snapshot cache ->
  let '(allTokens, (_, console)) :=
    getAllUniqueTokens path_resolve fs templatePaths cache in
  Sorted code_unit_le allTokens /\ List.NoDup allTokens /\
  (forall token, In token allTokens <->
     exists templatePath f,
       In templatePath templatePaths /\
       fs !! path_resolve templatePath = Some f /\
       In token (extractTokens (content f))) /\
  length console
  = length (List.filter (fun p => negb (readable path_resolve fs p))
              templatePaths).
Proof.
  intros T C. unfold getAllUniqueTokens.
  pose proof (uniqueStep_fold snapshot fs templatePaths T [] cache [] C) as H.
  destruct (fold_left _ templatePaths _) as [allTokens [cache' console]].
  destruct H as (_ & M & L & D). repeat split.
  - apply sort_Sorted.
  - apply sort_NoDup, D. constructor.
  - intros H. apply sort_In, M in H as [[]|H]. exact H.
  - intros H. apply sort_In, M. now right.
  - exact L.
Qed.
End ExtractorFacts.


Lemma getCachedTokens_missing_file_witness :
  fst (getCachedTokens (fun path => path) ∅ "/t/gone.html"
         {["/t/gone.html" := {| ce_tokens := ["a"]; ce_mtime := 1 |}]})
  = Throw (if decide (is_Some
                        (({["/t/gone.html" :=
                              {| ce_tokens := ["a"]; ce_mtime := 1 |}]}
                          : gmap string cacheEntry) !! "/t/gone.html"))
           then "Template file not found: " +:+ "/t/gone.html"
           else "Error reading template file " +:+ "/t/gone.html" +:+ ": "
                +:+ "ENOENT: no such file or directory, open '"
                +:+ "/t/gone.html" +:+ "'") /\
  snd (getCachedTokens (fun path => path) ∅ "/t/gone.html"
         {["/t/gone.html" := {| ce_tokens := ["a"]; ce_mtime := 1 |}]})
  = delete "/t/gone.html"
      {["/t/gone.html" := {| ce_tokens := ["a"]; ce_mtime := 1 |}]} /\
  snd (getCachedTokens (fun path => path) ∅ "/t/gone.html"
         {["/t/gone.html" := {| ce_tokens := ["a"]; ce_mtime := 1 |}]})
    !! "/t/gone.html" = None.
Proof.
  apply (getCachedTokens_missing_file (fun path => path) ∅ "/t/gone.html"
           {["/t/gone.html" := {| ce_tokens := ["a"]; ce_mtime := 1 |}]}).
  reflexivity.
Defined.

Lemma clearCache_forces_reading_witness :
  getCachedTokens (fun path => path)
    {["/t/a.html" := {| content := "{{b}}"; mtime := 1 |}]} "/t/a.html"
    (clearCache (fun path => path) (Some "/t/a.html")
       {["/t/a.html" := {| ce_tokens := ["a"]; ce_mtime := 1 |}]})
  = (Ok (extractTokens "{{b}}"),
     <["/t/a.html" := {| ce_tokens := extractTokens "{{b}}"; ce_mtime := 1 |}]>
       {["/t/a.html" := {| ce_tokens := ["a"]; ce_mtime := 1 |}]}).
Proof.
  refine (proj1 (clearCache_forces_reading (fun path => path)
                   {["/t/a.html" := {| content := "{{b}}"; mtime := 1 |}]}
                   "/t/a.html"
                   {["/t/a.html" := {| ce_tokens := ["a"]; ce_mtime := 1 |}]}
                   {| content := "{{b}}"; mtime := 1 |} _) _).
  - reflexivity.
  - discriminate.
Defined.

Lemma calls_follow_the_files_witness :
  Forall2 (fun step r =>
             match fst step !! snd step with
             | Some f => r = Ok (extractTokens (content f))
             | None => exists message, r = Throw message
             end)
    [(({["/t/a.html" := {| content := "{{a}}"; mtime := 1 |}]}
      : gmap string file), "/t/a.html");
     ({["/t/a.html" := {| content := "{{b}}"; mtime := 2 |}]}, "/t/a.html");
     (∅, "/t/a.html")]
    (calls (fun path => path)
       [(({["/t/a.html" := {| content := "{{a}}"; mtime := 1 |}]}
      : gmap string file), "/t/a.html");
        ({["/t/a.html" := {| content := "{{b}}"; mtime := 2 |}]}, "/t/a.html");
        (∅, "/t/a.html")] ∅).
Proof.
  apply (calls_follow_the_files (fun path => path)
           (fun _ stamp => if (stamp =? 1)%Z then "{{a}}" else "{{b}}")).
  repeat constructor; intros path f H; simpl in H.
  - apply lookup_singleton_Some in H as [_ <-]. reflexivity.
  - apply lookup_singleton_Some in H as [_ <-]. reflexivity.
  - rewrite lookup_empty in H. discriminate.
Defined.

Lemma extractFromMultipleFiles_answers_each_path_witness :
  own_results
    (fst (extractFromMultipleFiles (fun path => path)
            {["/t/a.html" := {| content := "{{b}} {{a}}"; mtime := 1 |}]}
            ["/t/a.html"; "__proto__"] ∅)) !! "__proto__" = None.
Proof.
  apply (extractFromMultipleFiles_answers_each_path (fun path => path)
           (fun _ _ => "{{b}} {{a}}")
           {["/t/a.html" := {| content := "{{b}} {{a}}"; mtime := 1 |}]}
           ["/t/a.html"; "__proto__"] ∅).
  - intros path f H. apply lookup_singleton_Some in H as [_ <-]. reflexivity.
  - intros path e H. rewrite lookup_empty in H. discriminate.
Defined.

Lemma getAllUniqueTokens_is_the_sorted_union_witness :
  let '(allTokens, (_, console)) :=
    getAllUniqueTokens (fun path => path)
      {["/t/a.html" := {| content := "{{b}} {{a}}"; mtime := 1 |}]}
      ["/t/a.html"; "/t/gone.html"] ∅ in
  Sorted code_unit_le allTokens /\ List.NoDup allTokens /\
  (forall token, In token allTokens <->
     exists templatePath f,
       In templatePath ["/t/a.html"; "/t/gone.html"] /\
       ({["/t/a.html" := {| content := "{{b}} {{a}}"; mtime := 1 |}]}
        : gmap string file) !! templatePath = Some f /\
       In token (extractTokens (content f))) /\
  length console
  = length (List.filter
              (fun p => negb (readable (fun path => path)
                      {["/t/a.html" := {| content := "{{b}} {{a}}"; mtime := 1 |}]}
                      p))
              ["/t/a.html"; "/t/gone.html"]).
Proof.
  apply (getAllUniqueTokens_is_the_sorted_union (fun path => path)
           (fun _ _ => "{{b}} {{a}}")
           {["/t/a.html" := {| content := "{{b}} {{a}}"; mtime := 1 |}]}
           ["/t/a.html"; "/t/gone.html"] ∅).
  - intros path f H. apply lookup_singleton_Some in H as [_ <-]. reflexivity.
  - intros path e H. rewrite lookup_empty in H. discriminate.
Defined.


(** ** The validator, the missing side *)

Section ValidatorFacts.
Context {realm : Realm}.

Lemma validation_fold (config : value) (opts : validateOptions)
    (tokens : list string) :
  forall r,
    let after := fold_left (validateStep config opts) tokens r in
    let added := missingOf config (allowEmpty opts) tokens in
    missing after = missing r ++ added /\
    errors after
    = errors r ++ (if strictMode opts then map requiredMessage added else []) /\
    warnings after
    = warnings r ++ (if strictMode opts then [] else map missingMessage added) /\
    valid after
    = valid r && (negb (strictMode opts)
                  || forallb (counted config (allowEmpty opts)) tokens) /\
    unused after = unused r /\
    (Forall (fun f => getNestedValue config (f_token f) = Ok (f_value f) /\
                      f_type f = type_of (f_value f)) (found r) ->
     Forall (fun f => getNestedValue config (f_token f) = Ok (f_value f) /\
                      f_type f = type_of (f_value f)) (found after)).
Proof.
  induction tokens as [|t tokens IH]; intros r.
  - simpl. rewrite !app_nil_r, orb_true_r, andb_true_r.
    destruct (strictMode opts); simpl; rewrite ?app_nil_r; auto 10.
  - cbn [fold_left]. destruct (IH (validateStep config opts r t))
      as (M & E & W & V & U & F). cbv zeta in *.
    rewrite M, E, W, V, U. clear M E W V U. revert F.
    unfold missingOf. cbn [flat_map forallb].
    fold (missingOf config (allowEmpty opts) tokens).
    unfold validateStep.
    pose proof (validateSingleToken_counted config t (allowEmpty opts)) as C.
    destruct (validateSingleToken config t (allowEmpty opts)) as [v|reason];
      intros F.
    + destruct C as [C G]. rewrite C. cbn [app andb]. repeat split; auto.
      intros H. apply F. cbn [found]. apply Forall_app. split; [exact H|].
      constructor; [|constructor]. now split.
    + rewrite C. cbn [andb].
      destruct (strictMode opts); cbn [missing errors warnings valid found negb
                                       orb andb map app unused];
        rewrite <- ?app_assoc, ?andb_false_r; cbn [app]; repeat split; auto.
Qed.

Lemma missingOf_tokens (config : value) (allowEmpty : bool)
    (tokens : list string) :
  map m_token (missingOf config allowEmpty tokens)
  = List.filter (fun t => negb (counted config allowEmpty t)) tokens.
Proof.
  induction tokens as [|t tokens IH]; [reflexivity|].
  unfold missingOf. cbn [flat_map List.filter].
  fold (missingOf config allowEmpty tokens). rewrite map_app, IH.
  pose proof (validateSingleToken_counted config t allowEmpty) as C.
  destruct (validateSingleToken config t allowEmpty) as [v|reason].
  - destruct C as [-> _]. reflexivity.
  - rewrite C. reflexivity.
Qed.

Lemma filter_partition_length {A : Type} (f : A -> bool) (l : list A) :
  length (List.filter f l) + length (List.filter (fun x => negb (f x)) l)
  = length l.
Proof.
  induction l as [|x l IH]; simpl; [reflexivity|].
  destruct (f x); simpl; lia.
Qed.

(** What the loop of [validateAgainstTokens] leaves. *)
Lemma validateLoop_spec (config : value) (tokens : list string)
    (opts : validateOptions) :
  let v := validateLoop config tokens opts in
  missing v = missingOf config (allowEmpty opts) tokens /\
  errors v = (if strictMode opts then map requiredMessage (missing v) else []) /\
  warnings v = (if strictMode opts then [] else map missingMessage (missing v)) /\
  valid v = (negb (strictMode opts)
             || forallb (counted config (allowEmpty opts)) tokens) /\
  unused v = [] /\
  Forall (fun f => getNestedValue config (f_token f) = Ok (f_value f) /\
                   f_type f = type_of (f_value f)) (found v).
Proof.
  destruct (validation_fold config opts tokens
              {| valid := true; errors := []; warnings := []; missing := [];
                 found := []; unused := [] |}) as (M & E & W & V & U & F).
  cbv zeta in *. cbn [missing errors warnings valid found unused app andb] in *.
  fold (validateLoop config tokens opts) in *.
  rewrite M. repeat split; auto.
Qed.

Lemma missing_validateLoop (config : value) (tokens : list string)
    (opts : validateOptions) :
  missing (validateLoop config tokens opts)
  = missingOf config (allowEmpty opts) tokens.
Proof. apply validateLoop_spec. Qed.

Lemma findMissing_fold (config : value) (tokens : list string) :
  forall acc,
    fold_left
      (fun missing token =>
         match validateSingleToken config token false with
         | TokenFound _ => missing
         | TokenMissing _ => missing ++ [token]
         end)
      tokens acc
    = acc ++ List.filter (fun t => negb (counted config false t)) tokens.
Proof.
  induction tokens as [|t tokens IH]; intros acc.
  - simpl. now rewrite app_nil_r.
  - cbn [fold_left List.filter]. rewrite IH.
    pose proof (validateSingleToken_counted config t false) as C.
    destruct (validateSingleToken config t false) as [v|reason].
    + destruct C as [-> _]. reflexivity.
    + rewrite C. simpl. now rewrite <- app_assoc.
Qed.

Lemma non_object_getNestedValue (config : value) (token : string) :
  is_object config = false -> getNestedValue config token = Ok (Data VUndefined).
Proof.
  intros H. unfold getNestedValue.
  destruct config; try discriminate H; simpl; now rewrite ?orb_true_r.
Qed.

End ValidatorFacts.

(** X8.  [validateAgainstTokens] sorts every required token into [found]
    or [missing]: the missing ones are those that do not resolve, or
    resolve to the empty string while [allowEmpty] is off, in the order of
    the tokens, and the two lists together are as long as the list of
    tokens.  The result is valid unless [strictMode] is on and a token is
    missing.  In strict mode there is one error for each missing token and
    no warning for it; otherwise one warning for each and no error.  The
    value recorded for a found token is the one the token resolves to,
    with its type.  This is the whole result without [warnOnUnused].
    With it, the call throws when the flattening of the configuration
    meets an object with an own property [hasOwnProperty]; otherwise the
    result holds in addition the unused paths, and one more warning, which
    lists them, when there are any. *)
Theorem validateAgainstTokens_sorts_every_token {realm : Realm}
    (config : value) (tokens : list string) (opts : validateOptions) :
  let v := validateLoop config tokens opts in
  (map m_token (missing v)
   = List.filter (fun t => negb (counted config (allowEmpty opts) t)) tokens /\
   length (found v) + length (missing v) = length tokens /\
   valid v = negb (strictMode opts
                   && existsb (fun t => negb (counted config (allowEmpty opts) t))
                        tokens) /\
   errors v = (if strictMode opts then map requiredMessage (missing v) else []) /\
   warnings v
   = (if strictMode opts then [] else map missingMessage (missing v)) /\
   unused v = [] /\
   Forall (fun f => getNestedValue config (f_token f) = Ok (f_value f) /\
                    f_type f = type_of (f_value f)) (found v)) /\
  (warnOnUnused opts = false ->
   validateAgainstTokens config tokens opts = Ok v) /\
  (warnOnUnused opts = true -> unshadowed config = false ->
   validateAgainstTokens config tokens opts = Throw not_a_function) /\
  (warnOnUnused opts = true -> unshadowed config = true ->
   exists paths,
     getAllConfigPaths config "" = Ok paths /\
     let unusedValues :=
       List.filter (fun p => negb (includes tokens p)) paths in
     validateAgainstTokens config tokens opts
     = Ok {| valid := valid v; errors := errors v;
             warnings :=
               warnings v
               ++ match unusedValues with
                  | [] => []
                  | _ :: _ =>
                      ["Unused config values: " +:+ join ", " unusedValues]
                  end;
             missing := missing v; found := found v;
             unused := unusedValues |}).
Proof.
  intros v.
  destruct (validateLoop_spec config tokens opts) as (M & E & W & V & U & F).
  fold v in M, E, W, V, U, F.
  assert (Fv : map f_token (found v)
               = List.filter (counted config (allowEmpty opts)) tokens)
    by apply found_validateLoop.
  split; [|split; [|split]].
  - split; [now rewrite M, missingOf_tokens|].
    split.
    { rewrite <- (List.length_map f_token), <- (List.length_map m_token (missing v)).
      rewrite Fv, M, missingOf_tokens. apply filter_partition_length. }
    split.
    { rewrite V. destruct (strictMode opts); cbn [negb orb andb]; [|reflexivity].
      clear. induction tokens as [|t tokens IH]; [reflexivity|].
      cbn [forallb existsb]. rewrite IH.
      now destruct (counted config (allowEmpty opts) t), (existsb _ tokens). }
    now repeat split.
  - apply validateAgainstTokens_plain.
  - intros Wu S. pose proof (validateAgainstTokens_unused config tokens opts Wu) as H.
    cbn zeta in H. now rewrite S in H.
  - intros Wu S. pose proof (validateAgainstTokens_unused config tokens opts Wu) as H.
    cbn zeta in H. rewrite S in H. destruct H as (paths & G & H).
    exists paths. split; [exact G|]. cbn zeta. rewrite H. fold v.
    destruct (List.filter _ paths); [now rewrite app_nil_r | reflexivity].
Qed.

(** X9.  [findMissingTokens] lists, in their order, the tokens that do not
    resolve or resolve to the empty string; they are the tokens of the
    [missing] entries of a validation whose [allowEmpty] is off, whatever
    its other options, whenever that validation returns; it throws, where
    [findMissingTokens] does not, exactly when [warnOnUnused] is on and
    the flattening of the configuration meets an object with an own
    property [hasOwnProperty]. *)
Theorem findMissingTokens_is_the_missing_list {realm : Realm} (config : value)
    (tokens : list string) (strict warn : bool) :
  let opts := {| strictMode := strict; allowEmpty := false;
                 warnOnUnused := warn |} in
  findMissingTokens config tokens
  = List.filter (fun t => negb (counted config false t)) tokens /\
  (forall v, validateAgainstTokens config tokens opts = Ok v ->
     findMissingTokens config tokens = map m_token (missing v)) /\
  (negb warn || unshadowed config = true <->
   exists v, validateAgainstTokens config tokens opts = Ok v) /\
  (negb warn || unshadowed config = false <->
   validateAgainstTokens config tokens opts = Throw not_a_function).
Proof.
  intros opts.
  assert (E : findMissingTokens config tokens
              = List.filter (fun t => negb (counted config false t)) tokens)
    by (unfold findMissingTokens; now rewrite findMissing_fold).
  pose proof (validates_returns config tokens opts) as R.
  cbn [warnOnUnused opts] in R.
  split; [exact E|]. split; [|split].
  - intros v H. destruct (negb warn || unshadowed config).
    + destruct R as (v' & H' & _ & _ & M & _). rewrite H in H'.
      injection H' as <-. rewrite E, M, missing_validateLoop.
      symmetry. apply missingOf_tokens.
    + congruence.
  - destruct (negb warn || unshadowed config).
    + destruct R as (v & H & _). split; eauto.
    + split; [discriminate|]. intros [v H]. congruence.
  - destruct (negb warn || unshadowed config).
    + destruct R as (v & H & _). split; [discriminate | congruence].
    + split; auto.
Qed.

(** X10.  A configuration that is not an object or an array ([null],
    [undefined], a string, a number, a boolean) resolves no token: the
    validation returns, every token is reported missing with the reason
    [not found in config] and nothing is found.  Unless it is a string,
    whose indices are listed, none of its paths is unused. *)
Theorem non_object_config_resolves_nothing {realm : Realm} (config : value)
    (tokens : list string) (opts : validateOptions) :
  is_object config = false ->
  exists v,
    validateAgainstTokens config tokens opts = Ok v /\
    found v = [] /\
    missing v = map (fun t => {| m_token := t; m_reason := "not found in config" |})
                    tokens /\
    (forall token, resolves config token = false) /\
    (typeof config <> "string" -> unused v = []).
Proof.
  intros O.
  assert (C : forall t, counted config (allowEmpty opts) t = false).
  { intros t. unfold counted, resolves.
    now rewrite (non_object_getNestedValue _ _ O). }
  assert (S : unshadowed config = true) by (now destruct config).
  pose proof (validates_returns config tokens opts) as R.
  rewrite S, orb_true_r in R. destruct R as (v & H & _ & _ & M & F).
  exists v. split; [exact H|]. split; [|split; [|split]].
  - apply (map_eq_nil f_token). rewrite F, found_validateLoop.
    clear -C. induction tokens as [|t tokens IH]; simpl; [reflexivity|].
    now rewrite C.
  - rewrite M, missing_validateLoop.
    clear -O. induction tokens as [|t tokens IH]; [reflexivity|].
    unfold missingOf in *. cbn [flat_map map]. rewrite IH.
    unfold validateSingleToken. now rewrite (non_object_getNestedValue _ _ O).
  - intros token. unfold resolves.
    now rewrite (non_object_getNestedValue _ _ O).
  - intros T. revert H. unfold validateAgainstTokens, findUnusedConfigValues.
    destruct (warnOnUnused opts).
    + destruct config; try discriminate O; simpl;
        try (intros [= <-]; reflexivity). now destruct T.
    + intros [= <-]. apply validateLoop_spec.
Qed.

Lemma non_object_config_resolves_nothing_witness :
  exists v,
    validateAgainstTokens (realm := ES2023.realm) VNull ["a"; "b.c"]
      defaultValidateOptions = Ok v /\
    found v = [] /\
    missing v
    = map (fun t => {| m_token := t; m_reason := "not found in config" |})
          ["a"; "b.c"] /\
    (forall token, resolves (realm := ES2023.realm) VNull token = false) /\
    (typeof VNull <> "string" -> unused v = []).
Proof.
  apply (non_object_config_resolves_nothing (realm := ES2023.realm) VNull
           ["a"; "b.c"] defaultValidateOptions).
  reflexivity.
Defined.


(** ** The replacer under its policies *)

Section ReplacerPolicies.
Context {host : RegExpHost} {realm : Realm}.
Variable config : value.

Lemma replaceLoop_returns (opts : replaceOptions) (tokens : list string) :
  forallb compiles tokens = true ->
  forall state, exists text,
    replaceLoop config opts tokens state
    = Ok (text, snd state ++ warningsFor config tokens).
Proof.
  induction tokens as [|t tokens IH]; intros C [result warnings].
  - exists result. simpl. now rewrite app_nil_r.
  - simpl in C. apply andb_prop in C as [Ct C].
    destruct (compiles_Ok _ Ct) as [re R].
    rewrite replaceLoop_cons, (replaceStep_eq config opts t re) by exact R.
    cbn [mbind exc_bind].
    destruct (IH C (match replacementFor config opts t with
                    | Some text => String_replace result re text
                    | None => result
                    end, warnings ++ warningsFor config [t])) as [text E].
    exists text. rewrite E. cbn [snd].
    now rewrite (warningsFor_cons config t tokens), app_assoc.
Qed.

(** The warnings of a pass: one for each token that has no printable
    value, that of the [catch] when the token resolves and that of a
    missing token when it does not. *)
Lemma warningsFor_eq (tokens : list string) :
  warningsFor config tokens
  = map (fun t => if resolves config t
                  then causedErrorMessage t cannot_convert
                  else notFoundMessage t)
      (List.filter (fun t => negb (printable config t)) tokens).
Proof.
  induction tokens as [|t tokens IH]; [reflexivity|].
  rewrite (warningsFor_cons config t tokens), IH. cbn [List.filter].
  destruct (printable config t) eqn:P; cbn [negb].
  - now destruct (replacementFor_printable config defaultReplaceOptions t P)
      as [_ ->].
  - now destruct (replacementFor_other config defaultReplaceOptions t P)
      as [_ ->].
Qed.

Lemma replaceStep_printable_any (opts opts' : replaceOptions) (token : string)
    (state : string * list string) :
  printable config token = true ->
  replaceStep config opts state token = replaceStep config opts' state token.
Proof.
  intros P. destruct state as [result warnings].
  destruct (RegExp_g (tokenRegexSource token)) as [re|message] eqn:R.
  - now rewrite !(replaceStep_resolved config _ token re) by assumption.
  - unfold replaceStep. now rewrite R.
Qed.

Lemma replaceLoop_printable_any (opts opts' : replaceOptions)
    (tokens : list string) :
  forallb (printable config) tokens = true ->
  forall state,
    replaceLoop config opts tokens state = replaceLoop config opts' tokens state.
Proof.
  induction tokens as [|t tokens IH]; intros A state; [reflexivity|].
  simpl in A. apply andb_prop in A as [U A]. rewrite !replaceLoop_cons.
  rewrite (replaceStep_printable_any opts opts' t state U).
  destruct (replaceStep config opts' state t); [apply (IH A) | reflexivity].
Qed.

Lemma unprintable_none (tokens : list string) :
  forallb (printable config) tokens = true ->
  List.filter (fun t => negb (printable config t)) tokens = [].
Proof.
  induction tokens as [|t tokens IH]; [reflexivity|].
  simpl. intros A. apply andb_prop in A as [-> A]. now apply IH.
Qed.

(** A policy under which [handleMissingToken] asks for no replacement:
    ['fail'], and every string that is none of the three policies. *)
Lemma replaceLoop_keeps_markers (opts : replaceOptions) (tokens : list string) :
  String.eqb (errorHandling opts) "warn" = false ->
  String.eqb (errorHandling opts) "graceful" = false ->
  forallb compiles tokens = true ->
  forall result warnings warnings',
    textOf (replaceLoop config opts tokens (result, warnings))
    = textOf (replaceLoop config opts (List.filter (resolves config) tokens)
                (result, warnings')).
Proof.
  intros W G.
  assert (N : puts_placeholder opts = false)
    by (unfold puts_placeholder; now rewrite W, G).
  induction tokens as [|t tokens IH];
    intros C result warnings warnings'; [reflexivity|].
  simpl in C. apply andb_prop in C as [Ct C].
  destruct (compiles_Ok _ Ct) as [re R]. cbn [List.filter].
  rewrite replaceLoop_cons, (replaceStep_eq config opts t re) by exact R.
  cbn [mbind exc_bind].
  destruct (token_cases config t) as [(P & U & V)|[(P & U & V)|(P & U & V)]];
    rewrite V.
  - rewrite replaceLoop_cons, (replaceStep_eq config opts t re) by exact R.
    cbn [mbind exc_bind]. apply (IH C).
  - rewrite replaceLoop_cons, (replaceStep_eq config opts t re) by exact R.
    cbn [mbind exc_bind]. apply (IH C).
  - destruct (replacementFor_other config opts t P) as [-> _]. rewrite N.
    apply (IH C).
Qed.

(** X11.  Under every policy but ['fail'], and with tokens whose
    expressions the engine accepts, [replaceTokens] returns a text.  Under
    ['warn'] it prints one line for each token that has no printable value,
    in the order of the pass, the warning sign followed by [Token '<token>'
    not found in config] for a token that does not resolve, and by [Token
    '<token>' caused error: ] and the message of the [TypeError] for a
    token whose value [String] cannot convert; under any other policy but
    ['fail'] it prints nothing. *)
Theorem replaceTokens_warns_once_for_each_missing_token
    (content : string) (tokens : option (list string)) (opts : replaceOptions) :
  errorHandling opts <> "fail" ->
  forallb compiles (tokensOf content tokens) = true ->
  exists text,
    replaceTokens content config tokens opts
    = {| console :=
           if String.eqb (errorHandling opts) "warn"
           then map (fun t =>
                       warn_sign
                       +:+ (if resolves config t
                            then causedErrorMessage t cannot_convert
                            else notFoundMessage t))
                  (List.filter (fun t => negb (printable config t))
                               (tokensOf content tokens))
           else [];
         returned := Ok text |}.
Proof.
  intros F C. apply String.eqb_neq in F.
  destruct (replaceLoop_returns opts _ C (content, [])) as [text E].
  exists text. unfold replaceTokens. fold (tokensOf content tokens).
  rewrite E. cbn [snd app]. rewrite F, warningsFor_eq.
  destruct (List.filter _ (tokensOf content tokens)) as [|t ts].
  - simpl. now destruct (String.eqb (errorHandling opts) "warn").
  - cbn [map]. destruct (String.eqb (errorHandling opts) "warn");
      [|reflexivity].
    now rewrite map_map.
Qed.

(** X12.  When every token resolves to a value [String] converts, the
    policy, the placeholder and the other options play no part:
    [replaceTokens] gives the same outcome under any two sets of options,
    and prints nothing. *)
Theorem replaceTokens_ignores_options_when_all_resolve
    (content : string) (tokens : option (list string))
    (opts opts' : replaceOptions) :
  forallb (printable config) (tokensOf content tokens) = true ->
  replaceTokens content config tokens opts
  = replaceTokens content config tokens opts' /\
  console (replaceTokens content config tokens opts) = [].
Proof.
  intros A. unfold replaceTokens. fold (tokensOf content tokens).
  rewrite (replaceLoop_printable_any opts opts' _ A).
  destruct (replaceLoop config opts' (tokensOf content tokens) (content, []))
    as [[result warnings]|message] eqn:E; [|now split].
  apply replaceLoop_warnings in E. simpl in E.
  rewrite warningsFor_eq, (unprintable_none _ A) in E. subst warnings.
  now split.
Qed.

(** X13.  A policy that is none of ['fail'], ['warn'] and ['graceful'] is
    accepted: with tokens whose expressions the engine accepts,
    [replaceTokens] prints nothing, does not throw, and returns the text
    in which the resolved tokens are replaced and the markers of the
    others are left as they are. *)
Theorem unknown_policy_leaves_missing_markers
    (content : string) (tokens : option (list string)) (opts : replaceOptions) :
  errorHandling opts <> "fail" -> errorHandling opts <> "warn" ->
  errorHandling opts <> "graceful" ->
  forallb compiles (tokensOf content tokens) = true ->
  exists text,
    replaceTokens content config tokens opts
    = {| console := []; returned := Ok text |} /\
    replaceTokens content config
      (Some (List.filter (resolves config) (tokensOf content tokens))) opts
    = {| console := []; returned := Ok text |}.
Proof.
  intros F W G C.
  apply String.eqb_neq in F. apply String.eqb_neq in W.
  apply String.eqb_neq in G.
  pose proof (replaceLoop_keeps_markers opts _ W G C content [] []) as K.
  destruct (replaceLoop_returns opts _ C (content, [])) as [text E].
  exists text. unfold replaceTokens. fold (tokensOf content tokens).
  rewrite E in *. rewrite F, W. split.
  - now destruct (snd (content, []) ++ _).
  - destruct (replaceLoop config opts
                (List.filter (resolves config) (tokensOf content tokens))
                (content, [])) as [[text' warnings]|message];
      [|discriminate].
    simpl in K. injection K as <-. now destruct warnings.
Qed.
End ReplacerPolicies.

Lemma replaceTokens_warns_once_for_each_missing_token_witness :
  exists text,
    replaceTokens (host := Fragment.host) (realm := ES2023.realm)
      "{{a}} and {{b}} and {{c.d}}"
      (VObject [("b", VString "B");
                ("c", VObject [("d", VObject [("toString", VNull)])])])
      None defaultReplaceOptions
    = {| console :=
           [warn_sign +:+ "Token 'a' not found in config";
            warn_sign +:+ "Token 'c.d' caused error: "
            +:+ "Cannot convert object to primitive value"];
         returned := Ok text |}.
Proof.
  apply (replaceTokens_warns_once_for_each_missing_token
           (host := Fragment.host) (realm := ES2023.realm)
           (VObject [("b", VString "B");
                     ("c", VObject [("d", VObject [("toString", VNull)])])])
           "{{a}} and {{b}} and {{c.d}}" None defaultReplaceOptions).
  - discriminate.
  - reflexivity.
Defined.

Lemma replaceTokens_ignores_options_when_all_resolve_witness :
  replaceTokens (host := Fragment.host) (realm := ES2023.realm)
    "{{a}} and {{b}}"
    (VObject [("a", VString "A"); ("b", VString "B")]) None
    defaultReplaceOptions
  = replaceTokens (host := Fragment.host) (realm := ES2023.realm)
      "{{a}} and {{b}}"
      (VObject [("a", VString "A"); ("b", VString "B")]) None
      {| errorHandling := "fail"; missingTokenPlaceholder := "?";
         preserveUnknownTokens := true |} /\
  console (replaceTokens (host := Fragment.host) (realm := ES2023.realm)
             "{{a}} and {{b}}"
             (VObject [("a", VString "A"); ("b", VString "B")]) None
             defaultReplaceOptions) = [].
Proof.
  apply (replaceTokens_ignores_options_when_all_resolve
           (host := Fragment.host) (realm := ES2023.realm)
           (VObject [("a", VString "A"); ("b", VString "B")])
           "{{a}} and {{b}}" None defaultReplaceOptions
           {| errorHandling := "fail"; missingTokenPlaceholder := "?";
              preserveUnknownTokens := true |}).
  reflexivity.
Defined.

Lemma unknown_policy_leaves_missing_markers_witness :
  exists text,
    replaceTokens (host := Fragment.host) (realm := ES2023.realm)
      "{{a}} and {{b}}"
      (VObject [("b", VString "B")]) None
      {| errorHandling := "strict"; missingTokenPlaceholder := "[MISSING]";
         preserveUnknownTokens := false |}
    = {| console := []; returned := Ok text |} /\
    replaceTokens (host := Fragment.host) (realm := ES2023.realm)
      "{{a}} and {{b}}"
      (VObject [("b", VString "B")])
      (Some (List.filter (resolves (realm := ES2023.realm)
                            (VObject [("b", VString "B")]))
               (tokensOf "{{a}} and {{b}}" None)))
      {| errorHandling := "strict"; missingTokenPlaceholder := "[MISSING]";
         preserveUnknownTokens := false |}
    = {| console := []; returned := Ok text |}.
Proof.
  apply (unknown_policy_leaves_missing_markers (host := Fragment.host)
           (realm := ES2023.realm)
           (VObject [("b", VString "B")]) "{{a}} and {{b}}" None
           {| errorHandling := "strict"; missingTokenPlaceholder := "[MISSING]";
              preserveUnknownTokens := false |});
    [discriminate | discriminate | discriminate | reflexivity].
Defined.


(** ** The processor *)

Lemma forallb_impl {A : Type} (f g : A -> bool) (l : list A) :
  (forall x, f x = true -> g x = true) ->
  forallb f l = true -> forallb g l = true.
Proof.
  intros I. induction l as [|x l IH]; simpl; [reflexivity|].
  intros H. apply andb_prop in H as [Hx H]. now rewrite (I x Hx), IH.
Qed.

Lemma existsb_negb_forallb {A : Type} (f : A -> bool) (l : list A) :
  existsb (fun x => negb (f x)) l = negb (forallb f l).
Proof.
  induction l as [|x l IH]; simpl; [reflexivity|].
  rewrite IH. now destruct (f x).
Qed.

Lemma forallb_andb {A : Type} (f g : A -> bool) (l : list A) :
  forallb (fun x => f x && g x) l = forallb f l && forallb g l.
Proof.
  induction l as [|x l IH]; simpl; [reflexivity|].
  rewrite IH. destruct (f x), (g x), (forallb f l); reflexivity.
Qed.

Lemma mergeOptions_noOverride (options : processorOptions) :
  mergeOptions options noOverride = options.
Proof. now destruct options. Qed.

Section ProcessorFacts.
Context {host : RegExpHost} {realm : Realm}.
Variable path_resolve : string -> string.
Variable fs : gmap string file.
Variable options : processorOptions.
Variable config : value.

Lemma counted_resolves (allowEmpty : bool) (token : string) :
  counted config allowEmpty token = true -> resolves config token = true.
Proof. unfold counted. intros H. now apply andb_prop in H as [H _]. Qed.

(** The validation of the processor: it returns exactly when [validates]
    holds, and is then valid unless, in strict mode, a token is not
    counted. *)
Lemma validation_of_processor (tokens : list string) (opts : processorOptions) :
  let validated :=
    validateAgainstTokens config tokens
      {| strictMode := po_strictValidation opts;
         allowEmpty := po_allowEmptyValues opts;
         warnOnUnused := po_warnOnUnused opts |} in
  if validates config opts
  then exists validation,
         validated = Ok validation /\
         valid validation
         = negb (po_strictValidation opts)
           || forallb (counted config (po_allowEmptyValues opts)) tokens
  else validated = Throw not_a_function.
Proof.
  intros validated. unfold validates.
  pose proof (validates_returns config tokens
                {| strictMode := po_strictValidation opts;
                   allowEmpty := po_allowEmptyValues opts;
                   warnOnUnused := po_warnOnUnused opts |}) as R.
  cbn [warnOnUnused] in R.
  destruct (negb (po_warnOnUnused opts) || unshadowed config); [|exact R].
  destruct R as (validation & E & V & _). exists validation.
  split; [exact E|]. rewrite V.
  now destruct (validateLoop_spec config tokens
                  {| strictMode := po_strictValidation opts;
                     allowEmpty := po_allowEmptyValues opts;
                     warnOnUnused := po_warnOnUnused opts |})
    as (_ & _ & _ & -> & _).
Qed.

(** The outcome of [replaceTokens] on tokens whose expressions are
    accepted: it throws exactly under ['fail'] with a token that has no
    printable value. *)
Lemma replaceTokens_returned (content : string) (tokens : list string)
    (opts : replaceOptions) :
  forallb compiles tokens = true ->
  if String.eqb (errorHandling opts) "fail"
     && negb (forallb (printable config) tokens)
  then exists message,
         returned (replaceTokens content config (Some tokens) opts)
         = Throw message
  else exists text,
         returned (replaceTokens content config (Some tokens) opts) = Ok text.
Proof.
  intros C. destruct (replaceLoop_returns config opts _ C (content, []))
    as [text E].
  unfold replaceTokens. rewrite E. cbn [snd app]. rewrite warningsFor_eq.
  rewrite <- existsb_negb_forallb.
  destruct (existsb (fun t => negb (printable config t)) tokens) eqn:X.
  - apply existsb_exists in X as (t & I & U).
    destruct (List.filter _ tokens) as [|m ms] eqn:Fl.
    + assert (J : In t (List.filter (fun t => negb (printable config t)) tokens))
        by (apply filter_In; now split).
      rewrite Fl in J. destruct J.
    + cbn [map]. destruct (String.eqb (errorHandling opts) "fail"); cbn [andb].
      * eexists. reflexivity.
      * exists text. now destruct (String.eqb (errorHandling opts) "warn").
  - rewrite andb_false_r.
    assert (Fl : List.filter (fun t => negb (printable config t)) tokens = []).
    { apply unprintable_none. rewrite existsb_negb_forallb in X.
      now apply negb_false_iff in X. }
    rewrite Fl. exists text. reflexivity.
Qed.

Lemma forallb_passes (opts : processorOptions) (tokens : list string) :
  forallb (passes config opts) tokens
  = forallb (printable config) tokens
    && (negb (po_strictValidation opts)
        || forallb (counted config (po_allowEmptyValues opts)) tokens).
Proof.
  unfold passes. destruct (po_strictValidation opts); cbn [negb orb].
  - apply forallb_andb.
  - rewrite andb_true_r. induction tokens as [|t tokens IH]; simpl;
      [reflexivity|].
    now rewrite IH, andb_true_r.
Qed.

(** When a template is processed. *)
Lemma processTemplate_success (snapshot : string -> Z -> string)
    (templatePath : string) (po : processingOptions) (w : world) (f : file) :
  tracks snapshot fs -> coherent snapshot (cache w) ->
  fs !! path_resolve templatePath = Some f ->
  forallb compiles (extractTokens (content f)) = true ->
  exists r,
    fst (processTemplate path_resolve fs options templatePath config po w)
    = Ok r /\
    success r
    = validates config (mergeOptions options po)
      && (negb (String.eqb (po_errorHandling (mergeOptions options po)) "fail")
          || forallb (passes config (mergeOptions options po))
               (extractTokens (content f))) /\
    (success r = true -> processedAs templatePath config
                           (mergeOptions options po) (content f) r).
Proof.
  intros T Co F C. unfold processTemplate, readFileSync. rewrite F.
  set (opts := mergeOptions options po).
  assert (E : (if po_cacheTokens opts
               then getCachedTokens path_resolve fs templatePath (cache w)
               else (Ok (extractTokens (content f)), cache w))
              = (Ok (extractTokens (content f)),
                 snd (if po_cacheTokens opts
                      then getCachedTokens path_resolve fs templatePath (cache w)
                      else (Ok (extractTokens (content f)), cache w)))).
  { destruct (po_cacheTokens opts); [|reflexivity].
    destruct (getCachedTokens_coherent path_resolve snapshot fs templatePath
                (cache w) T Co) as [_ R].
    specialize (R f F).
    destruct (getCachedTokens path_resolve fs templatePath (cache w)).
    simpl in *. now rewrite R. }
  rewrite E. clear E. cbv zeta.
  rewrite forallb_passes. unfold processedAs. fold opts. cbv zeta.
  pose proof (validation_of_processor (extractTokens (content f)) opts) as V.
  cbv zeta in V.
  destruct (validates config opts).
  2:{ rewrite V. eexists. split; [reflexivity|]. split; [reflexivity|].
      discriminate. }
  destruct V as (validation & -> & V). rewrite V. cbn [andb].
  pose proof (replaceTokens_returned (content f) (extractTokens (content f))
                {| errorHandling := po_errorHandling opts;
                   missingTokenPlaceholder := po_missingTokenPlaceholder opts;
                   preserveUnknownTokens := false |} C) as R.
  cbn [errorHandling] in R.
  destruct (String.eqb (po_errorHandling opts) "fail") eqn:P;
    cbn [negb orb andb] in *.
  - destruct (negb (po_strictValidation opts)
              || forallb (counted config (po_allowEmptyValues opts))
                   (extractTokens (content f))) eqn:A; cbn [negb].
    + rewrite andb_true_r.
      destruct (forallb (printable config) (extractTokens (content f)));
        destruct R as [x R]; rewrite R; eexists;
        (split; [reflexivity|]); (split; [reflexivity|]);
        [intros _; exists validation, x; now repeat split | discriminate].
    + rewrite andb_false_r. eexists. split; [reflexivity|].
      split; [reflexivity|]. discriminate.
  - rewrite andb_false_r. destruct R as [text R]. rewrite R.
    eexists. split; [reflexivity|]. split; [reflexivity|].
    intros _. exists validation, text. now repeat split.
Qed.

(** X14.  For a template that can be read, whose tokens have expressions
    the engine accepts, under the discipline of time stamps:
    [processTemplate] returns a result, and this is a success exactly when
    the validation returns (unused values are not asked for, or no object
    of the configuration that the flattening visits has an own property
    [hasOwnProperty]) and, under the policy ['fail'], every token of the
    template resolves to a value [String] converts and, with strict
    validation, none resolves to the empty string unless empty values are
    allowed.  A success carries the text [replaceTokens] returns for the
    content of the file, this content, the tokens extracted from it and
    their validation. *)
Theorem processTemplate_succeeds_exactly_when (snapshot : string -> Z -> string)
    (templatePath : string) (po : processingOptions) (w : world) (f : file) :
  tracks snapshot fs -> coherent snapshot (cache w) ->
  fs !! path_resolve templatePath = Some f ->
  forallb compiles (extractTokens (content f)) = true ->
  exists r,
    fst (processTemplate path_resolve fs options templatePath config po w)
    = Ok r /\
    success r
    = validates config (mergeOptions options po)
      && (negb (String.eqb (po_errorHandling (mergeOptions options po)) "fail")
          || forallb (passes config (mergeOptions options po))
               (extractTokens (content f))) /\
    (success r = true -> processedAs templatePath config
                           (mergeOptions options po) (content f) r).
Proof.
  intros T Co F C.
  destruct (processTemplate_success snapshot templatePath po w f T Co F C)
    as (r & E & S & P).
  exists r. now repeat split.
Qed.

(** X15.  [previewProcessing] against [processTemplate] called with the
    same options, for a template that can be read and under the same
    conditions: a preview whose [wouldSucceed] is [false] is followed by a
    failure, and processing succeeds exactly when the preview says so
    and, under the policy ['fail'], every token resolves to a value
    [String] converts.  The preview says so exactly when the validation
    returns and, under ['fail'], is valid; without strict validation this
    is whenever the validation returns. *)
Theorem previewProcessing_against_processTemplate
    (snapshot : string -> Z -> string)
    (templatePath : string) (w : world) (f : file) :
  tracks snapshot fs -> coherent snapshot (cache w) ->
  fs !! path_resolve templatePath = Some f ->
  forallb compiles (extractTokens (content f)) = true ->
  exists r,
    fst (processTemplate path_resolve fs options templatePath config
           noOverride w) = Ok r /\
    let p := previewProcessing path_resolve fs options templatePath config in
    let fail := String.eqb (po_errorHandling options) "fail" in
    (wouldSucceed p = false -> success r = false) /\
    success r
    = wouldSucceed p
      && (negb fail
          || forallb (printable config) (extractTokens (content f))) /\
    wouldSucceed p
    = validates config options
      && (negb fail || negb (po_strictValidation options)
          || forallb (counted config (po_allowEmptyValues options))
               (extractTokens (content f))) /\
    (po_strictValidation options = false ->
     wouldSucceed p = validates config options).
Proof.
  intros T Co F C.
  destruct (processTemplate_success snapshot templatePath noOverride w f
              T Co F C) as (r & E & S & _).
  exists r. split; [exact E|]. rewrite mergeOptions_noOverride in S.
  rewrite forallb_passes in S.
  unfold previewProcessing, readFileSync. rewrite F. cbv zeta.
  pose proof (validation_of_processor (extractTokens (content f)) options) as V.
  cbv zeta in V. rewrite S. clear S.
  destruct (validates config options).
  - destruct V as (validation & -> & V). cbn [wouldSucceed]. rewrite V.
    destruct (po_strictValidation options),
      (String.eqb (po_errorHandling options) "fail"),
      (forallb (counted config (po_allowEmptyValues options))
         (extractTokens (content f))),
      (forallb (printable config) (extractTokens (content f)));
      cbn [negb orb andb]; repeat split; auto; discriminate.
  - rewrite V. cbn [wouldSucceed andb]. repeat split; auto.
Qed.
End ProcessorFacts.


Lemma processTemplate_succeeds_exactly_when_witness :
  exists r,
    fst (processTemplate (host := Fragment.host) (realm := ES2023.realm)
           (fun path => path)
           {["/t/a.html" := {| content := "Hi {{name}}"; mtime := 1 |}]}
           defaultProcessorOptions "/t/a.html"
           (VObject [("name", VString "Ada")]) noOverride
           {| cache := ∅; printed := [] |}) = Ok r /\
    success r
    = validates (VObject [("name", VString "Ada")])
        (mergeOptions defaultProcessorOptions noOverride)
      && (negb (String.eqb
                  (po_errorHandling
                     (mergeOptions defaultProcessorOptions noOverride))
                  "fail")
          || forallb (passes (realm := ES2023.realm)
                        (VObject [("name", VString "Ada")])
                        (mergeOptions defaultProcessorOptions noOverride))
               (extractTokens
                  (content {| content := "Hi {{name}}"; mtime := 1 |}))) /\
    (success r = true ->
     processedAs (host := Fragment.host) (realm := ES2023.realm) "/t/a.html"
       (VObject [("name", VString "Ada")])
       (mergeOptions defaultProcessorOptions noOverride)
       (content {| content := "Hi {{name}}"; mtime := 1 |}) r).
Proof.
  apply (processTemplate_succeeds_exactly_when (host := Fragment.host)
           (realm := ES2023.realm)
           (fun path => path)
           {["/t/a.html" := {| content := "Hi {{name}}"; mtime := 1 |}]}
           defaultProcessorOptions (VObject [("name", VString "Ada")])
           (fun _ _ => "Hi {{name}}") "/t/a.html" noOverride
           {| cache := ∅; printed := [] |}
           {| content := "Hi {{name}}"; mtime := 1 |}).
  - intros path f H. apply lookup_singleton_Some in H as [_ <-]. reflexivity.
  - intros path e H. simpl in H. rewrite lookup_empty in H. discriminate.
  - reflexivity.
  - reflexivity.
Defined.

Lemma previewProcessing_against_processTemplate_witness :
  exists r,
    fst (processTemplate (host := Fragment.host) (realm := ES2023.realm)
           (fun path => path)
           {["/t/a.html" := {| content := "Hi {{name}}"; mtime := 1 |}]}
           {| po_errorHandling := "fail"; po_missingTokenPlaceholder := "[MISSING]";
              po_strictValidation := true; po_allowEmptyValues := false;
              po_warnOnUnused := false; po_cacheTokens := true |}
           "/t/a.html" (VObject [("name", VObject [("toString", VNull)])])
           noOverride
           {| cache := ∅; printed := [] |}) = Ok r /\
    let p := previewProcessing (realm := ES2023.realm) (fun path => path)
               {["/t/a.html" := {| content := "Hi {{name}}"; mtime := 1 |}]}
               {| po_errorHandling := "fail";
                  po_missingTokenPlaceholder := "[MISSING]";
                  po_strictValidation := true; po_allowEmptyValues := false;
                  po_warnOnUnused := false; po_cacheTokens := true |}
               "/t/a.html" (VObject [("name", VObject [("toString", VNull)])]) in
    let fail := String.eqb "fail" "fail" in
    (wouldSucceed p = false -> success r = false) /\
    success r
    = wouldSucceed p
      && (negb fail
          || forallb (printable (realm := ES2023.realm)
                        (VObject [("name", VObject [("toString", VNull)])]))
               (extractTokens
                  (content {| content := "Hi {{name}}"; mtime := 1 |}))) /\
    wouldSucceed p
    = validates (VObject [("name", VObject [("toString", VNull)])])
        {| po_errorHandling := "fail";
           po_missingTokenPlaceholder := "[MISSING]";
           po_strictValidation := true; po_allowEmptyValues := false;
           po_warnOnUnused := false; po_cacheTokens := true |}
      && (negb fail || negb true
          || forallb (counted (realm := ES2023.realm)
                        (VObject [("name", VObject [("toString", VNull)])])
                        false)
               (extractTokens
                  (content {| content := "Hi {{name}}"; mtime := 1 |}))) /\
    (true = false ->
     wouldSucceed p
     = validates (VObject [("name", VObject [("toString", VNull)])])
         {| po_errorHandling := "fail";
            po_missingTokenPlaceholder := "[MISSING]";
            po_strictValidation := true; po_allowEmptyValues := false;
            po_warnOnUnused := false; po_cacheTokens := true |}).
Proof.
  apply (previewProcessing_against_processTemplate (host := Fragment.host)
           (realm := ES2023.realm)
           (fun path => path)
           {["/t/a.html" := {| content := "Hi {{name}}"; mtime := 1 |}]}
           {| po_errorHandling := "fail";
              po_missingTokenPlaceholder := "[MISSING]";
              po_strictValidation := true; po_allowEmptyValues := false;
              po_warnOnUnused := false; po_cacheTokens := true |}
           (VObject [("name", VObject [("toString", VNull)])])
           (fun _ _ => "Hi {{name}}") "/t/a.html"
           {| cache := ∅; printed := [] |}
           {| content := "Hi {{name}}"; mtime := 1 |}).
  - intros path f H. apply lookup_singleton_Some in H as [_ <-]. reflexivity.
  - intros path e H. simpl in H. rewrite lookup_empty in H. discriminate.
  - reflexivity.
  - reflexivity.
Defined.

(** ** The aggregates of the batch *)

Lemma set_add_list_NoDup (tokens : list string) :
  forall set, List.NoDup set -> List.NoDup (fold_left set_add tokens set).
Proof.
  induction tokens as [|t tokens IH]; intros set D; [exact D|].
  simpl. now apply IH, set_add_NoDup.
Qed.

Lemma flat_map_processed {A : Type} (get : processResult -> list A)
    (rs : list processResult) :
  (forall r, success r = false -> get r = []) ->
  flat_map get (List.filter success rs) = flat_map get rs.
Proof.
  intros H. induction rs as [|r rs IH]; [reflexivity|].
  simpl. destruct (success r) eqn:S; simpl; rewrite IH; [reflexivity|].
  now rewrite (H r S).
Qed.

Section AggregateFacts.
Context {host : RegExpHost} {realm : Realm}.
Variable path_resolve : string -> string.
Variable fs : gmap string file.
Variable options : processorOptions.
Variable config : value.
Variable po : processingOptions.

Lemma batchStep_aggregates (results : batchResult) (w : world)
    (templatePath : string) :
  let r := fst (attempt path_resolve fs options templatePath config po w) in
  let after := fst (batchStep path_resolve fs options config po (results, w)
                      templatePath) in
  aggregatedTokens after
    = fold_left set_add (foundTokens r) (aggregatedTokens results) /\
  aggregatedErrors after = aggregatedErrors results ++ validationErrors r /\
  aggregatedWarnings after = aggregatedWarnings results ++ validationWarnings r.
Proof.
  unfold batchStep, attempt.
  destruct (processTemplate _ _ _ _ _ _ _) as [[[]|message] w']; simpl;
    rewrite ?app_nil_r; repeat split.
Qed.

Lemma batch_aggregates (templatePaths : list string) :
  forall (results : batchResult) (w : world),
    let rs := attempts path_resolve fs options templatePaths config po w in
    let after := fst (fold_left (batchStep path_resolve fs options config po)
                        templatePaths (results, w)) in
    aggregatedTokens after
      = fold_left set_add (flat_map foundTokens rs) (aggregatedTokens results) /\
    aggregatedErrors after
      = aggregatedErrors results ++ flat_map validationErrors rs /\
    aggregatedWarnings after
      = aggregatedWarnings results ++ flat_map validationWarnings rs.
Proof.
  induction templatePaths as [|p rest IH]; intros results w.
  - simpl. rewrite !app_nil_r. repeat split.
  - cbn [fold_left attempts].
    destruct (batchStep_aggregates results w p) as (T & E & W).
    destruct (batchStep_attempt path_resolve fs options config po results w p)
      as (Ws & _).
    destruct (batchStep path_resolve fs options config po (results, w) p)
      as [results' w'].
    destruct (attempt path_resolve fs options p config po w) as [r w''].
    simpl in Ws. subst w''. cbn [fst] in *.
    destruct (IH results' w') as (T' & E' & W').
    cbv zeta in *. rewrite T', E', W', T, E, W. cbn [flat_map].
    rewrite fold_left_app, <- !app_assoc. repeat split.
Qed.

(** X16.  The aggregates of a batch come from the templates that were
    processed and from no other: [aggregatedTokens] holds, each once, the
    tokens found in them, and the aggregated errors and warnings are the
    validation errors and warnings of the processed templates, one
    template after the other. *)
Theorem batch_aggregates_the_processed_templates
    (templatePaths : list string) (w : world) :
  let batch := fst (processMultipleTemplates path_resolve fs options
                      templatePaths config po w) in
  List.NoDup (aggregatedTokens batch) /\
  (forall token,
     In token (aggregatedTokens batch) <->
     exists r, In r (processed batch) /\ In token (foundTokens r)) /\
  aggregatedErrors batch = flat_map validationErrors (processed batch) /\
  aggregatedWarnings batch = flat_map validationWarnings (processed batch).
Proof.
  intros batch. unfold processMultipleTemplates in batch.
  set (start := {| batchSuccess := true; processed := []; failed := [];
                   summary := {| total := length templatePaths; successful := 0;
                                 failedCount := 0 |};
                   aggregatedTokens := []; aggregatedErrors := [];
                   aggregatedWarnings := [] |}) in *.
  destruct (batch_aggregates templatePaths start w) as (T & E & W).
  destruct (batch_fold path_resolve fs options config po templatePaths start w)
    as (P & _).
  cbv zeta in *. fold batch in T, E, W, P. simpl in T, E, W, P.
  set (rs := attempts path_resolve fs options templatePaths config po w) in *.
  rewrite P, T, E, W.
  rewrite !flat_map_processed by (now intros []).
  split; [apply set_add_list_NoDup; constructor|].
  split; [|now split].
  intros token. rewrite set_add_list_In, in_flat_map. split.
  - intros [[]|(r & I & H)]. exists r. split; [|exact H].
    apply filter_In. split; [exact I|]. now destruct r.
  - intros (r & I & H). right. exists r. split; [|exact H].
    now apply filter_In in I as [I _].
Qed.
End AggregateFacts.


(** ** Paths of a configuration, listed and resolved *)

Lemma well_keyed_object (props : list (string * value)) :
  well_keyed (VObject props) = true ->
  unique (map fst props) = true /\
  Forall (fun kv => plain_key (fst kv) = true /\ well_keyed (snd kv) = true)
         props.
Proof.
  cbn [well_keyed]. intros H. apply andb_prop in H as [U E]. split; [exact U|].
  clear U. induction props as [|[k x] props IH]; constructor.
  - apply andb_prop in E as [E _]. now apply andb_prop in E.
  - apply IH. now apply andb_prop in E as [_ E].
Qed.

Lemma own_property_unique (props : list (string * value)) (key : string)
    (v : value) :
  unique (map fst props) = true -> In (key, v) props ->
  own_property props key = Some v.
Proof.
  induction props as [|[k x] props IH]; intros U I; [destruct I|].
  cbn [map fst unique] in U. apply andb_prop in U as [N U].
  cbn [own_property]. destruct I as [[= -> ->]|I].
  - now rewrite String.eqb_refl.
  - destruct (String.eqb k key) eqn:E; [|now apply IH].
    apply String.eqb_eq in E. subst k. apply negb_true_iff in N.
    assert (J : In key (map fst props)) by (apply in_map_iff; now exists (key, v)).
    apply includes_In in J. congruence.
Qed.

Lemma split_dot_plain (key rest : string) :
  includes_dot key = false ->
  split_dot (key +:+ "." +:+ rest) = key :: split_dot rest.
Proof.
  induction key as [|c key IH]; intros H.
  - reflexivity.
  - simpl in H. apply orb_false_iff in H as [Hc H].
    rewrite append_cons. cbn [split_dot]. rewrite Hc, (IH H). reflexivity.
Qed.

Lemma split_dot_join (segments : list string) :
  segments <> [] ->
  Forall (fun key => plain_key key = true) segments ->
  split_dot (join "." segments) = segments.
Proof.
  induction segments as [|k rest IH]; intros N F; [contradiction|].
  inversion F as [|? ? Pk Fr]; subst.
  unfold plain_key in Pk. apply andb_prop in Pk as [_ D].
  apply negb_true_iff in D.
  destruct rest as [|k' rest].
  - simpl. now apply split_dot_single.
  - change (join "." (k :: k' :: rest))
      with (k +:+ "." +:+ join "." (k' :: rest)).
    rewrite (split_dot_plain _ _ D), IH; [reflexivity | discriminate | exact Fr].
Qed.

(** A leaf of a well-keyed object is reached through its keys. *)
Lemma leaf_at_reaches (v : value) (segments : list string) :
  leaf_at v segments ->
  isNestedObject v = true -> well_keyed v = true ->
  exists x,
    reaches v segments x /\ isNestedObject x = false /\
    segments <> [] /\ Forall (fun key => plain_key key = true) segments.
Proof.
  induction 1 as [props key v I L|props key v rest I N L IH|
                  elems i v Nth L|elems i v rest Nth N L IH|s i Lt];
    intros O W;
    try (apply isNestedObject_inv in O as [? O]; discriminate O).
  - apply well_keyed_object in W as [U F].
    rewrite List.Forall_forall in F. destruct (F _ I) as [Pk _].
    exists v. split; [|split; [exact L | split; [discriminate|]]].
    + econstructor; [|constructor]. cbn [member].
      now apply own_property_unique.
    + now repeat constructor.
  - apply well_keyed_object in W as [U F].
    rewrite List.Forall_forall in F. destruct (F _ I) as [Pk Wv].
    destruct (IH N Wv) as (x & R & Lx & _ & Fr).
    exists x. split; [|split; [exact Lx | split; [discriminate|]]].
    + econstructor; [|exact R]. cbn [member].
      now apply own_property_unique.
    + now constructor.
Qed.

(** X17.  In an object whose keys, at every level, are not empty, hold no
    dot and differ from one another, [getAllConfigPaths] returns unless an
    object it visits has an own property [hasOwnProperty], and every path
    it lists resolves: [getNestedValue] returns for it the value found by
    going down the keys of the path, and this value is a leaf, that is, no
    nested object. *)
Theorem listed_paths_resolve_to_their_leaves {realm : Realm}
    (config : value) (path : string) :
  isNestedObject config = true -> well_keyed config = true ->
  (if unshadowed config
   then exists paths, getAllConfigPaths config "" = Ok paths
   else getAllConfigPaths config "" = Throw not_a_function) /\
  forall paths,
    getAllConfigPaths config "" = Ok paths -> In path paths ->
    exists segments leaf,
      path = join "." segments /\
      reaches config segments leaf /\
      isNestedObject leaf = false /\
      getNestedValue config path = Ok (Data leaf).
Proof.
  intros O W. pose proof (getAllConfigPaths_leaves config "") as G. split.
  - destruct (unshadowed config); [|exact G].
    destruct G as (paths & G & _). now exists paths.
  - intros paths E I. destruct (unshadowed config);
      [|rewrite E in G; discriminate G].
    destruct G as (paths' & G & L). rewrite E in G. injection G as <-.
    apply L in I as (segments & L' & ->).
    destruct (leaf_at_reaches _ _ L' O W) as (leaf & R & Lf & N & F).
    assert (J : currentPath "" segments = join "." segments).
    { rewrite currentPath_dotted.
      destruct segments as [|k rest]; [contradiction|].
      inversion F as [|? ? Pk _]; subst.
      unfold plain_key in Pk. apply andb_prop in Pk as [Pk _].
      apply negb_true_iff, String.eqb_neq in Pk.
      destruct k; [congruence | reflexivity]. }
    exists segments, leaf. rewrite J. repeat split; try assumption.
    rewrite getNestedValue_descend, (split_dot_join _ N F).
    now apply descend_reaches.
Qed.

Lemma listed_paths_resolve_to_their_leaves_witness :
  exists segments leaf,
    "payment.amount" = join "." segments /\
    reaches (VObject [("client_name", VString "Ada");
                      ("payment", VObject [("amount", VString "$1,500");
                                           ("terms", VNull)])])
      segments leaf /\
    isNestedObject leaf = false /\
    getNestedValue (realm := ES2023.realm)
      (VObject [("client_name", VString "Ada");
                ("payment", VObject [("amount", VString "$1,500");
                                     ("terms", VNull)])])
      "payment.amount" = Ok (Data leaf).
Proof.
  destruct (listed_paths_resolve_to_their_leaves (realm := ES2023.realm)
              (VObject [("client_name", VString "Ada");
                        ("payment", VObject [("amount", VString "$1,500");
                                             ("terms", VNull)])])
              "payment.amount") as [_ H].
  - reflexivity.
  - reflexivity.
  - apply (H ["client_name"; "payment.amount"; "payment.terms"]).
    + reflexivity.
    + simpl. auto.
Defined.


(** ** The configuration system *)

Lemma own_property_set_property (props : list (string * value))
    (key key' : string) (v : value) :
  own_property (set_property props key v) key'
  = if String.eqb key key' then Some v else own_property props key'.
Proof.
  induction props as [|[k x] props IH]; cbn [set_property own_property].
  - now destruct (String.eqb key key').
  - destruct (String.eqb k key) eqn:K; cbn [own_property].
    + apply String.eqb_eq in K. subst k.
      now destruct (String.eqb key key').
    + rewrite IH. destruct (String.eqb k key') eqn:K'; [|reflexivity].
      apply String.eqb_eq in K'. subst k.
      rewrite String.eqb_sym in K. now rewrite K.
Qed.

Lemma blank_false (what : string) (v : value) :
  blank what v = Ok false -> exists s, v = VString s /\ trim s <> "".
Proof.
  unfold blank. destruct (truthy v); [|discriminate]. cbn [negb].
  destruct v as [| |b|n|s|elems|props]; try discriminate.
  cbn. destruct (String.eqb_spec (trim s) ""); [discriminate|]. eauto.
Qed.

Lemma app_singleton_not_nil {A : Type} (l : list A) (x : A) : l ++ [x] <> [].
Proof. now destruct l. Qed.


Section ConfigFacts.
Variable today : string.

(** What an empty list of errors says about the configuration. *)
Lemma validateConfig_nil (config : value) :
  validateConfig config = Ok [] ->
  exists name payment amount description provider,
    get_prop config "client_name" = Ok (VString name) /\ trim name <> "" /\
    get_prop config "payment" = Ok payment /\ truthy payment = true /\
    get_prop payment "amount" = Ok (VString amount) /\ trim amount <> "" /\
    get_prop payment "description" = Ok (VString description) /\
    trim description <> "" /\
    get_prop payment "provider" = Ok (VString provider) /\
    trim provider <> "".
Proof.
  unfold validateConfig.
  destruct (get_prop config "client_name") as [client_name|] eqn:Gn;
    [|discriminate]. cbn [mbind exc_bind].
  destruct (blank "config.client_name" client_name) as [[|]|] eqn:Bn;
    cbn [mbind exc_bind]; [| |discriminate];
    (destruct (get_prop config "payment") as [payment|] eqn:Gp;
     [|discriminate]); cbn [mbind exc_bind];
    (destruct (truthy payment) eqn:Tp; cbn [negb];
     [|intros H; cbn [app] in H; discriminate H]);
    (destruct (get_prop payment "amount") as [amount|] eqn:Ga;
     [|discriminate]); cbn [mbind exc_bind];
    (destruct (blank "config.payment.amount" amount) as [[|]|] eqn:Ba;
     [| |discriminate]); cbn [mbind exc_bind];
    (destruct (get_prop payment "description") as [description|] eqn:Gd;
     [|discriminate]); cbn [mbind exc_bind];
    (destruct (blank "config.payment.description" description)
       as [[|]|] eqn:Bd; [| |discriminate]); cbn [mbind exc_bind];
    (destruct (get_prop payment "provider") as [provider|] eqn:Gv;
     [|discriminate]); cbn [mbind exc_bind];
    (destruct (blank "config.payment.provider" provider)
       as [[|]|] eqn:Bv; [| |discriminate]); cbn [mbind exc_bind];
    intros H; cbn [app] in H; try discriminate H.
  apply blank_false in Bn as (name & -> & Nn).
  apply blank_false in Ba as (a & -> & Na).
  apply blank_false in Bd as (d & -> & Nd).
  apply blank_false in Bv as (v & -> & Nv).
  exists name, payment, a, d, v. repeat split; assumption.
Qed.

(** What [applyDefaults] returns: the properties of the argument, with
    the date set when there was none, and a payment of three fields. *)
Lemma applyDefaults_shape (rawConfig config : value) :
  applyDefaults today rawConfig = Ok config ->
  exists result amount description provider,
    config = VObject (set_property result "payment"
                        (VObject [("amount", amount);
                                  ("description", description);
                                  ("provider", provider)])) /\
    dated today rawConfig result.
Proof.
  unfold applyDefaults.
  destruct (blank "result.date" (read (spread rawConfig) "date"))
    as [noDate|] eqn:B; [|discriminate]. cbn [mbind exc_bind].
  set (result := if noDate then _ else _).
  assert (R : dated today rawConfig result).
  { subst result. destruct noDate; [now right|]. left. split; [reflexivity|].
    apply blank_false in B as (date & E & N). exists date.
    unfold read in E.
    destruct (own_property (spread rawConfig) "date"); [|discriminate].
    subst. auto. }
  clearbody result.
  destruct (truthy (read result "payment")); cbn [negb].
  - destruct (get_prop (read result "payment") "amount"); [|discriminate].
    cbn [mbind exc_bind].
    destruct (get_prop (read result "payment") "description"); [|discriminate].
    cbn [mbind exc_bind].
    destruct (get_prop (read result "payment") "provider"); [|discriminate].
    cbn [mbind exc_bind]. intros [= <-]. eauto 10.
  - intros [= <-]. eauto 10.
Qed.

Lemma processConfig_shape (rawConfig config : value) :
  processConfig today rawConfig = Ok config ->
  exists result name amount description provider,
    config = VObject (set_property result "payment"
                        (VObject [("amount", VString amount);
                                  ("description", VString description);
                                  ("provider", VString provider)])) /\
    dated today rawConfig result /\
    own_property (spread rawConfig) "client_name" = Some (VString name) /\
    trim name <> "" /\ trim amount <> "" /\ trim description <> "" /\
    trim provider <> "".
Proof.
  unfold processConfig.
  destruct (applyDefaults today rawConfig) as [configWithDefaults|] eqn:A;
    [|discriminate]. cbn [mbind exc_bind].
  destruct (validateConfig configWithDefaults) as [[|e errors]|] eqn:V;
    [|discriminate|discriminate]. cbn [mbind exc_bind]. intros [= <-].
  apply applyDefaults_shape in A as (result & a & d & v & -> & R).
  apply validateConfig_nil in V
    as (name & payment & amount & description & provider
        & Gn & Nn & Gp & _ & Ga & Na & Gd & Nd & Gv & Nv).
  cbn [get_prop] in Gn, Gp.
  rewrite own_property_set_property in Gn, Gp. cbn in Gn, Gp.
  injection Gp as <-. cbn in Ga, Gd, Gv.
  injection Ga as ->. injection Gd as ->. injection Gv as ->.
  exists result, name, amount, description, provider.
  repeat split; try assumption.
  destruct (own_property result "client_name") as [x|] eqn:O;
    [|discriminate]. injection Gn as ->.
  destruct R as [[-> _]| ->]; [exact O|].
  rewrite own_property_set_property in O. exact O.
Qed.

(** X18.  A configuration [processConfig] returns is complete: its client
    name and the amount, the description and the provider of its payment
    are strings that are not blank, the payment holding these three fields;
    its date is the one given, if that is a string that is not blank, and
    the date of the day otherwise.  Every other property is the one of
    the raw configuration. *)
Theorem processConfig_returns_a_complete_config (rawConfig config : value) :
  processConfig today rawConfig = Ok config ->
  exists result name amount description provider,
    config = VObject result /\
    own_property result "client_name" = Some (VString name) /\
    trim name <> "" /\
    own_property result "payment"
    = Some (VObject [("amount", VString amount);
                     ("description", VString description);
                     ("provider", VString provider)]) /\
    trim amount <> "" /\ trim description <> "" /\ trim provider <> "" /\
    (own_property result "date" = Some (VString today) \/
     exists date, own_property result "date" = Some (VString date) /\
                  own_property (spread rawConfig) "date" = Some (VString date) /\
                  trim date <> "") /\
    (forall key, key <> "date" -> key <> "payment" ->
       own_property result key = own_property (spread rawConfig) key).
Proof.
  intros H. pose proof H as S.
  apply processConfig_shape in S
    as (result & name & amount & description & provider
        & -> & R & Gn & Nn & Na & Nd & Nv).
  eexists. exists name, amount, description, provider.
  split; [reflexivity|].
  assert (K : forall key, key <> "date" -> key <> "payment" ->
            own_property
              (set_property result "payment"
                 (VObject [("amount", VString amount);
                           ("description", VString description);
                           ("provider", VString provider)])) key
            = own_property (spread rawConfig) key).
  { intros key Kd Kp. rewrite own_property_set_property.
    destruct (String.eqb_spec "payment" key); [congruence|].
    destruct R as [[-> _]| ->]; [reflexivity|].
    rewrite own_property_set_property.
    destruct (String.eqb_spec "date" key); [congruence | reflexivity]. }
  split; [rewrite K by discriminate; exact Gn|].
  split; [exact Nn|].
  split; [now rewrite own_property_set_property|].
  repeat (split; [assumption|]).
  split; [|exact K].
  rewrite own_property_set_property. cbn [String.eqb Ascii.eqb Bool.eqb].
  destruct R as [[-> (date & D & N)]| ->].
  - right. exists date. auto.
  - left. now rewrite own_property_set_property.
Qed.

(** X19.  [processConfig] keeps three fields of the payment and no other:
    in the configuration it returns, a path [payment.<key>] with a key
    other than [amount], [description] and [provider], such as
    [payment.link], resolves to what a plain object inherits under the
    key, whatever the raw configuration held there: to nothing for a key
    like [link], under which nothing is inherited, and to a member of
    [Object.prototype] for a key like [toString]. *)
Theorem processConfig_drops_other_payment_fields {realm : Realm}
    (rawConfig config : value) (key : string) :
  processConfig today rawConfig = Ok config ->
  key <> "amount" -> key <> "description" -> key <> "provider" ->
  includes_dot key = false ->
  getNestedValue config ("payment." +:+ key)
  = Ok (inherited ObjectPrototype key) /\
  resolves config ("payment." +:+ key) = defined (inherited ObjectPrototype key) /\
  (not_inherited key = true ->
   getNestedValue config ("payment." +:+ key) = Ok (Data VUndefined) /\
   resolves config ("payment." +:+ key) = false) /\
  (holds_method ObjectPrototype key = true -> key <> "__proto__" ->
   getNestedValue config ("payment." +:+ key)
   = Ok (Method ObjectPrototype key) /\
   resolves config ("payment." +:+ key) = true).
Proof.
  intros H Ka Kd Kv D.
  apply processConfig_shape in H
    as (result & name & amount & description & provider & -> & _).
  assert (G : getNestedValue
                (VObject (set_property result "payment"
                   (VObject [("amount", VString amount);
                             ("description", VString description);
                             ("provider", VString provider)])))
                ("payment." +:+ key) = Ok (inherited ObjectPrototype key)).
  { rewrite getNestedValue_descend.
    change ("payment." +:+ key) with ("payment" +:+ "." +:+ key).
    rewrite split_dot_plain by reflexivity. rewrite (split_dot_single _ D).
    apply String.eqb_neq in Ka, Kd, Kv.
    rewrite String.eqb_sym in Ka, Kd, Kv.
    apply (descend_stuck ["payment"] _
             (VObject [("amount", VString amount);
                       ("description", VString description);
                       ("provider", VString provider)]) key []).
    - econstructor; [|constructor]. cbn [member].
      now rewrite own_property_set_property, String.eqb_refl.
    - cbn [member own_property]. now rewrite Ka, Kd, Kv. }
  split; [exact G|]. unfold resolves. rewrite G. split; [reflexivity|]. split.
  - intros N. now rewrite (inherited_nothing _ _ N).
  - intros M P. apply String.eqb_neq in P.
    unfold inherited, from_prototype. now rewrite P, M.
Qed.
End ConfigFacts.


Lemma processConfig_returns_a_complete_config_witness :
  exists result name amount description provider,
    VObject [("client_name", VString "Ada");
             ("payment", VObject [("amount", VString "Pay $5");
                                  ("description", VString "Deposit to Start");
                                  ("provider", VString "Bonsai")]);
             ("date", VString "June 6, 2025")]
    = VObject result /\
    own_property result "client_name" = Some (VString name) /\
    trim name <> "" /\
    own_property result "payment"
    = Some (VObject [("amount", VString amount);
                     ("description", VString description);
                     ("provider", VString provider)]) /\
    trim amount <> "" /\ trim description <> "" /\ trim provider <> "" /\
    (own_property result "date" = Some (VString "June 6, 2025") \/
     exists date,
       own_property result "date" = Some (VString date) /\
       own_property
         (spread (VObject [("client_name", VString "Ada");
                           ("payment",
                            VObject [("amount", VString "Pay $5");
                                     ("link", VString "https://pay")])]))
         "date" = Some (VString date) /\
       trim date <> "") /\
    (forall key, key <> "date" -> key <> "payment" ->
       own_property result key
       = own_property
           (spread (VObject [("client_name", VString "Ada");
                             ("payment",
                              VObject [("amount", VString "Pay $5");
                                       ("link", VString "https://pay")])]))
           key).
Proof.
  apply (processConfig_returns_a_complete_config "June 6, 2025"
           (VObject [("client_name", VString "Ada");
                     ("payment", VObject [("amount", VString "Pay $5");
                                          ("link", VString "https://pay")])])).
  reflexivity.
Defined.

Lemma processConfig_drops_other_payment_fields_witness :
  getNestedValue (realm := ES2023.realm)
    (VObject [("client_name", VString "Ada");
              ("payment", VObject [("amount", VString "Pay $5");
                                   ("description", VString "Deposit to Start");
                                   ("provider", VString "Bonsai")]);
              ("date", VString "June 6, 2025")])
    ("payment." +:+ "link") = Ok (Data VUndefined) /\
  resolves (realm := ES2023.realm)
    (VObject [("client_name", VString "Ada");
              ("payment", VObject [("amount", VString "Pay $5");
                                   ("description", VString "Deposit to Start");
                                   ("provider", VString "Bonsai")]);
              ("date", VString "June 6, 2025")])
    ("payment." +:+ "link") = false.
Proof.
  destruct (processConfig_drops_other_payment_fields "June 6, 2025"
              (realm := ES2023.realm)
              (VObject [("client_name", VString "Ada");
                        ("payment", VObject [("amount", VString "Pay $5");
                                             ("link", VString "https://pay")])])
              (VObject [("client_name", VString "Ada");
                        ("payment",
                         VObject [("amount", VString "Pay $5");
                                  ("description", VString "Deposit to Start");
                                  ("provider", VString "Bonsai")]);
                        ("date", VString "June 6, 2025")])
              "link") as (_ & _ & H & _);
    [reflexivity | discriminate | discriminate | discriminate | reflexivity |].
  apply H. reflexivity.
Defined.


(** ** The client slug *)

Lemma slug_class_split (c : ascii) :
  in_slug_class c = is_alnum c || is_space c || is_hyphen c.
Proof. reflexivity. Qed.

Lemma slug_char_split (c : ascii) : is_slug_char c = is_alnum c || is_hyphen c.
Proof. reflexivity. Qed.

Ltac compare_codes :=
  repeat match goal with
         | H : context [(?a <=? ?b)%nat] |- _ => destruct (Nat.leb_spec a b)
         | |- context [(?a <=? ?b)%nat] => destruct (Nat.leb_spec a b)
         | H : context [(?a =? ?b)%nat] |- _ => destruct (Nat.eqb_spec a b)
         | |- context [(?a =? ?b)%nat] => destruct (Nat.eqb_spec a b)
         end;
  cbn [andb orb negb] in *; try reflexivity; try discriminate; try lia.

Lemma alnum_not_space (c : ascii) : is_alnum c = true -> is_space c = false.
Proof.
  unfold is_alnum, is_space. cbv zeta. generalize (nat_of_ascii c).
  intros n H. compare_codes.
Qed.

Lemma alnum_not_hyphen (c : ascii) : is_alnum c = true -> is_hyphen c = false.
Proof.
  intros H. unfold is_hyphen. apply Ascii.eqb_neq. intros ->.
  vm_compute in H. discriminate.
Qed.

Lemma hyphen_not_space (c : ascii) : is_hyphen c = true -> is_space c = false.
Proof. unfold is_hyphen. intros H. apply Ascii.eqb_eq in H. now subst. Qed.

Lemma slug_char_not_space (c : ascii) :
  is_slug_char c = true -> is_space c = false.
Proof.
  rewrite slug_char_split. intros H. apply orb_prop in H as [H|H];
    [now apply alnum_not_space | now apply hyphen_not_space].
Qed.

Lemma to_lower_alnum (c : ascii) : is_alnum c = true -> to_lower c = c.
Proof.
  unfold is_alnum, to_lower. cbv zeta. generalize (nat_of_ascii c) as n.
  intros n H. compare_codes.
Qed.

Lemma to_lower_slug_char (c : ascii) : is_slug_char c = true -> to_lower c = c.
Proof.
  rewrite slug_char_split. intros H. apply orb_prop in H as [H|H];
    [now apply to_lower_alnum|].
  unfold is_hyphen in H. apply Ascii.eqb_eq in H. now subst.
Qed.

Lemma remove_outside_all (keep : ascii -> bool) (s : string) :
  all_chars keep (remove_outside keep s) = true.
Proof.
  induction s as [|c r IH]; [reflexivity|]. cbn [remove_outside].
  destruct (keep c) eqn:K; [|exact IH]. cbn [all_chars]. now rewrite K.
Qed.

Lemma replace_spaces_slug (s : string) :
  all_chars in_slug_class s = true ->
  forall b, all_chars is_slug_char (replace_runs is_space "-" b s) = true.
Proof.
  induction s as [|c r IH]; intros H b; [reflexivity|].
  cbn [all_chars] in H. apply andb_prop in H as [Hc H].
  cbn [replace_runs]. destruct (is_space c) eqn:S.
  - destruct b; [now apply IH|]. cbn [all_chars]. now rewrite IH.
  - cbn [all_chars]. rewrite (IH H).
    rewrite slug_class_split, S, orb_false_r in Hc.
    now rewrite slug_char_split, Hc.
Qed.

Lemma replace_hyphens_slug (s : string) :
  all_chars is_slug_char s = true ->
  forall b, all_chars is_slug_char (replace_runs is_hyphen "-" b s) = true.
Proof.
  induction s as [|c r IH]; intros H b; [reflexivity|].
  cbn [all_chars] in H. apply andb_prop in H as [Hc H].
  cbn [replace_runs]. destruct (is_hyphen c) eqn:S.
  - destruct b; [now apply IH|]. cbn [all_chars]. now rewrite IH.
  - cbn [all_chars]. now rewrite Hc, IH.
Qed.

Lemma replace_hyphens_single (s : string) :
  forall b,
    has_double_hyphen (replace_runs is_hyphen "-" b s) = false /\
    (b = true ->
     starts_with_hyphen (replace_runs is_hyphen "-" b s) = false).
Proof.
  induction s as [|c r IH]; intros b; [now split|].
  cbn [replace_runs]. destruct (is_hyphen c) eqn:S.
  - destruct b.
    + apply IH.
    + destruct (IH true) as [D St]. split; [|discriminate].
      cbn [has_double_hyphen]. now rewrite D, (St eq_refl), andb_false_r.
  - destruct (IH false) as [D _]. cbn [has_double_hyphen starts_with_hyphen].
    now rewrite S, D.
Qed.

Lemma remove_last_hyphen_cons (c d : ascii) (r : string) :
  remove_last_hyphen (String c (String d r))
  = String c (remove_last_hyphen (String d r)).
Proof. reflexivity. Qed.

Lemma ends_with_hyphen_cons (c d : ascii) (r : string) :
  ends_with_hyphen (String c (String d r)) = ends_with_hyphen (String d r).
Proof. reflexivity. Qed.

Lemma remove_last_hyphen_empty (s : string) :
  remove_last_hyphen s = "" -> s = "" \/ exists c, s = String c "" /\ is_hyphen c = true.
Proof.
  destruct s as [|c [|d r]]; [now left | |discriminate].
  cbn [remove_last_hyphen]. destruct (is_hyphen c) eqn:H; [|discriminate].
  right. eauto.
Qed.

Lemma remove_last_hyphen_all (P : ascii -> bool) (s : string) :
  all_chars P s = true -> all_chars P (remove_last_hyphen s) = true.
Proof.
  induction s as [|c r IH]; intros A; [reflexivity|].
  destruct r as [|d r].
  - cbn [remove_last_hyphen]. now destruct (is_hyphen c).
  - rewrite remove_last_hyphen_cons. cbn [all_chars] in A |- *.
    apply andb_prop in A as [-> A]. now apply IH.
Qed.

Lemma remove_last_hyphen_starts (s : string) :
  starts_with_hyphen s = false ->
  starts_with_hyphen (remove_last_hyphen s) = false.
Proof.
  destruct s as [|c [|d r]]; intros S; [reflexivity| |exact S].
  cbn [remove_last_hyphen]. cbn in S. now rewrite S.
Qed.

Lemma remove_last_hyphen_double (s : string) :
  has_double_hyphen s = false ->
  has_double_hyphen (remove_last_hyphen s) = false.
Proof.
  induction s as [|c r IH]; intros D; [reflexivity|].
  destruct r as [|d r].
  - cbn [remove_last_hyphen]. now destruct (is_hyphen c).
  - rewrite remove_last_hyphen_cons.
    cbn [has_double_hyphen] in D. apply orb_false_iff in D as [E D].
    cbn [has_double_hyphen]. rewrite (IH D), orb_false_r.
    destruct (is_hyphen c); [|reflexivity]. cbn [andb] in E |- *.
    now apply remove_last_hyphen_starts.
Qed.

Lemma remove_last_hyphen_ends (s : string) :
  has_double_hyphen s = false ->
  ends_with_hyphen (remove_last_hyphen s) = false.
Proof.
  induction s as [|c r IH]; intros D; [reflexivity|].
  destruct r as [|d r].
  - cbn [remove_last_hyphen]. destruct (is_hyphen c) eqn:H; [reflexivity|].
    cbn. exact H.
  - rewrite remove_last_hyphen_cons.
    cbn [has_double_hyphen] in D. apply orb_false_iff in D as [E D].
    specialize (IH D).
    destruct (remove_last_hyphen (String d r)) as [|x y] eqn:R.
    + apply remove_last_hyphen_empty in R as [R|(e & R & H)];
        [discriminate|]. injection R as -> ->.
      cbn [starts_with_hyphen] in E. rewrite H, andb_true_r in E.
      cbn. exact E.
    + rewrite ends_with_hyphen_cons. exact IH.
Qed.

Lemma remove_last_hyphen_id (s : string) :
  ends_with_hyphen s = false -> remove_last_hyphen s = s.
Proof.
  induction s as [|c r IH]; intros E; [reflexivity|].
  destruct r as [|d r].
  - cbn in E |- *. now rewrite E.
  - rewrite remove_last_hyphen_cons, IH; [reflexivity | exact E].
Qed.

Lemma remove_edge_hyphens_shape (s : string) :
  all_chars is_slug_char s = true -> has_double_hyphen s = false ->
  slug_shaped (remove_edge_hyphens s) = true.
Proof.
  intros A D. unfold slug_shaped.
  destruct s as [|c r]; [reflexivity|]. cbn [remove_edge_hyphens].
  destruct (is_hyphen c) eqn:H.
  - cbn [all_chars] in A. apply andb_prop in A as [_ A].
    cbn [has_double_hyphen] in D. rewrite H in D. cbn [andb] in D.
    apply orb_false_iff in D as [S D].
    now rewrite (remove_last_hyphen_all _ _ A), (remove_last_hyphen_double _ D),
      (remove_last_hyphen_starts _ S), (remove_last_hyphen_ends _ D).
  - assert (S : starts_with_hyphen (String c r) = false) by exact H.
    now rewrite (remove_last_hyphen_all _ _ A), (remove_last_hyphen_double _ D),
      (remove_last_hyphen_starts _ S), (remove_last_hyphen_ends _ D).
Qed.

Lemma toLowerCase_slug (s : string) :
  all_chars is_slug_char s = true -> toLowerCase s = s.
Proof.
  induction s as [|c r IH]; intros A; [reflexivity|].
  cbn [all_chars] in A. apply andb_prop in A as [Ac A].
  cbn [toLowerCase]. now rewrite (to_lower_slug_char _ Ac), IH.
Qed.

Lemma remove_outside_slug (s : string) :
  all_chars is_slug_char s = true -> remove_outside in_slug_class s = s.
Proof.
  induction s as [|c r IH]; intros A; [reflexivity|].
  cbn [all_chars] in A. apply andb_prop in A as [Ac A].
  cbn [remove_outside]. rewrite (IH A).
  rewrite slug_char_split in Ac. rewrite slug_class_split.
  apply orb_prop in Ac as [-> | ->]; [reflexivity | now rewrite orb_true_r].
Qed.

Lemma replace_spaces_none (s : string) :
  all_chars is_slug_char s = true ->
  forall b, replace_runs is_space "-" b s = s.
Proof.
  induction s as [|c r IH]; intros A b; [reflexivity|].
  cbn [all_chars] in A. apply andb_prop in A as [Ac A].
  cbn [replace_runs]. now rewrite (slug_char_not_space _ Ac), IH.
Qed.

Lemma replace_hyphens_none (s : string) :
  has_double_hyphen s = false ->
  forall b, (b = true -> starts_with_hyphen s = false) ->
    replace_runs is_hyphen "-" b s = s.
Proof.
  induction s as [|c r IH]; intros D b S; [reflexivity|].
  cbn [has_double_hyphen] in D. apply orb_false_iff in D as [E D].
  cbn [replace_runs]. destruct (is_hyphen c) eqn:H.
  - cbn [andb] in E. destruct b; [now specialize (S eq_refl); cbn in S; congruence|].
    rewrite (IH D true (fun _ => E)).
    unfold is_hyphen in H. apply Ascii.eqb_eq in H. now subst.
  - now rewrite (IH D false) by discriminate.
Qed.

Lemma generateClientSlug_shaped (clientName : string) :
  slug_shaped (generateClientSlug clientName) = true.
Proof.
  unfold generateClientSlug. apply remove_edge_hyphens_shape.
  - apply replace_hyphens_slug, replace_spaces_slug, remove_outside_all.
  - apply replace_hyphens_single.
Qed.

Lemma slug_shaped_fixed (name : string) :
  slug_shaped name = true -> generateClientSlug name = name.
Proof.
  intros H. unfold slug_shaped in H.
  apply andb_prop in H as [H E]. apply andb_prop in H as [H St].
  apply andb_prop in H as [A D].
  apply negb_true_iff in E, St, D.
  unfold generateClientSlug.
  rewrite (toLowerCase_slug _ A), (remove_outside_slug _ A),
    (replace_spaces_none _ A), (replace_hyphens_none _ D) by discriminate.
  unfold remove_edge_hyphens. destruct name as [|c r]; [reflexivity|].
  cbn [starts_with_hyphen] in St. rewrite St.
  now apply remove_last_hyphen_id.
Qed.

(** X20.  The slug [generateClientSlug] makes of a client name is written
    with lower-case letters, digits and hyphens, has no two hyphens in a
    row and no hyphen at either end; a string of this shape is its own
    slug, so that making the slug of a slug changes nothing. *)
Theorem generateClientSlug_is_a_directory_name (clientName : string) :
  slug_shaped (generateClientSlug clientName) = true /\
  (slug_shaped clientName = true -> generateClientSlug clientName = clientName) /\
  generateClientSlug (generateClientSlug clientName)
  = generateClientSlug clientName.
Proof.
  split; [apply generateClientSlug_shaped|].
  split; [apply slug_shaped_fixed|].
  apply slug_shaped_fixed, generateClientSlug_shaped.
Qed.

Lemma some_alnum_lower (s : string) :
  some_char is_alnum (remove_outside in_slug_class (toLowerCase s))
  = some_char (fun c => is_alnum (to_lower c)) s.
Proof.
  induction s as [|c r IH]; [reflexivity|].
  cbn [toLowerCase remove_outside some_char]. rewrite <- IH.
  rewrite slug_class_split.
  destruct (is_alnum (to_lower c)) eqn:A; cbn [orb some_char].
  - now rewrite A.
  - destruct (is_space (to_lower c) || is_hyphen (to_lower c));
      cbn [some_char]; now rewrite ?A.
Qed.

Lemma some_alnum_replace_runs (C : ascii -> bool) (s : string) :
  (forall c, is_alnum c = true -> C c = false) ->
  forall b,
    some_char is_alnum (replace_runs C "-" b s) = some_char is_alnum s.
Proof.
  intros N. induction s as [|c r IH]; intros b; [reflexivity|].
  cbn [replace_runs some_char]. destruct (C c) eqn:Cc.
  - assert (A : is_alnum c = false).
    { destruct (is_alnum c) eqn:A; [|reflexivity].
      rewrite (N c A) in Cc. discriminate. }
    rewrite A. destruct b; cbn [some_char orb]; apply IH.
  - cbn [some_char]. now rewrite IH.
Qed.

Lemma some_alnum_remove_last (s : string) :
  some_char is_alnum (remove_last_hyphen s) = some_char is_alnum s.
Proof.
  induction s as [|c r IH]; [reflexivity|].
  destruct r as [|d r].
  - cbn [remove_last_hyphen]. destruct (is_hyphen c) eqn:H; [|reflexivity].
    cbn [some_char]. destruct (is_alnum c) eqn:A; [|reflexivity].
    rewrite (alnum_not_hyphen _ A) in H. discriminate.
  - rewrite remove_last_hyphen_cons. cbn [some_char] in IH |- *.
    now rewrite IH.
Qed.

Lemma some_alnum_remove_edges (s : string) :
  some_char is_alnum (remove_edge_hyphens s) = some_char is_alnum s.
Proof.
  destruct s as [|c r]; [reflexivity|]. cbn [remove_edge_hyphens].
  destruct (is_hyphen c) eqn:H; rewrite some_alnum_remove_last;
    [|reflexivity].
  cbn [some_char]. destruct (is_alnum c) eqn:A; [|reflexivity].
  rewrite (alnum_not_hyphen _ A) in H. discriminate.
Qed.

(** X21.  The slug is empty exactly for the names without a letter from
    [a] to [z], in either case, and without a digit; every other name has
    a slug that is not empty. *)
Theorem generateClientSlug_empty_without_letters_and_digits
    (clientName : string) :
  generateClientSlug clientName = ""
  <-> some_char (fun c => is_alnum (to_lower c)) clientName = false.
Proof.
  assert (E : some_char is_alnum (generateClientSlug clientName)
              = some_char (fun c => is_alnum (to_lower c)) clientName).
  { unfold generateClientSlug.
    rewrite some_alnum_remove_edges,
      (some_alnum_replace_runs _ _ alnum_not_hyphen),
      (some_alnum_replace_runs _ _ alnum_not_space).
    apply some_alnum_lower. }
  rewrite <- E. split; [now intros ->|].
  intros N. pose proof (generateClientSlug_shaped clientName) as S.
  unfold slug_shaped in S.
  apply andb_prop in S as [S _]. apply andb_prop in S as [S St].
  apply andb_prop in S as [A _]. apply negb_true_iff in St.
  destruct (generateClientSlug clientName) as [|c r]; [reflexivity|].
  cbn [all_chars] in A. apply andb_prop in A as [Ac _].
  cbn [some_char] in N. apply orb_false_iff in N as [Nc _].
  cbn [starts_with_hyphen] in St.
  rewrite slug_char_split, Nc, St in Ac. discriminate.
Qed.


(** ** The path of a configuration file *)

Lemma startsWith_empty (s : string) : startsWith s "" = true.
Proof. now destruct s. Qed.

Lemma startsWith_refl (s : string) : startsWith s s = true.
Proof.
  induction s as [|c r IH]; [reflexivity|].
  cbn [startsWith]. now rewrite Ascii.eqb_refl, IH.
Qed.

Lemma endsWith_includes (s suffix : string) :
  endsWith s suffix = true -> includes_string s suffix = true.
Proof.
  induction s as [|c r IH]; cbn [endsWith includes_string]; intros H;
    apply orb_prop in H as [H|H].
  - apply String.eqb_eq in H. subst. reflexivity.
  - discriminate.
  - apply String.eqb_eq in H. subst. now rewrite startsWith_refl.
  - now rewrite (IH H), orb_true_r.
Qed.

(** X22.  [resolveConfigPath] leaves an input with a slash or with
    [.json] in it as it is and turns every other input into
    [configs/<input>.json]: its test for an input that ends in [.json]
    never succeeds where it stands.  A resolved path is left as it is
    when resolved again. *)
Theorem resolveConfigPath_resolves_once (input : string) :
  resolveConfigPath input
  = (if includes_string input "/" || includes_string input ".json"
     then input else "configs/" +:+ input +:+ ".json") /\
  resolveConfigPath (resolveConfigPath input) = resolveConfigPath input.
Proof.
  assert (E : resolveConfigPath input
              = if includes_string input "/" || includes_string input ".json"
                then input else "configs/" +:+ input +:+ ".json").
  { unfold resolveConfigPath.
    destruct (includes_string input "/" || includes_string input ".json")
      eqn:I; [reflexivity|].
    apply orb_false_iff in I as [_ J].
    destruct (endsWith input ".json") eqn:W; [|reflexivity].
    apply endsWith_includes in W. congruence. }
  split; [exact E|]. rewrite E.
  destruct (includes_string input "/" || includes_string input ".json") eqn:I.
  - unfold resolveConfigPath. now rewrite I.
  - unfold resolveConfigPath at 1.
    change ("configs/" +:+ input +:+ ".json")
      with (String "c" (String "o" (String "n" (String "f" (String "i"
             (String "g" (String "s" (String "/" (input +:+ ".json"))))))))).
    set (rest := input +:+ ".json").
    cbn [includes_string startsWith Ascii.eqb Bool.eqb andb orb].
    now rewrite startsWith_empty.
Qed.


(** ** Replacement on a template of texts and markers *)

Lemma match_here_once (a : Fragment.atom) (p : list Fragment.item)
    (fl : bool) (c : ascii) (r : string) :
  Fragment.match_here (Fragment.Atom a Fragment.Once :: p) fl (String c r)
  = if Fragment.atom_matches a c then S <$> Fragment.match_here p false r
    else None.
Proof. reflexivity. Qed.

Lemma match_here_once_empty (a : Fragment.atom) (p : list Fragment.item)
    (fl : bool) :
  Fragment.match_here (Fragment.Atom a Fragment.Once :: p) fl "" = None.
Proof. reflexivity. Qed.

Lemma match_here_star (a : Fragment.atom) (p : list Fragment.item)
    (fl : bool) (c : ascii) (r : string) :
  Fragment.match_here (Fragment.Atom a Fragment.Star :: p) fl (String c r)
  = if Fragment.atom_matches a c then
      match Fragment.match_here (Fragment.Atom a Fragment.Star :: p) false r with
      | Some n => Some (S n)
      | None => Fragment.match_here p fl (String c r)
      end
    else Fragment.match_here p fl (String c r).
Proof. reflexivity. Qed.

Lemma match_here_star_empty (a : Fragment.atom) (p : list Fragment.item)
    (fl : bool) :
  Fragment.match_here (Fragment.Atom a Fragment.Star :: p) fl ""
  = Fragment.match_here p fl "".
Proof. reflexivity. Qed.

(** *** Characters *)

Lemma name_char_facts (c : ascii) :
  is_name_char c = true ->
  is_ordinary c = true /\ Ascii.eqb c "^" = false /\ Ascii.eqb c "$" = false /\
  Ascii.eqb c "}" = false /\ is_space c = false.
Proof.
  unfold is_name_char. intros H.
  apply andb_prop in H as [H S]. apply andb_prop in H as [H B].
  apply andb_prop in H as [H D]. apply andb_prop in H as [O C].
  apply negb_true_iff in S, B, D, C. auto.
Qed.

Lemma name_char_not_open (c : ascii) :
  is_name_char c = true -> Ascii.eqb c "{" = false.
Proof.
  intros H. apply name_char_facts in H as (O & _).
  destruct (Ascii.eqb_spec c "{") as [->|]; [discriminate O | reflexivity].
Qed.

Lemma space_not_open (c : ascii) : is_space c = true -> Ascii.eqb c "{" = false.
Proof.
  intros H. destruct (Ascii.eqb_spec c "{") as [->|]; [discriminate H | reflexivity].
Qed.

Lemma space_not_close (c : ascii) : is_space c = true -> Ascii.eqb c "}" = false.
Proof.
  intros H. destruct (Ascii.eqb_spec c "}") as [->|]; [discriminate H | reflexivity].
Qed.

Lemma space_not_line_start (c : ascii) :
  is_line_terminator c = true -> is_space c = true.
Proof.
  unfold is_line_terminator, is_space. cbv zeta.
  generalize (nat_of_ascii c). intros n H. compare_codes.
Qed.

(** The item of a name character: the character itself, or any character
    for a dot. *)
Lemma item_of_name_char (c : ascii) :
  is_name_char c = true ->
  item_of c = Fragment.Atom (if Ascii.eqb c "." then Fragment.Any
                             else Fragment.Lit c) Fragment.Once.
Proof.
  intros H. apply name_char_facts in H as (_ & C & D & _).
  unfold item_of. rewrite C, D. now destruct (Ascii.eqb c ".").
Qed.

Lemma name_char_matches (c c' : ascii) :
  is_name_char c' = true ->
  Fragment.atom_matches (if Ascii.eqb c "." then Fragment.Any
                         else Fragment.Lit c) c'
  = Ascii.eqb c "." || Ascii.eqb c c'.
Proof.
  intros H. apply name_char_facts in H as (_ & _ & _ & _ & S).
  destruct (Ascii.eqb c "."); cbn [Fragment.atom_matches orb]; [|reflexivity].
  destruct (is_line_terminator c') eqn:L; [|reflexivity].
  apply space_not_line_start in L. congruence.
Qed.

Lemma all_name_chars_ordinary (t : string) :
  all_chars is_name_char t = true -> all_ordinary t = true.
Proof.
  induction t as [|c r IH]; [reflexivity|]. cbn [all_chars all_ordinary].
  intros H. apply andb_prop in H as [Hc H].
  apply name_char_facts in Hc as (-> & _). now apply IH.
Qed.

Lemma name_shaped_facts (t : string) :
  name_shaped t = true ->
  exists c r, t = String c r /\ Ascii.eqb c "." = false /\
              all_chars is_name_char t = true /\ dots_ok t = true.
Proof.
  destruct t as [|c r]; [discriminate|]. cbn [name_shaped]. intros H.
  apply andb_prop in H as [H D]. apply andb_prop in H as [N A].
  apply negb_true_iff in N. eauto 6.
Qed.


(** *** The expression of a name *)

Lemma expression_compiled (t : string) :
  all_chars is_name_char t = true ->
  RegExp_g (RegExpHost := Fragment.host) (tokenRegexSource t)
  = Ok (expression t).
Proof.
  intros H. apply all_name_chars_ordinary in H.
  unfold tokenRegexSource. cbn [RegExp_g Fragment.host].
  rewrite (escapeRegex_ordinary _ H).
  change ("\{\{\s*" +:+ t +:+ "\s*\}\}")
    with (String "\" (String "{" (String "\" (String "{" (String "\"
            (String "s" (String "*" (t +:+ "\s*\}\}")))))))).
  cbn [Fragment.parse Ascii.eqb Bool.eqb Fragment.is_syntax_character existsb
       list_ascii_of_string orb Fragment.quantify mbind exc_bind].
  rewrite (parse_ordinary _ _ _ H).
  cbn [Fragment.parse Ascii.eqb Bool.eqb Fragment.is_syntax_character existsb
       list_ascii_of_string orb Fragment.quantify mbind exc_bind
       Fragment.is_structure_character Fragment.begins_braced_quantifier].
  unfold expression, closing. cbn [rev app].
  rewrite !rev_app_distr, rev_involutive. cbn [rev app].
  now rewrite <- !app_assoc.
Qed.


Lemma length_append (a b : string) :
  String.length (a +:+ b) = String.length a + String.length b.
Proof.
  induction a as [|x a IH]; [reflexivity|].
  rewrite append_cons. cbn [String.length]. now rewrite IH.
Qed.

(** *** One attempt of the expression at a marker *)

Lemma closing_on_braces (b rest : string) :
  all_chars is_space b = true ->
  Fragment.match_here closing false (b +:+ ("}}" +:+ rest))
  = Some (String.length b + 2).
Proof.
  induction b as [|c b IH]; intros H.
  - reflexivity.
  - cbn [all_chars] in H. apply andb_prop in H as [Hc H].
    rewrite append_cons. unfold closing. rewrite match_here_star.
    cbn [Fragment.atom_matches]. rewrite Hc.
    fold closing. now rewrite (IH H).
Qed.

Lemma closing_on_name_char (c : ascii) (r : string) :
  is_name_char c = true ->
  Fragment.match_here closing false (String c r) = None.
Proof.
  intros H. apply name_char_facts in H as (_ & _ & _ & B & S).
  unfold closing. rewrite match_here_star. cbn [Fragment.atom_matches].
  rewrite S, match_here_once. cbn [Fragment.atom_matches].
  now rewrite Ascii.eqb_sym, B.
Qed.

Lemma two_stops (b rest : string) :
  all_chars is_space b = true ->
  exists x y Z, b +:+ ("}}" +:+ rest) = String x (String y Z) /\
                is_stop x = true /\ is_stop y = true.
Proof.
  unfold is_stop. destruct b as [|x [|y b]]; cbn [all_chars]; intros H.
  - exists "}"%char, "}"%char, rest. now repeat split.
  - apply andb_prop in H as [Hx _]. exists x, "}"%char, (String "}" rest).
    rewrite Hx. now repeat split.
  - apply andb_prop in H as [Hx H]. apply andb_prop in H as [Hy _].
    exists x, y, (b +:+ ("}}" +:+ rest)). rewrite Hx, Hy. now repeat split.
Qed.

Lemma name_char_not_stop (c x : ascii) :
  is_name_char c = true -> is_stop x = true -> Ascii.eqb c x = false.
Proof.
  intros H S. apply name_char_facts in H as (_ & _ & _ & B & Sp).
  destruct (Ascii.eqb_spec c x) as [->|]; [|reflexivity].
  unfold is_stop in S. rewrite Sp, B in S. discriminate.
Qed.

(** After the name of a marker the characters of another name find
    nothing to match. *)
Lemma name_on_stops (c : ascii) (r : string) (x y : ascii) (Z : string) :
  all_chars is_name_char (String c r) = true ->
  dots_ok (String c r) = true ->
  is_stop x = true -> is_stop y = true ->
  Fragment.match_here
    (map item_of (list_ascii_of_string (String c r)) ++ closing) false
    (String x (String y Z)) = None.
Proof.
  intros A D Sx Sy. cbn [all_chars] in A. apply andb_prop in A as [Ac A].
  cbn [list_ascii_of_string map app].
  rewrite (item_of_name_char _ Ac), match_here_once.
  destruct (Ascii.eqb c ".") eqn:Dot; cbn [Fragment.atom_matches].
  - destruct (negb (is_line_terminator x)); [|reflexivity].
    cbn [dots_ok] in D. rewrite Dot in D. cbn [negb orb] in D.
    destruct r as [|d r]; [discriminate D|].
    apply andb_prop in D as [Dd _]. apply negb_true_iff in Dd.
    cbn [all_chars] in A. apply andb_prop in A as [Ad _].
    cbn [list_ascii_of_string map app].
    rewrite (item_of_name_char _ Ad), match_here_once, Dd.
    cbn [Fragment.atom_matches]. now rewrite (name_char_not_stop _ _ Ad Sy).
  - now rewrite (name_char_not_stop _ _ Ac Sx).
Qed.

Lemma dots_ok_tail (c : ascii) (r : string) :
  dots_ok (String c r) = true -> dots_ok r = true.
Proof. cbn [dots_ok]. intros H. now apply andb_prop in H as [_ H]. Qed.

(** The characters of a token against the name of a marker. *)
Lemma names_match (u : string) :
  forall (name b rest : string),
    all_chars is_name_char u = true -> dots_ok u = true ->
    all_chars is_name_char name = true -> all_chars is_space b = true ->
    Fragment.match_here (map item_of (list_ascii_of_string u) ++ closing) false
      (name +:+ (b +:+ ("}}" +:+ rest)))
    = if matches_name u name
      then Some (String.length name + (String.length b + 2)) else None.
Proof.
  induction u as [|c r IH]; intros name b rest A D N B.
  - cbn [list_ascii_of_string map app]. destruct name as [|c' r'].
    + now apply closing_on_braces.
    + cbn [all_chars] in N. apply andb_prop in N as [Nc _].
      rewrite append_cons. now apply closing_on_name_char.
  - destruct name as [|c' r'].
    + cbn [matches_name].
      destruct (two_stops b rest B) as (x & y & Z & E & Sx & Sy).
      change ("" +:+ b +:+ "}}" +:+ rest) with (b +:+ ("}}" +:+ rest)).
      rewrite E. now apply name_on_stops.
    + pose proof A as A'. cbn [all_chars] in A, N.
      apply andb_prop in A as [Ac A]. apply andb_prop in N as [Nc N].
      rewrite append_cons. cbn [list_ascii_of_string map app matches_name].
      rewrite (item_of_name_char _ Ac), match_here_once,
        (name_char_matches _ _ Nc).
      destruct (Ascii.eqb c "." || Ascii.eqb c c'); cbn [andb]; [|reflexivity].
      rewrite (IH r' b rest A (dots_ok_tail _ _ D) N B).
      now destruct (matches_name r r').
Qed.

(** The blanks before the name are all taken by [\s*]. *)
Lemma blanks_then_name (p : list Fragment.item) (c : ascii) (b X : string) :
  is_space c = false ->
  (forall fl x r, is_space x = true ->
     Fragment.match_here p fl (String x r) = None) ->
  all_chars is_space b = true ->
  Fragment.match_here (Fragment.Atom Fragment.Space Fragment.Star :: p) false
    (b +:+ String c X)
  = match Fragment.match_here p false (String c X) with
    | Some n => Some (String.length b + n)
    | None => None
    end.
Proof.
  intros Sc Np. induction b as [|x b IH]; intros B.
  - change ("" +:+ String c X) with (String c X).
    rewrite match_here_star. cbn [Fragment.atom_matches]. rewrite Sc.
    now destruct (Fragment.match_here p false (String c X)).
  - cbn [all_chars] in B. apply andb_prop in B as [Bx B].
    rewrite append_cons, match_here_star. cbn [Fragment.atom_matches].
    rewrite Bx, (IH B).
    destruct (Fragment.match_here p false (String c X)); [reflexivity|].
    now apply Np.
Qed.

Lemma name_items_need_no_blank (c : ascii) (r : string) :
  is_name_char c = true -> Ascii.eqb c "." = false ->
  forall fl x s, is_space x = true ->
    Fragment.match_here
      (map item_of (list_ascii_of_string (String c r)) ++ closing) fl
      (String x s) = None.
Proof.
  intros Hc Dot fl x s Sx. cbn [list_ascii_of_string map app].
  rewrite (item_of_name_char _ Hc), match_here_once, Dot.
  cbn [Fragment.atom_matches].
  apply name_char_facts in Hc as (_ & _ & _ & _ & Sc).
  destruct (Ascii.eqb_spec c x) as [->|]; [congruence | reflexivity].
Qed.

(** The expression of [t] at the marker of [name]: it matches the whole
    marker when [t] matches the name, and nothing otherwise. *)
Lemma expression_on_marker (t before name after rest : string) (fl : bool) :
  name_shaped t = true ->
  well_formed_piece (Marker before name after) = true ->
  Fragment.match_here (expression t) fl
    (print_piece (Marker before name after) +:+ rest)
  = if matches_name t name
    then Some (String.length (print_piece (Marker before name after)))
    else None.
Proof.
  intros T W. cbn [well_formed_piece] in W.
  apply andb_prop in W as [W Wa]. apply andb_prop in W as [Wb Wn].
  apply name_shaped_facts in T as (c & r & -> & Dot & A & D).
  apply name_shaped_facts in Wn as (c' & r' & -> & _ & N & _).
  pose proof A as A'. cbn [all_chars] in A'. apply andb_prop in A' as [Ac _].
  pose proof N as N'. cbn [all_chars] in N'. apply andb_prop in N' as [Nc _].
  apply name_char_facts in Nc as (_ & _ & _ & _ & Sc').
  cbn [print_piece]. rewrite !append_assoc.
  change ("{{" +:+ (before +:+ (String c' r' +:+ (after +:+ ("}}" +:+ rest)))))
    with (String "{" (String "{"
            (before +:+ String c' (r' +:+ (after +:+ ("}}" +:+ rest)))))).
  unfold expression. cbn [app].
  rewrite !match_here_once. cbn [Fragment.atom_matches Ascii.eqb Bool.eqb].
  rewrite (blanks_then_name _ c' before _ Sc'
             (name_items_need_no_blank c r Ac Dot) Wb).
  change (String c' (r' +:+ (after +:+ ("}}" +:+ rest))))
    with (String c' r' +:+ (after +:+ ("}}" +:+ rest))).
  rewrite (names_match (String c r) (String c' r') after rest A D N Wa).
  destruct (matches_name (String c r) (String c' r')); [|reflexivity].
  cbn [fmap option_fmap option_map]. f_equal.
  change ("{{" +:+ (before +:+ (String c' r' +:+ (after +:+ "}}"))))
    with (String "{" (String "{"
            (before +:+ (String c' r' +:+ (after +:+ "}}"))))).
  cbn [String.length].
  rewrite !length_append. cbn [String.length]. lia.
Qed.


(** *** One pass of replacement over the pieces *)

Lemma expand_plain (replacement matched before after : string) :
  dollar_plain replacement = true ->
  Fragment.expand replacement matched before after = replacement.
Proof.
  induction replacement as [|c r IH]; intros H; [reflexivity|].
  cbn [dollar_plain] in H. apply andb_prop in H as [Hc H].
  specialize (IH H). cbn [Fragment.expand].
  destruct (Ascii.eqb c "$"); [|now rewrite IH].
  cbn [negb orb] in Hc. destruct r as [|d r]; [reflexivity|].
  apply negb_true_iff in Hc. rewrite !orb_false_iff in Hc.
  destruct Hc as [[[-> ->] ->] ->]. now rewrite IH.
Qed.

Lemma expression_needs_brace (t : string) (fl : bool) (c : ascii) (r : string) :
  Ascii.eqb c "{" = false ->
  Fragment.match_here (expression t) fl (String c r) = None.
Proof.
  intros H. unfold expression. cbn [app]. rewrite match_here_once.
  cbn [Fragment.atom_matches]. now rewrite Ascii.eqb_sym, H.
Qed.

Lemma expression_needs_two_braces (t : string) (fl : bool) (c : ascii)
    (r : string) :
  Ascii.eqb c "{" = false ->
  Fragment.match_here (expression t) fl (String "{" (String c r)) = None.
Proof.
  intros H. unfold expression. cbn [app]. rewrite !match_here_once.
  cbn [Fragment.atom_matches]. rewrite (Ascii.eqb_sym "{" c), H. reflexivity.
Qed.

Lemma expression_on_empty (t : string) (fl : bool) :
  Fragment.match_here (expression t) fl "" = None.
Proof. reflexivity. Qed.

Section Pass.
Variable t : string.
Variable val : string.
Variable whole : string.
Hypothesis plain : dollar_plain val = true.

Lemma replace_from_end (pos : nat) :
  Fragment.replace_from (expression t) val whole pos 0 "" = "".
Proof. cbn [Fragment.replace_from]. now rewrite expression_on_empty. Qed.

Lemma replace_from_copy (z tail : string) :
  contains "{" z = false ->
  forall pos, exists pos',
    Fragment.replace_from (expression t) val whole pos 0 (z +:+ tail)
    = z +:+ Fragment.replace_from (expression t) val whole pos' 0 tail.
Proof.
  induction z as [|c z IH]; intros H pos.
  - exists pos. reflexivity.
  - cbn [contains] in H. apply orb_false_iff in H as [Hc H].
    destruct (IH H (S pos)) as [pos' E]. exists pos'.
    rewrite !append_cons. cbn [Fragment.replace_from].
    rewrite expression_needs_brace by now rewrite Ascii.eqb_sym.
    now rewrite E.
Qed.

Lemma replace_from_skip (z tail : string) :
  forall pos, exists pos',
    Fragment.replace_from (expression t) val whole pos (String.length z)
      (z +:+ tail)
    = Fragment.replace_from (expression t) val whole pos' 0 tail.
Proof.
  induction z as [|c z IH]; intros pos.
  - exists pos. reflexivity.
  - destruct (IH (S pos)) as [pos' E]. exists pos'.
    rewrite append_cons. cbn [String.length Fragment.replace_from]. exact E.
Qed.

Lemma marker_inside_no_brace (before name after : string) :
  well_formed_piece (Marker before name after) = true ->
  contains "{" (before +:+ (name +:+ (after +:+ "}}"))) = false.
Proof.
  cbn [well_formed_piece]. intros W.
  apply andb_prop in W as [W Wa]. apply andb_prop in W as [Wb Wn].
  apply name_shaped_facts in Wn as (c & r & -> & _ & N & _).
  assert (S : forall b, all_chars is_space b = true -> contains "{" b = false).
  { induction b as [|x b IH]; [reflexivity|]. cbn [all_chars contains].
    intros H. apply andb_prop in H as [Hx H].
    now rewrite Ascii.eqb_sym, (space_not_open _ Hx), IH. }
  assert (M : forall u, all_chars is_name_char u = true ->
                        contains "{" u = false).
  { induction u as [|x u IH]; [reflexivity|]. cbn [all_chars contains].
    intros H. apply andb_prop in H as [Hx H].
    now rewrite Ascii.eqb_sym, (name_char_not_open _ Hx), IH. }
  rewrite !contains_append, (S _ Wb), (S _ Wa), (M _ N). reflexivity.
Qed.

Lemma replace_from_marker (before name after tail : string) :
  name_shaped t = true ->
  well_formed_piece (Marker before name after) = true ->
  forall pos, exists pos',
    Fragment.replace_from (expression t) val whole pos 0
      (print_piece (Marker before name after) +:+ tail)
    = (if matches_name t name then val
       else print_piece (Marker before name after))
      +:+ Fragment.replace_from (expression t) val whole pos' 0 tail.
Proof.
  intros T W pos.
  pose proof (expression_on_marker t before name after tail (pos =? 0)%nat T W)
    as M.
  pose proof (marker_inside_no_brace _ _ _ W) as I.
  assert (P : print_piece (Marker before name after)
              = String "{" (String "{"
                  (before +:+ (name +:+ (after +:+ "}}"))))).
  { reflexivity. }
  rewrite P in *. set (z := before +:+ (name +:+ (after +:+ "}}"))) in *.
  rewrite !append_cons in *. cbn [Fragment.replace_from]. rewrite M.
  destruct (matches_name t name).
  - cbn [String.length].
    destruct (replace_from_skip z tail (S (S pos))) as [pos' E].
    exists pos'. rewrite expand_plain by exact plain. now rewrite E.
  - assert (Z : exists c r, z = String c r /\ Ascii.eqb c "{" = false).
    { destruct z as [|c r] eqn:Ez.
      - subst z. destruct before; [|discriminate].
        destruct name; [|discriminate].
        cbn [well_formed_piece name_shaped] in W.
        now rewrite andb_false_r in W.
      - exists c, r. split; [reflexivity|]. cbn [contains] in I.
        apply orb_false_iff in I as [I _]. now rewrite Ascii.eqb_sym. }
    destruct Z as (c & r & Ez & Hc).
    destruct (replace_from_copy z tail I (S (S pos))) as [pos' E].
    assert (N : forall fl,
              Fragment.match_here (expression t) fl (String "{" (z +:+ tail))
              = None).
    { intros fl. rewrite Ez, append_cons.
      now apply expression_needs_two_braces. }
    exists pos'. rewrite N, E. now rewrite !append_cons.
Qed.

Lemma replace_from_pieces (pieces : list piece) :
  name_shaped t = true ->
  forallb well_formed_piece pieces = true ->
  forall pos,
    Fragment.replace_from (expression t) val whole pos 0 (print pieces)
    = print (pass t val pieces).
Proof.
  intros T. induction pieces as [|p rest IH]; intros W pos.
  - apply replace_from_end.
  - cbn [forallb] in W. apply andb_prop in W as [Wp W].
    cbn [print pass map]. fold (pass t val rest).
    destruct p as [s|before name after].
    + cbn [well_formed_piece] in Wp. apply negb_true_iff in Wp.
      destruct (replace_from_copy s (print rest) Wp pos) as [pos' E].
      cbn [print_piece]. now rewrite E, (IH W).
    + destruct (replace_from_marker before name after (print rest) T Wp pos)
        as [pos' E].
      rewrite E, (IH W). now destruct (matches_name t name).
Qed.
End Pass.


(** *** The tokens of a template of pieces *)

Lemma trimStart_blanks (b X : string) :
  all_chars is_space b = true -> trimStart (b +:+ X) = trimStart X.
Proof.
  induction b as [|c b IH]; intros H; [reflexivity|].
  cbn [all_chars] in H. apply andb_prop in H as [Hc H].
  rewrite append_cons. cbn [trimStart]. rewrite Hc. now apply IH.
Qed.

Lemma trimEnd_blanks (a : string) :
  all_chars is_space a = true -> trimEnd a = "".
Proof.
  induction a as [|c a IH]; intros H; [reflexivity|].
  cbn [all_chars] in H. apply andb_prop in H as [Hc H].
  rewrite trimEnd_cons, (IH H). now rewrite Hc.
Qed.

Lemma trimEnd_name (u a : string) :
  all_chars is_name_char u = true -> all_chars is_space a = true ->
  trimEnd (u +:+ a) = u.
Proof.
  intros U A. induction u as [|c u IH].
  - now apply trimEnd_blanks.
  - cbn [all_chars] in U. apply andb_prop in U as [Uc U].
    rewrite append_cons, trimEnd_cons, (IH U).
    apply name_char_facts in Uc as (_ & _ & _ & _ & S).
    destruct u; [now rewrite S | reflexivity].
Qed.

Lemma trim_body (before name after : string) :
  well_formed_piece (Marker before name after) = true ->
  trim (body_of before name after) = name.
Proof.
  cbn [well_formed_piece]. intros W.
  apply andb_prop in W as [W Wa]. apply andb_prop in W as [Wb Wn].
  apply name_shaped_facts in Wn as (c & r & -> & _ & N & _).
  unfold trim, body_of. rewrite (trimStart_blanks _ _ Wb).
  pose proof N as N'. cbn [all_chars] in N'. apply andb_prop in N' as [Nc _].
  apply name_char_facts in Nc as (_ & _ & _ & _ & S).
  rewrite append_cons. cbn [trimStart]. rewrite S.
  rewrite <- append_cons. now apply trimEnd_name.
Qed.

Lemma body_no_close (before name after : string) :
  well_formed_piece (Marker before name after) = true ->
  contains "}" (body_of before name after) = false /\
  body_of before name after <> "".
Proof.
  cbn [well_formed_piece]. intros W.
  apply andb_prop in W as [W Wa]. apply andb_prop in W as [Wb Wn].
  apply name_shaped_facts in Wn as (c & r & -> & _ & N & _).
  assert (S : forall b, all_chars is_space b = true -> contains "}" b = false).
  { induction b as [|x b IH]; [reflexivity|]. cbn [all_chars contains].
    intros H. apply andb_prop in H as [Hx H].
    now rewrite Ascii.eqb_sym, (space_not_close _ Hx), IH. }
  assert (M : forall u, all_chars is_name_char u = true ->
                        contains "}" u = false).
  { induction u as [|x u IH]; [reflexivity|]. cbn [all_chars contains].
    intros H. apply andb_prop in H as [Hx H].
    apply name_char_facts in Hx as (_ & _ & _ & B & _).
    now rewrite Ascii.eqb_sym, B, IH. }
  unfold body_of. split.
  - now rewrite !contains_append, (S _ Wb), (S _ Wa), (M _ N).
  - destruct before; discriminate.
Qed.

Lemma scan_skip (z rest : string) :
  scan (String.length z) (z +:+ rest) = scan 0 rest.
Proof.
  induction z as [|c z IH]; [reflexivity|].
  rewrite append_cons. cbn [String.length scan]. exact IH.
Qed.

Lemma scan_match (c : ascii) (r body : string) (len : nat) :
  match_marker (String c r) = Some (body, len) ->
  scan 0 (String c r) = body :: scan (len - 1) r.
Proof. intros M. cbn [scan]. now rewrite M. Qed.

Lemma scan_print (pieces : list piece) :
  forallb well_formed_piece pieces = true ->
  scan 0 (print pieces) = bodies pieces.
Proof.
  induction pieces as [|p rest IH]; intros W; [reflexivity|].
  cbn [forallb] in W. apply andb_prop in W as [Wp W].
  cbn [print]. destruct p as [s|before name after].
  - cbn [well_formed_piece] in Wp. apply negb_true_iff in Wp.
    cbn [print_piece bodies]. rewrite (scan_no_brace _ _ Wp). now apply IH.
  - destruct (body_no_close _ _ _ Wp) as [C N].
    cbn [bodies]. set (body := body_of before name after) in *.
    assert (E : print_piece (Marker before name after) +:+ print rest
                = "{{" +:+ body +:+ "}}" +:+ print rest).
    { cbn [print_piece]. subst body. unfold body_of.
      now rewrite !append_assoc. }
    rewrite E. pose proof (match_marker_marker body (print rest) C N) as M.
    change ("{{" +:+ body +:+ "}}" +:+ print rest)
      with (String "{" (String "{" (body +:+ "}}" +:+ print rest))) in *.
    rewrite (scan_match _ _ _ _ M). f_equal.
    replace (4 + String.length body - 1)
      with (String.length (String "{" (body +:+ "}}"))).
    2:{ cbn [String.length]. rewrite length_append. cbn [String.length]. lia. }
    replace (String "{" (body +:+ "}}" +:+ print rest))
      with (String "{" (body +:+ "}}") +:+ print rest).
    2:{ rewrite append_cons. now rewrite !append_assoc. }
    rewrite scan_skip. now apply IH.
Qed.

Lemma set_add_fold_map {A : Type} (f : A -> string) (l : list A) :
  forall acc,
    fold_left (fun set b => set_add set (f b)) l acc
    = fold_left set_add (map f l) acc.
Proof. induction l as [|b l IH]; intros acc; [reflexivity | apply IH]. Qed.

Lemma trim_bodies (pieces : list piece) :
  forallb well_formed_piece pieces = true ->
  map trim (bodies pieces) = names pieces.
Proof.
  induction pieces as [|p rest IH]; intros W; [reflexivity|].
  cbn [forallb] in W. apply andb_prop in W as [Wp W].
  destruct p as [s|before name after]; cbn [bodies names map].
  - now apply IH.
  - now rewrite (trim_body _ _ _ Wp), IH.
Qed.

(** The tokens of a template of pieces are the names of its markers. *)
Lemma extractTokens_print (pieces : list piece) :
  forallb well_formed_piece pieces = true ->
  extractTokens (print pieces) = sort (fold_left set_add (names pieces) []).
Proof.
  intros W. unfold extractTokens.
  now rewrite (scan_print _ W), set_add_fold_map, (trim_bodies _ W).
Qed.

Lemma In_extractTokens_print (pieces : list piece) (t : string) :
  forallb well_formed_piece pieces = true ->
  In t (extractTokens (print pieces)) <-> In t (names pieces).
Proof.
  intros W. rewrite (extractTokens_print _ W), sort_In, set_add_list_In.
  simpl. tauto.
Qed.

Lemma names_shaped (pieces : list piece) (name : string) :
  forallb well_formed_piece pieces = true ->
  In name (names pieces) -> name_shaped name = true.
Proof.
  induction pieces as [|p rest IH]; intros W I; [destruct I|].
  cbn [forallb] in W. apply andb_prop in W as [Wp W].
  destruct p as [s|before n after]; cbn [names] in I.
  - now apply IH.
  - destruct I as [<-|I]; [|now apply IH].
    cbn [well_formed_piece] in Wp. apply andb_prop in Wp as [Wp _].
    now apply andb_prop in Wp as [_ Wn].
Qed.

(** *** The loop over the tokens *)

Lemma pass_well_formed (t val : string) (pieces : list piece) :
  contains "{" val = false ->
  forallb well_formed_piece pieces = true ->
  forallb well_formed_piece (pass t val pieces) = true.
Proof.
  intros V. induction pieces as [|p rest IH]; intros W; [reflexivity|].
  cbn [forallb] in W. apply andb_prop in W as [Wp W].
  cbn [pass map forallb]. fold (pass t val rest). rewrite (IH W), andb_true_r.
  destruct p as [s|before name after]; [exact Wp|].
  destruct (matches_name t name); [|exact Wp].
  cbn [well_formed_piece]. now rewrite V.
Qed.

Section PieceFacts.
Context {realm : Realm}.
Variable config : value.

Lemma substitutable_facts (t : string) :
  substitutable config t = true ->
  printable config t = true /\
  dollar_plain (valueText config t) = true /\
  contains "{" (valueText config t) = false.
Proof.
  unfold substitutable. intros H.
  apply andb_prop in H as [H B]. apply andb_prop in H as [P D].
  apply negb_true_iff in B. auto.
Qed.

Lemma replaceLoop_on_pieces (opts : replaceOptions) (tokens : list string) :
  forall pieces,
    forallb well_formed_piece pieces = true ->
    forallb name_shaped tokens = true ->
    forallb (substitutable config) tokens = true ->
    replaceLoop (host := Fragment.host) config opts tokens (print pieces, [])
    = Ok (print (fold_left (fun ps t => pass t (valueText config t) ps)
                   tokens pieces), []).
Proof.
  induction tokens as [|t tokens IH]; intros pieces W N S; [reflexivity|].
  cbn [forallb] in N, S. apply andb_prop in N as [Nt N].
  apply andb_prop in S as [St S].
  destruct (substitutable_facts _ St) as (P & Vd & Vb).
  assert (A : all_chars is_name_char t = true).
  { apply name_shaped_facts in Nt as (c & r & _ & _ & A & _). exact A. }
  rewrite replaceLoop_cons.
  rewrite (replaceStep_resolved (host := Fragment.host) config opts t
             (expression t))
    by (try assumption; now apply expression_compiled).
  cbn [mbind exc_bind fold_left]. cbn [String_replace Fragment.host].
  rewrite (replace_from_pieces t (valueText config t) (print pieces) Vd
             pieces Nt W).
  apply IH; try assumption.
  now apply pass_well_formed.
Qed.

(** *** What the pieces become *)

Lemma fold_pass_pieces (tokens : list string) :
  forall pieces,
    fold_left (fun ps t => pass t (valueText config t) ps) tokens pieces
    = map (fun p => fold_left (fun p t => pass_piece config t p) tokens p)
          pieces.
Proof.
  induction tokens as [|t tokens IH]; intros pieces.
  - cbn [fold_left]. now rewrite map_id.
  - cbn [fold_left]. rewrite IH. unfold pass. rewrite map_map.
    apply map_ext. intros p. now destruct p.
Qed.

Lemma fold_pass_text (tokens : list string) (s : string) :
  fold_left (fun p t => pass_piece config t p) tokens (Text s) = Text s.
Proof. induction tokens as [|t tokens IH]; [reflexivity | exact IH]. Qed.

Lemma fold_pass_piece (tokens : list string) (p : piece) :
  print_piece (fold_left (fun p t => pass_piece config t p) tokens p)
  = rendered config tokens p.
Proof.
  destruct p as [s|before name after].
  - now rewrite fold_pass_text.
  - induction tokens as [|t tokens IH]; [reflexivity|].
    cbn [fold_left pass_piece rendered find].
    destruct (matches_name t name).
    + now rewrite fold_pass_text.
    + exact IH.
Qed.

Lemma print_map_ext (g h : piece -> piece) (pieces : list piece) :
  (forall p, print_piece (g p) = print_piece (h p)) ->
  print (map g pieces) = print (map h pieces).
Proof.
  intros E. induction pieces as [|p rest IH]; [reflexivity|].
  cbn [map print]. now rewrite E, IH.
Qed.

Lemma replaceTokens_on_pieces (pieces : list piece) (opts : replaceOptions) :
  forallb well_formed_piece pieces = true ->
  forallb (substitutable config) (extractTokens (print pieces)) = true ->
  replaceTokens (host := Fragment.host) (print pieces) config None opts
  = {| console := [];
       returned := Ok (render config (extractTokens (print pieces)) pieces) |}.
Proof.
  intros W S. unfold replaceTokens.
  assert (N : forallb name_shaped (extractTokens (print pieces)) = true).
  { apply forallb_forall. intros t I.
    apply (In_extractTokens_print _ _ W) in I. now apply (names_shaped pieces). }
  rewrite (replaceLoop_on_pieces opts _ pieces W N S).
  rewrite fold_pass_pieces. unfold render. do 2 f_equal.
  apply print_map_ext. intros p. apply fold_pass_piece.
Qed.

(** X23.  On a template made of texts without an opening brace and of
    markers [{{ name }}] of dotted names, the tokens extracted are the
    names of the markers, sorted and each once.  With a configuration in
    which every one of them resolves to a value that [String] converts to
    a text with no pattern of replacement and no opening brace,
    [replaceTokens] with the engine of the fragment returns the template
    in which the texts are as they were and every marker is replaced by
    the value of the first token, in the sorted order of extraction, whose
    expression matches the name of the marker, a dot of a token matching
    any character; and it prints nothing, under any options. *)
Theorem replaceTokens_renders_the_template
    (pieces : list piece) (opts : replaceOptions) :
  forallb well_formed_piece pieces = true ->
  forallb (substitutable config) (extractTokens (print pieces)) = true ->
  extractTokens (print pieces) = sort (fold_left set_add (names pieces) []) /\
  replaceTokens (host := Fragment.host) (print pieces) config None opts
  = {| console := [];
       returned := Ok (render config (extractTokens (print pieces)) pieces) |}.
Proof.
  intros W S. split.
  - now apply extractTokens_print.
  - now apply replaceTokens_on_pieces.
Qed.

Lemma matches_name_refl (t : string) : matches_name t t = true.
Proof.
  induction t as [|c r IH]; [reflexivity|].
  cbn [matches_name]. now rewrite Ascii.eqb_refl, orb_true_r, IH.
Qed.

Lemma find_own (tokens : list string) (name : string) :
  In name tokens ->
  (forall t, In t tokens -> matches_name t name = true -> t = name) ->
  find (fun t => matches_name t name) tokens = Some name.
Proof.
  induction tokens as [|t tokens IH]; intros I U; [destruct I|].
  cbn [find]. destruct (matches_name t name) eqn:M.
  - f_equal. apply U; [now left | exact M].
  - apply IH.
    + destruct I as [->|I]; [|exact I]. now rewrite matches_name_refl in M.
    + intros t' I' M'. apply U; [now right | exact M'].
Qed.

(** X24.  When, moreover, no name of the template is matched by the
    expression of another (as when the names hold no dot, or differ
    elsewhere than at a dot), every marker is replaced by the value of its
    own name, as [String] converts it: extraction followed by replacement
    gives the template with the values in the places of the markers. *)
Theorem replaceTokens_puts_each_value_in_its_place
    (pieces : list piece) (opts : replaceOptions) :
  forallb well_formed_piece pieces = true ->
  forallb (substitutable config) (extractTokens (print pieces)) = true ->
  unambiguous pieces = true ->
  replaceTokens (host := Fragment.host) (print pieces) config None opts
  = {| console := [];
       returned :=
         Ok (print (map (fun p => match p with
                                  | Text s => Text s
                                  | Marker _ name _ =>
                                      Text (valueText config name)
                                  end) pieces)) |} /\
  forall before name after,
    In (Marker before name after) pieces ->
    textOfToken config name = Ok (valueText config name).
Proof.
  intros W S U.
  assert (Nm : forall before name after,
            In (Marker before name after) pieces -> In name (names pieces)).
  { clear. intros before name after I.
    induction pieces as [|q rest IH]; [destruct I|].
    destruct I as [->|I]; [now left|].
    destruct q; cbn [names]; [now apply IH | right; now apply IH]. }
  split.
  2:{ intros before name after I. apply Nm in I.
      apply (In_extractTokens_print _ _ W) in I.
      rewrite forallb_forall in S. specialize (S name I).
      destruct (substitutable_facts _ S) as (P & _).
      now destruct (printable_text _ _ P) as (x & text & _ & _ & _ & -> & ->). }
  rewrite (replaceTokens_on_pieces pieces opts W S).
  do 2 f_equal. unfold render.
  assert (R : forall p, In p pieces ->
            rendered config (extractTokens (print pieces)) p
            = match p with
              | Text s => s
              | Marker _ name _ => valueText config name
              end).
  { intros [s|before name after] I; [reflexivity|]. cbn [rendered].
    apply Nm in I.
    rewrite (find_own _ name); [reflexivity | |].
    - now apply In_extractTokens_print.
    - intros t I' M. apply (In_extractTokens_print _ _ W) in I'.
      unfold unambiguous in U. rewrite forallb_forall in U.
      specialize (U t I'). rewrite forallb_forall in U.
      specialize (U name I). rewrite M in U. cbn [negb orb] in U.
      now apply String.eqb_eq in U. }
  revert R. generalize (extractTokens (print pieces)) as tokens.
  clear. intros tokens R.
  induction pieces as [|p rest IH]; [reflexivity|].
  cbn [map print]. rewrite IH by (intros q I; apply R; now right).
  rewrite (R p) by now left. now destruct p.
Qed.

(** *** The loop under a policy *)

Lemma admissible_facts (opts : replaceOptions) (t text : string) :
  admissible config opts t = true ->
  replacementFor config opts t = Some text ->
  dollar_plain text = true /\ contains "{" text = false.
Proof.
  unfold admissible. intros A R. rewrite R in A.
  apply andb_prop in A as [D B]. now apply negb_true_iff in B.
Qed.

Lemma passUnder_well_formed (opts : replaceOptions)
    (t : string) (pieces : list piece) :
  admissible config opts t = true ->
  forallb well_formed_piece pieces = true ->
  forallb well_formed_piece (passUnder config opts t pieces) = true.
Proof.
  intros A W. unfold passUnder.
  destruct (replacementFor config opts t) as [text|] eqn:R; [|exact W].
  destruct (admissible_facts _ _ _ A R) as [_ B].
  now apply pass_well_formed.
Qed.

Lemma replaceStep_on_pieces (opts : replaceOptions)
    (t : string) (pieces : list piece) (warnings : list string) :
  forallb well_formed_piece pieces = true ->
  name_shaped t = true -> admissible config opts t = true ->
  replaceStep (host := Fragment.host) config opts (print pieces, warnings) t
  = Ok (print (passUnder config opts t pieces),
        warnings ++ warningsFor config [t]).
Proof.
  intros W N A.
  assert (C : RegExp_g (RegExpHost := Fragment.host) (tokenRegexSource t)
              = Ok (expression t)).
  { apply expression_compiled.
    apply name_shaped_facts in N as (c & r & _ & _ & H & _). exact H. }
  rewrite (replaceStep_eq (host := Fragment.host) config opts t (expression t))
    by exact C.
  unfold passUnder.
  destruct (replacementFor config opts t) as [text|] eqn:R; [|reflexivity].
  destruct (admissible_facts _ _ _ A R) as [P B].
  cbn [String_replace Fragment.host].
  now rewrite (replace_from_pieces t text (print pieces) P pieces N W).
Qed.

Lemma replaceLoop_under_policy (opts : replaceOptions) (tokens : list string) :
  forall pieces warnings,
    forallb well_formed_piece pieces = true ->
    forallb name_shaped tokens = true ->
    forallb (admissible config opts) tokens = true ->
    replaceLoop (host := Fragment.host) config opts tokens
      (print pieces, warnings)
    = Ok (print (fold_left (fun ps t => passUnder config opts t ps)
                   tokens pieces),
          warnings ++ warningsFor config tokens).
Proof.
  induction tokens as [|t tokens IH]; intros pieces warnings W N A.
  - cbn. now rewrite app_nil_r.
  - cbn [forallb] in N, A. apply andb_prop in N as [Nt N].
    apply andb_prop in A as [At A].
    rewrite replaceLoop_cons, (replaceStep_on_pieces _ _ _ _ W Nt At).
    cbn [mbind exc_bind fold_left].
    rewrite (IH _ _ (passUnder_well_formed _ _ _ At W) N A).
    now rewrite (warningsFor_cons config t tokens), app_assoc.
Qed.

Lemma fold_passUnder_pieces (opts : replaceOptions) (tokens : list string) :
  forall pieces,
    fold_left (fun ps t => passUnder config opts t ps) tokens pieces
    = map (fun p => fold_left (fun p t => passPieceUnder config opts t p)
                      tokens p) pieces.
Proof.
  induction tokens as [|t tokens IH]; intros pieces.
  - cbn [fold_left]. now rewrite map_id.
  - cbn [fold_left]. rewrite IH. unfold passUnder, passPieceUnder, replaces.
    destruct (replacementFor config opts t) as [text|].
    + unfold pass. rewrite map_map. apply map_ext. intros [s|b name a];
        [reflexivity|]. cbn [default].
      now destruct (matches_name t name).
    + apply map_ext. intros [s|b name a]; [reflexivity|].
      now rewrite andb_false_r.
Qed.

Lemma fold_passUnder_text (opts : replaceOptions)
    (tokens : list string) (s : string) :
  fold_left (fun p t => passPieceUnder config opts t p) tokens (Text s)
  = Text s.
Proof. induction tokens as [|t tokens IH]; [reflexivity | exact IH]. Qed.

Lemma fold_passUnder_piece (opts : replaceOptions)
    (tokens : list string) (p : piece) :
  print_piece (fold_left (fun p t => passPieceUnder config opts t p) tokens p)
  = renderedUnder config opts tokens p.
Proof.
  destruct p as [s|before name after].
  - now rewrite fold_passUnder_text.
  - induction tokens as [|t tokens IH]; [reflexivity|].
    cbn [fold_left passPieceUnder renderedUnder find].
    destruct (replaces config opts name t).
    + now rewrite fold_passUnder_text.
    + exact IH.
Qed.

Lemma replaceTokens_under_policy_on_pieces
    (pieces : list piece) (opts : replaceOptions) :
  errorHandling opts <> "fail" ->
  forallb well_formed_piece pieces = true ->
  forallb (admissible config opts) (extractTokens (print pieces)) = true ->
  replaceTokens (host := Fragment.host) (print pieces) config None opts
  = {| console :=
         if String.eqb (errorHandling opts) "warn"
         then map (fun t =>
                     warn_sign
                     +:+ (if resolves config t
                          then causedErrorMessage t cannot_convert
                          else notFoundMessage t))
                (List.filter (fun t => negb (printable config t))
                             (extractTokens (print pieces)))
         else [];
       returned :=
         Ok (renderUnder config opts (extractTokens (print pieces)) pieces) |}.
Proof.
  intros F W A. apply String.eqb_neq in F. unfold replaceTokens.
  assert (N : forallb name_shaped (extractTokens (print pieces)) = true).
  { apply forallb_forall. intros t I.
    apply (In_extractTokens_print _ _ W) in I. now apply (names_shaped pieces). }
  rewrite (replaceLoop_under_policy opts _ pieces [] W N A).
  cbn [app]. rewrite F, fold_passUnder_pieces, warningsFor_eq.
  assert (E : print (map (fun p => fold_left
                (fun p t => passPieceUnder config opts t p)
                (extractTokens (print pieces)) p) pieces)
              = renderUnder config opts (extractTokens (print pieces)) pieces).
  { unfold renderUnder. apply print_map_ext. intros p.
    apply fold_passUnder_piece. }
  rewrite E.
  destruct (List.filter _ (extractTokens (print pieces))) as [|m ms];
    cbn [map].
  - now destruct (String.eqb (errorHandling opts) "warn").
  - destruct (String.eqb (errorHandling opts) "warn"); [|reflexivity].
    now rewrite map_map.
Qed.

(** X25.  On a well-formed template and under a policy other than
    ['fail'], with the engine of the fragment: when the replacement of
    every token (the text of its value, or the placeholder under ['warn']
    and ['graceful'] for a token that does not resolve or whose value
    [String] cannot convert) holds no pattern of replacement and no
    opening brace, [replaceTokens] returns the template in which every
    marker carries the replacement of the first token, in sorted order,
    that matches its name and has a replacement; a marker matched by no
    such token is left as it is, as are all markers of tokens without a
    printable value under a policy that is none of the three.  Under
    ['warn'] one line is printed for each token that has no printable
    value, the line of a missing token when it does not resolve and the
    line of the error when [String] throws, and nothing is printed
    otherwise. *)
Theorem replaceTokens_renders_under_a_policy
    (pieces : list piece) (opts : replaceOptions) :
  errorHandling opts <> "fail" ->
  forallb well_formed_piece pieces = true ->
  forallb (admissible config opts) (extractTokens (print pieces)) = true ->
  replaceTokens (host := Fragment.host) (print pieces) config None opts
  = {| console :=
         if String.eqb (errorHandling opts) "warn"
         then map (fun t =>
                     warn_sign
                     +:+ (if resolves config t
                          then causedErrorMessage t cannot_convert
                          else notFoundMessage t))
                (List.filter (fun t => negb (printable config t))
                             (extractTokens (print pieces)))
         else [];
       returned :=
         Ok (renderUnder config opts (extractTokens (print pieces)) pieces) |}.
Proof. apply replaceTokens_under_policy_on_pieces. Qed.

(** *** A file processed from end to end *)

(** X26.  [processTemplate] on a file that holds a well-formed template,
    under a policy other than ['fail'], with the engine of the fragment
    and under the discipline of time stamps, when the replacement of every
    token holds no pattern of replacement and no opening brace.  If the
    validation returns, the call succeeds; its result carries the rendered
    template as content, the template as original content, the names of
    the markers as tokens and their validation; and under ['warn'] it
    prints one line for each token that has no printable value.  If the
    validation throws, which it does when unused values are asked for and
    an object of the configuration has an own property [hasOwnProperty],
    the call fails with the message of the [TypeError] and prints
    nothing. *)
Theorem processTemplate_renders_the_file
    (path_resolve : string -> string) (fs : gmap string file)
    (options : processorOptions)
    (snapshot : string -> Z -> string) (templatePath : string)
    (po : processingOptions) (w : world) (f : file) (pieces : list piece) :
  let opts := mergeOptions options po in
  let ropts := {| errorHandling := po_errorHandling opts;
                  missingTokenPlaceholder := po_missingTokenPlaceholder opts;
                  preserveUnknownTokens := false |} in
  let tokens := extractTokens (print pieces) in
  let text := renderUnder config ropts tokens pieces in
  let outcome := processTemplate (host := Fragment.host) path_resolve fs
                   options templatePath config po w in
  tracks snapshot fs -> coherent snapshot (cache w) ->
  fs !! path_resolve templatePath = Some f -> content f = print pieces ->
  forallb well_formed_piece pieces = true ->
  po_errorHandling opts <> "fail" ->
  forallb (admissible config ropts) tokens = true ->
  if validates config opts
  then exists validation,
         validateAgainstTokens config tokens
           {| strictMode := po_strictValidation opts;
              allowEmpty := po_allowEmptyValues opts;
              warnOnUnused := po_warnOnUnused opts |} = Ok validation /\
         fst outcome
         = Ok (Processed templatePath text (print pieces)
                 {| ts_found := tokens;
                    ts_total := length tokens;
                    ts_missing := map m_token (missing validation);
                    ts_replaced := map f_token (found validation) |}
                 validation opts
                 (String.length (print pieces)) (String.length text)) /\
         printed (snd outcome)
         = printed w
           ++ (if String.eqb (po_errorHandling opts) "warn"
               then map (fun t =>
                           warn_sign
                           +:+ (if resolves config t
                                then causedErrorMessage t cannot_convert
                                else notFoundMessage t))
                      (List.filter (fun t => negb (printable config t)) tokens)
               else [])
  else fst outcome = Ok (Failed templatePath not_a_function (Some opts)) /\
       printed (snd outcome) = printed w.
Proof.
  intros opts ropts tokens text outcome T Co F C W P A. subst outcome.
  unfold processTemplate, readFileSync. rewrite F, C. fold opts.
  assert (E : (if po_cacheTokens opts
               then getCachedTokens path_resolve fs templatePath (cache w)
               else (Ok (extractTokens (print pieces)), cache w))
              = (Ok tokens,
                 snd (if po_cacheTokens opts
                      then getCachedTokens path_resolve fs templatePath (cache w)
                      else (Ok (extractTokens (print pieces)), cache w)))).
  { destruct (po_cacheTokens opts); [|reflexivity].
    destruct (getCachedTokens_coherent path_resolve snapshot fs templatePath
                (cache w) T Co) as [_ R].
    specialize (R f F). rewrite C in R.
    destruct (getCachedTokens path_resolve fs templatePath (cache w)).
    simpl in *. now rewrite R. }
  rewrite E. clear E. cbv zeta. fold tokens.
  pose proof (validation_of_processor config tokens opts) as V. cbv zeta in V.
  destruct (validates config opts).
  2:{ rewrite V. now split. }
  destruct V as (validation & V & _). exists validation. split; [exact V|].
  rewrite V.
  apply String.eqb_neq in P. rewrite P, andb_false_r.
  assert (R : replaceTokens (host := Fragment.host) (print pieces) config
                (Some tokens) ropts
              = replaceTokens (host := Fragment.host) (print pieces) config
                  None ropts) by reflexivity.
  fold ropts. rewrite R.
  rewrite (replaceTokens_under_policy_on_pieces pieces ropts)
    by (try assumption; cbn [errorHandling ropts]; now apply String.eqb_neq).
  cbn [returned console printed fst snd errorHandling ropts]. fold tokens.
  fold text. split; reflexivity.
Qed.
End PieceFacts.

Lemma replaceTokens_renders_the_template_witness :
  extractTokens "Dear {{client.name}}, pay {{ client_name }}."
  = ["client.name"; "client_name"] /\
  replaceTokens (host := Fragment.host) (realm := ES2023.realm)
    "Dear {{client.name}}, pay {{ client_name }}."
    (VObject [("client", VObject [("name", VString "Ada")]);
              ("client_name", VString "Bo")])
    None defaultReplaceOptions
  = {| console := []; returned := Ok "Dear Ada, pay Ada." |}.
Proof.
  exact (replaceTokens_renders_the_template (realm := ES2023.realm)
           (VObject [("client", VObject [("name", VString "Ada")]);
                     ("client_name", VString "Bo")])
           [Text "Dear "; Marker "" "client.name" ""; Text ", pay ";
            Marker " " "client_name" " "; Text "."]
           defaultReplaceOptions eq_refl eq_refl).
Defined.

Lemma replaceTokens_puts_each_value_in_its_place_witness :
  replaceTokens (host := Fragment.host) (realm := ES2023.realm)
    "Hi {{client_name}}, due: {{ payment.amount }}"
    (VObject [("client_name", VString "Ada");
              ("payment", VObject [("amount", VString "Pay $1,500")])])
    None defaultReplaceOptions
  = {| console := []; returned := Ok "Hi Ada, due: Pay $1,500" |}.
Proof.
  exact (proj1 (replaceTokens_puts_each_value_in_its_place
                  (realm := ES2023.realm)
                  (VObject [("client_name", VString "Ada");
                            ("payment",
                             VObject [("amount", VString "Pay $1,500")])])
                  [Text "Hi "; Marker "" "client_name" ""; Text ", due: ";
                   Marker " " "payment.amount" " "]
                  defaultReplaceOptions eq_refl eq_refl eq_refl)).
Defined.

Lemma replaceTokens_renders_under_a_policy_witness :
  replaceTokens (host := Fragment.host) (realm := ES2023.realm)
    "Hi {{client_name}}, due: {{ payment.amount }}"
    (VObject [("client_name", VObject [("toString", VString "x")])])
    None defaultReplaceOptions
  = {| console :=
         [warn_sign +:+ "Token 'client_name' caused error: "
          +:+ "Cannot convert object to primitive value";
          warn_sign +:+ "Token 'payment.amount' not found in config"];
       returned := Ok "Hi [MISSING], due: [MISSING]" |}.
Proof.
  refine (replaceTokens_renders_under_a_policy (realm := ES2023.realm)
            (VObject [("client_name", VObject [("toString", VString "x")])])
            [Text "Hi "; Marker "" "client_name" ""; Text ", due: ";
             Marker " " "payment.amount" " "]
            defaultReplaceOptions _ eq_refl eq_refl).
  discriminate.
Defined.

Lemma processTemplate_renders_the_file_witness :
  exists validation,
    validateAgainstTokens (realm := ES2023.realm)
      (VObject [("client_name", VString "Ada")])
      ["client_name"; "payment.amount"] defaultValidateOptions
    = Ok validation /\
    fst (processTemplate (host := Fragment.host) (realm := ES2023.realm)
           (fun path => path)
           {["/t/a.html" :=
               {| content := "Hi {{client_name}}, due: {{ payment.amount }}";
                  mtime := 1 |}]}
           defaultProcessorOptions "/t/a.html"
           (VObject [("client_name", VString "Ada")]) noOverride
           {| cache := ∅; printed := [] |})
    = Ok (Processed "/t/a.html" "Hi Ada, due: [MISSING]"
            "Hi {{client_name}}, due: {{ payment.amount }}"
            {| ts_found := ["client_name"; "payment.amount"];
               ts_total := 2;
               ts_missing := map m_token (missing validation);
               ts_replaced := map f_token (found validation) |}
            validation defaultProcessorOptions 45 22) /\
    printed (snd (processTemplate (host := Fragment.host)
                    (realm := ES2023.realm) (fun path => path)
                    {["/t/a.html" :=
                        {| content :=
                             "Hi {{client_name}}, due: {{ payment.amount }}";
                           mtime := 1 |}]}
                    defaultProcessorOptions "/t/a.html"
                    (VObject [("client_name", VString "Ada")]) noOverride
                    {| cache := ∅; printed := [] |}))
    = [warn_sign +:+ "Token 'payment.amount' not found in config"].
Proof.
  refine (processTemplate_renders_the_file (realm := ES2023.realm)
            (VObject [("client_name", VString "Ada")])
            (fun path => path)
            {["/t/a.html" :=
                {| content := "Hi {{client_name}}, due: {{ payment.amount }}";
                   mtime := 1 |}]}
            defaultProcessorOptions
            (fun _ _ => "Hi {{client_name}}, due: {{ payment.amount }}")
            "/t/a.html" noOverride {| cache := ∅; printed := [] |}
            {| content := "Hi {{client_name}}, due: {{ payment.amount }}";
               mtime := 1 |}
            [Text "Hi "; Marker "" "client_name" ""; Text ", due: ";
             Marker " " "payment.amount" " "]
            _ _ eq_refl eq_refl eq_refl _ eq_refl).
  - intros path f H. apply lookup_singleton_Some in H as [_ <-]. reflexivity.
  - intros path e H. simpl in H. rewrite lookup_empty in H. discriminate.
  - discriminate.
Defined.


(** ** Escaping and preview *)

(** X27.  [escapeRegex] escapes nothing in a string without a backslash:
    it returns the string as it is, whatever characters special to
    regular expressions the string holds. *)
Theorem escapeRegex_leaves_strings_without_backslash (str : string) :
  contains "\" str = false -> escapeRegex str = str.
Proof.
  induction str as [|c r IH]; [reflexivity|].
  cbn [contains]. intros H. apply orb_false_iff in H as [_ H].
  specialize (IH H). cbn [escapeRegex].
  destruct r as [|b1 [|b2 [|b3 rest]]]; try (now rewrite IH).
  cbn [contains] in H. apply orb_false_iff in H as [H1 _].
  rewrite Ascii.eqb_sym in H1. rewrite H1, andb_false_r. cbn [andb].
  now rewrite IH.
Qed.

Lemma escapeRegex_leaves_strings_without_backslash_witness :
  escapeRegex "items[0].price (USD) + tax?" = "items[0].price (USD) + tax?".
Proof.
  apply (escapeRegex_leaves_strings_without_backslash
           "items[0].price (USD) + tax?").
  reflexivity.
Defined.

(** X28.  [previewReplacements] sorts the tokens the way [replaceTokens]
    treats them.  Its [tokens] entries are the tokens that resolve to a
    value [String] converts, in order, each with the text its markers
    would be replaced by; its [missing] entries are the tokens that do not
    resolve; its [errors] entries are the tokens that resolve to a value
    [String] cannot convert, each with the message of the [TypeError].
    The tokens of the last two lists are the tokens [replaceTokens] warns
    about under ['warn'], each with the line of its list. *)
Theorem previewReplacements_foretells_replacement {host : RegExpHost}
    {realm : Realm}
    (content : string) (config : value) (tokens : option (list string)) :
  let preview := previewReplacements content config tokens in
  let all := tokensOf content tokens in
  preview_tokens preview
  = map (fun t => {| pt_token := t; pt_value := valueText config t;
                     pt_status := "found" |})
      (List.filter (printable config) all) /\
  preview_missing preview
  = map (fun t => {| pm_token := t; pm_path := t; pm_status := "missing" |})
      (List.filter (fun t => negb (resolves config t)) all) /\
  preview_errors preview
  = map (fun t => {| pe_token := t; pe_error := cannot_convert;
                     pe_status := "error" |})
      (List.filter (unprintable config) all) /\
  (forall t, printable config t = true ->
             textOfToken config t = Ok (valueText config t)) /\
  (forall t, negb (printable config t)
             = negb (resolves config t) || unprintable config t) /\
  (forallb compiles all = true ->
   console (replaceTokens content config tokens
              {| errorHandling := "warn";
                 missingTokenPlaceholder := "[MISSING]";
                 preserveUnknownTokens := false |})
   = map (fun t =>
            warn_sign
            +:+ (if resolves config t
                 then causedErrorMessage t cannot_convert
                 else notFoundMessage t))
       (List.filter (fun t => negb (printable config t)) all)).
Proof.
  intros preview all. subst preview all. unfold previewReplacements.
  fold (tokensOf content tokens).
  destruct (preview_fold config (tokensOf content tokens)
              {| preview_tokens := []; preview_missing := [];
                 preview_errors := [] |}) as (T & M & E).
  cbn [preview_tokens preview_missing preview_errors app] in *.
  split; [exact T|]. split; [exact M|]. split; [exact E|]. split.
  { intros t P.
    now destruct (printable_text _ _ P) as (x & text & _ & _ & _ & -> & ->). }
  split.
  { intros t.
    destruct (token_cases config t) as [(P & U & R)|[(P & U & R)|(P & U & R)]];
      now rewrite P, U, R. }
  intros C.
  destruct (replaceLoop_returns config
              {| errorHandling := "warn";
                 missingTokenPlaceholder := "[MISSING]";
                 preserveUnknownTokens := false |} _ C (content, []))
    as [text R].
  unfold replaceTokens. fold (tokensOf content tokens). rewrite R.
  cbn [snd app]. rewrite warningsFor_eq.
  generalize (List.filter (fun t => negb (printable config t))
                (tokensOf content tokens)).
  intros [|m ms]; [reflexivity|].
  cbn [map errorHandling String.eqb Ascii.eqb Bool.eqb console].
  now rewrite map_map.
Qed.


(** ** Suggestions for the missing tokens *)

Lemma to_value_nested (fields : list (string * suggestion)) :
  to_value (Nested fields) = VObject (to_properties fields).
Proof.
  cbn [to_value]. f_equal. unfold to_properties.
  induction fields as [|[k x] fields IH]; [reflexivity|].
  cbn [map fst snd]. now rewrite IH.
Qed.

Lemma own_property_to_properties (fields : list (string * suggestion))
    (key : string) :
  own_property (to_properties fields) key = to_value <$> own_field fields key.
Proof.
  induction fields as [|[k x] fields IH]; [reflexivity|].
  cbn [to_properties map fst snd own_property own_field].
  destruct (String.eqb k key); [reflexivity | exact IH].
Qed.

Lemma own_field_replace (fields : list (string * suggestion))
    (key key' : string) (x : suggestion) :
  own_field fields key <> None ->
  own_field (replace_field fields key x) key'
  = if String.eqb key key' then Some x else own_field fields key'.
Proof.
  induction fields as [|[k y] fields IH]; intros H; [now destruct H|].
  cbn [replace_field own_field] in *.
  destruct (String.eqb k key) eqn:K; cbn [own_field].
  - apply String.eqb_eq in K. subst k. now destruct (String.eqb key key').
  - rewrite (IH H). destruct (String.eqb k key') eqn:K'; [|reflexivity].
    apply String.eqb_eq in K'. subst k. now rewrite String.eqb_sym, K.
Qed.

Lemma own_field_insert_index (n : nat) (fields : list (string * suggestion))
    (key key' : string) (x : suggestion) :
  own_field fields key = None ->
  own_field (insert_index n key x fields) key'
  = if String.eqb key key' then Some x else own_field fields key'.
Proof.
  induction fields as [|[k y] fields IH]; intros H; [reflexivity|].
  cbn [own_field] in H. destruct (String.eqb k key) eqn:K; [discriminate H|].
  cbn [insert_index].
  destruct (property_index k) as [m|]; [|reflexivity].
  destruct (m <? n)%nat; [|reflexivity].
  cbn [own_field]. rewrite (IH H).
  destruct (String.eqb k key') eqn:K'; [|reflexivity].
  apply String.eqb_eq in K'. subst k. now rewrite String.eqb_sym, K.
Qed.

Lemma own_field_app (fields : list (string * suggestion))
    (key key' : string) (x : suggestion) :
  own_field fields key = None ->
  own_field (fields ++ [(key, x)]) key'
  = if String.eqb key key' then Some x else own_field fields key'.
Proof.
  induction fields as [|[k y] fields IH]; intros H.
  - cbn [app own_field]. reflexivity.
  - cbn [own_field] in H. destruct (String.eqb k key) eqn:K; [discriminate H|].
    cbn [app own_field]. rewrite (IH H).
    destruct (String.eqb k key') eqn:K'; [|reflexivity].
    apply String.eqb_eq in K'. subst k. now rewrite String.eqb_sym, K.
Qed.

(** Reading after an assignment. *)
Lemma own_field_assign (fields : list (string * suggestion))
    (key key' : string) (x : suggestion) :
  own_field (assign fields key x) key'
  = if String.eqb key key' then Some x else own_field fields key'.
Proof.
  unfold assign. destruct (own_field fields key) as [y|] eqn:O.
  - apply own_field_replace. congruence.
  - destruct (property_index key) as [n|].
    + now apply own_field_insert_index.
    + now apply own_field_app.
Qed.

Lemma set_parts_cons (fields : list (string * suggestion)) (part next : string)
    (rest : list string) (text : string) :
  set_parts fields (part :: next :: rest) text
  = if String.eqb part "__proto__" then None
    else inner' ← set_parts (match own_field fields part with
                             | Some (Nested inner) => inner
                             | _ => []
                             end) (next :: rest) text;
         Some (assign fields part (Nested inner')).
Proof. reflexivity. Qed.

Lemma lookup_parts_cons (fields : list (string * suggestion))
    (part next : string) (rest : list string) :
  lookup_parts fields (part :: next :: rest)
  = match own_field fields part with
    | Some (Nested inner) => lookup_parts inner (next :: rest)
    | _ => None
    end.
Proof. reflexivity. Qed.

(** A path without the part [__proto__] is set, and then found. *)
Lemma lookup_set_same (parts : list string) (text : string) :
  parts <> [] -> includes parts "__proto__" = false ->
  forall fields, exists fields',
    set_parts fields parts text = Some fields' /\
    lookup_parts fields' parts = Some (Placeholder text).
Proof.
  induction parts as [|part rest IH]; intros N P fields; [contradiction|].
  cbn [includes existsb] in P. apply orb_false_iff in P as [Pp P].
  rewrite String.eqb_sym in Pp.
  destruct rest as [|next rest].
  - cbn [set_parts lookup_parts]. rewrite Pp. eexists. split; [reflexivity|].
    now rewrite own_field_assign, String.eqb_refl.
  - rewrite set_parts_cons, Pp.
    destruct (IH ltac:(discriminate) P
                (match own_field fields part with
                 | Some (Nested inner) => inner
                 | _ => []
                 end)) as (inner' & -> & L).
    cbn [mbind option_bind]. eexists. split; [reflexivity|].
    now rewrite lookup_parts_cons, own_field_assign, String.eqb_refl.
Qed.

(** Setting a path leaves the paths that are unrelated to it as they
    are. *)
Lemma lookup_set_other (parts : list string) (text : string) :
  forall parts' fields fields',
    set_parts fields parts text = Some fields' ->
    is_prefix parts parts' = false -> is_prefix parts' parts = false ->
    lookup_parts fields' parts' = lookup_parts fields parts'.
Proof.
  induction parts as [|part rest IH]; intros parts' fields fields' S P P';
    [discriminate P|].
  destruct parts' as [|part' rest']; [discriminate P'|].
  cbn [is_prefix] in P, P'.
  destruct (String.eqb part part') eqn:E.
  - apply String.eqb_eq in E. subst part'. rewrite String.eqb_refl in P'.
    cbn [andb] in P, P'.
    destruct rest as [|next rest]; [discriminate P|].
    destruct rest' as [|next' rest']; [discriminate P'|].
    rewrite set_parts_cons in S.
    destruct (String.eqb part "__proto__"); [discriminate S|].
    destruct (set_parts _ (next :: rest) text) as [inner'|] eqn:Si;
      [|discriminate S].
    cbn [mbind option_bind] in S. injection S as <-.
    rewrite !lookup_parts_cons, own_field_assign, String.eqb_refl.
    rewrite (IH (next' :: rest') _ _ Si P P').
    destruct (own_field fields part) as [[s|inner]|]; try reflexivity;
      destruct rest'; reflexivity.
  - assert (O : forall x, own_field (assign fields part x) part'
                         = own_field fields part').
    { intros x. now rewrite own_field_assign, E. }
    assert (F : fields' = fields \/ exists x, fields' = assign fields part x).
    { destruct rest as [|next rest].
      - cbn [set_parts] in S.
        destruct (String.eqb part "__proto__"); injection S as <-; eauto.
      - rewrite set_parts_cons in S.
        destruct (String.eqb part "__proto__"); [discriminate S|].
        destruct (set_parts _ (next :: rest) text) as [inner'|];
          [|discriminate S].
        cbn [mbind option_bind] in S. injection S as <-. eauto. }
    destruct F as [->|[x ->]]; [reflexivity|].
    destruct rest' as [|next' rest'].
    + cbn [lookup_parts]. apply O.
    + rewrite !lookup_parts_cons. now rewrite O.
Qed.

Lemma lookup_parts_reaches (parts : list string) :
  forall fields x,
    lookup_parts fields parts = Some x ->
    reaches (VObject (to_properties fields)) parts (to_value x).
Proof.
  induction parts as [|part rest IH]; intros fields x L; [discriminate L|].
  destruct rest as [|next rest].
  - cbn [lookup_parts] in L. econstructor; [|constructor].
    cbn [member]. now rewrite own_property_to_properties, L.
  - rewrite lookup_parts_cons in L.
    destruct (own_field fields part) as [[s|inner]|] eqn:O;
      try discriminate L.
    econstructor.
    + cbn [member]. rewrite own_property_to_properties, O. reflexivity.
    + rewrite to_value_nested. now apply IH.
Qed.

(** The body of the loop of [generateConfigSuggestions] is
    [setNestedValue] on the parts of the token, of which there is one when
    the token has no dot. *)
Lemma suggest_parts (suggestions : list (string * suggestion))
    (token : string) :
  suggest suggestions token
  = set_parts suggestions (split_dot token) ("[" +:+ token +:+ "]").
Proof.
  unfold suggest.
  destruct (includes_dot token) eqn:D; [reflexivity|].
  now rewrite (split_dot_single _ D).
Qed.

Lemma suggestFrom_app (first second : list missingEntry) :
  forall suggestions,
    suggestFrom suggestions (first ++ second)
    = (suggestions ← suggestFrom suggestions first;
       suggestFrom suggestions second).
Proof.
  induction first as [|m first IH]; intros suggestions; [reflexivity|].
  cbn [app suggestFrom].
  destruct (suggest suggestions (m_token m)) as [s|]; [|reflexivity].
  cbn [mbind option_bind]. apply IH.
Qed.

Lemma suggestions_fold (missingTokens : list missingEntry) :
  unrelated (map m_token missingTokens) = true ->
  forallb proto_free (map m_token missingTokens) = true ->
  forall start, exists suggested,
    suggestFrom start missingTokens = Some suggested /\
    (missingTokens <> [] -> suggested <> []) /\
    forall t, In t (map m_token missingTokens) ->
      lookup_parts suggested (split_dot t)
      = Some (Placeholder ("[" +:+ t +:+ "]")).
Proof.
  intros U. unfold unrelated in U. rewrite forallb_forall in U.
  assert (R : forall t t', In t (map m_token missingTokens) ->
              In t' (map m_token missingTokens) -> t <> t' ->
              is_prefix (split_dot t) (split_dot t') = false).
  { intros t t' I I' N. specialize (U t I). rewrite forallb_forall in U.
    specialize (U t' I'). apply String.eqb_neq in N. rewrite N in U.
    now apply negb_true_iff in U. }
  clear U.
  induction missingTokens as [|last ms IH] using rev_ind; intros P start.
  - exists start. split; [reflexivity|]. split; [congruence|]. intros t [].
  - rewrite map_app in *. cbn [map] in *.
    rewrite forallb_app in P. apply andb_prop in P as [P Pl].
    cbn [forallb] in Pl. apply andb_prop in Pl as [Pl _].
    destruct (IH ltac:(intros a b Ia Ib; apply R; apply in_app_iff; now left)
                P start) as (middle & E & _ & L).
    rewrite suggestFrom_app, E. cbn [mbind option_bind suggestFrom].
    rewrite suggest_parts.
    unfold proto_free in Pl. apply negb_true_iff in Pl.
    destruct (lookup_set_same (split_dot (m_token last))
                ("[" +:+ m_token last +:+ "]")
                (split_dot_not_nil _) Pl middle) as (suggested & S & Ls).
    rewrite S. cbn [mbind option_bind]. exists suggested.
    split; [reflexivity|]. split.
    { intros _ ->. destruct (split_dot (m_token last)) as [|p [|q r]];
        discriminate Ls. }
    intros t I. apply in_app_iff in I.
    destruct (String.eqb_spec t (m_token last)) as [->|N]; [exact Ls|].
    rewrite (lookup_set_other _ _ _ _ _ S).
    + apply L. destruct I as [I|[E'|[]]]; [exact I | congruence].
    + apply R; [apply in_app_iff; right; now left | | congruence].
      apply in_app_iff. destruct I as [I|[E'|[]]]; [now left | congruence].
    + apply R; [| apply in_app_iff; right; now left | exact N].
      apply in_app_iff. destruct I as [I|[E'|[]]]; [now left | congruence].
Qed.

(** X29.  [generateValidationReport] throws when the validation does, that
    is, when unused values are asked for and the flattening of the
    configuration meets an object with an own property [hasOwnProperty].
    Otherwise the counts of the validation add up.  When, moreover, no
    missing token has a part [__proto__], and none is another one, or a
    part of another one up to a dot, the report is returned; it suggests a
    configuration exactly when a token is missing; and the suggested
    configuration is one in which every missing token resolves, to the
    placeholder [[<token>]]. *)
Theorem suggestions_resolve_the_missing_tokens {realm : Realm}
    (config : value) (tokens : list string) (opts : validateOptions) :
  if negb (warnOnUnused opts) || unshadowed config
  then exists validation,
         validateAgainstTokens config tokens opts = Ok validation /\
         length (found validation) + length (missing validation)
         = length tokens /\
         let missingTokens := map m_token (missing validation) in
         (forallb proto_free missingTokens = true ->
          unrelated missingTokens = true ->
          exists suggested,
            generateConfigSuggestions (missing validation) = Some suggested /\
            generateValidationReport config tokens opts
            = Ok (Some (reportOf tokens validation suggested)) /\
            (suggestedConfig (reportOf tokens validation suggested) = None
             <-> missingTokens = []) /\
            (missingTokens <> [] ->
             suggestedConfig (reportOf tokens validation suggested)
             = Some suggested) /\
            forall t,
              In t missingTokens ->
              getNestedValue (VObject (to_properties suggested)) t
              = Ok (Data (VString ("[" +:+ t +:+ "]"))))
  else generateValidationReport config tokens opts = Throw not_a_function.
Proof.
  pose proof (validates_returns config tokens opts) as R.
  destruct (negb (warnOnUnused opts) || unshadowed config).
  2:{ unfold generateValidationReport. now rewrite R. }
  destruct R as (validation & V & _ & _ & M & F).
  exists validation. split; [exact V|]. split.
  { rewrite <- (List.length_map f_token),
      <- (List.length_map m_token (missing _)).
    rewrite F, M, found_validateLoop, missing_validateLoop, missingOf_tokens.
    apply filter_partition_length. }
  intros missingTokens P U. subst missingTokens.
  destruct (suggestions_fold (missing validation) U P []) as (suggested & S & N & L).
  exists suggested. split; [exact S|].
  unfold generateValidationReport. rewrite V. cbn [mbind exc_bind].
  fold (generateConfigSuggestions (missing validation)) in S.
  assert (K : missing validation <> [] ->
              suggestedConfig (reportOf tokens validation suggested)
              = Some suggested).
  { intros H. specialize (N H). unfold reportOf. cbn [suggestedConfig].
    destruct (missing validation); [congruence|].
    destruct suggested; [congruence | reflexivity]. }
  split; [|split; [|split]].
  - destruct (missing validation) as [|m ms] eqn:E.
    + injection S as <-. reflexivity.
    + rewrite S. reflexivity.
  - split.
    + intros H. destruct (missing validation) as [|m ms]; [reflexivity|].
      rewrite K in H by discriminate. discriminate H.
    + intros H. apply map_eq_nil in H. unfold reportOf. now rewrite H.
  - intros H. apply K. intros E. apply H. now rewrite E.
  - intros t I. rewrite getNestedValue_descend.
    apply (descend_reaches _ _ (to_value (Placeholder ("[" +:+ t +:+ "]")))).
    apply lookup_parts_reaches. now apply L.
Qed.


(** ** A configuration processed twice *)

Lemma set_property_same (props : list (string * value)) (key : string)
    (v : value) :
  own_property props key = Some v -> set_property props key v = props.
Proof.
  induction props as [|[k x] props IH]; [discriminate|].
  cbn [own_property set_property].
  destruct (String.eqb k key) eqn:E.
  - now intros [= ->].
  - intros H. now rewrite (IH H).
Qed.

Lemma trim_not_empty (s : string) : trim s <> "" -> s <> "".
Proof. intros H ->. now apply H. Qed.

Lemma processConfig_inv (today : string) (rawConfig config : value) :
  processConfig today rawConfig = Ok config ->
  applyDefaults today rawConfig = Ok config /\ validateConfig config = Ok [].
Proof.
  unfold processConfig.
  destruct (applyDefaults today rawConfig) as [c|]; [|discriminate].
  cbn [mbind exc_bind].
  destruct (validateConfig c) as [[|e errors]|] eqn:V;
    [|discriminate|discriminate].
  cbn [mbind exc_bind]. intros [= <-]. now split.
Qed.

(** X30.  A configuration [processConfig] returned goes through
    [processConfig] again unchanged, and without an error. *)
Theorem processConfig_accepts_its_own_result (today : string)
    (rawConfig config : value) :
  processConfig today rawConfig = Ok config ->
  processConfig today config = Ok config.
Proof.
  intros H. destruct (processConfig_inv _ _ _ H) as [_ V].
  apply processConfig_shape in H
    as (result & name & amount & description & provider
        & -> & R & _ & _ & Na & Nd & Nv).
  set (payment := VObject [("amount", VString amount);
                           ("description", VString description);
                           ("provider", VString provider)]) in *.
  set (props := set_property result "payment" payment) in *.
  assert (P : own_property props "payment" = Some payment).
  { subst props. now rewrite own_property_set_property. }
  assert (A : applyDefaults today (VObject props) = Ok (VObject props)).
  { unfold applyDefaults. cbn [spread].
    assert (D : exists noDate,
              blank "result.date" (read props "date") = Ok noDate /\
              (if noDate : bool
               then set_property props "date" (VString today) else props)
              = props).
    { assert (O : own_property props "date" = own_property result "date").
      { subst props. now rewrite own_property_set_property. }
      unfold read. rewrite O.
      destruct R as [[-> (date & Dd & Nn)]| ->].
      - rewrite Dd. exists false. split; [|reflexivity].
        unfold blank. apply trim_not_empty in Nn as Ne.
        apply String.eqb_neq in Ne, Nn. cbn [truthy call_trim].
        rewrite Ne. cbn [negb orb mbind exc_bind]. now rewrite Nn.
      - rewrite own_property_set_property. cbn [String.eqb Ascii.eqb Bool.eqb].
        assert (S : set_property props "date" (VString today) = props).
        { apply set_property_same. rewrite O.
          now rewrite own_property_set_property. }
        unfold blank. destruct (negb (truthy (VString today)));
          [exists true; now split|].
        cbn [call_trim mbind exc_bind].
        exists (String.eqb (trim today) ""). split; [reflexivity|].
        now destruct (String.eqb (trim today) ""). }
    destruct D as (noDate & -> & D). cbn [mbind exc_bind]. rewrite D.
    unfold read. rewrite P.
    assert (T : truthy payment = true) by reflexivity.
    rewrite T. cbn [negb].
    assert (Ga : get_prop payment "amount" = Ok (VString amount))
      by reflexivity.
    assert (Gd : get_prop payment "description" = Ok (VString description))
      by reflexivity.
    assert (Gv : get_prop payment "provider" = Ok (VString provider))
      by reflexivity.
    rewrite Ga, Gd, Gv. cbn [mbind exc_bind].
    assert (E : forall s d, trim s <> "" -> or_else (VString s) d = VString s).
    { intros s d N. apply trim_not_empty, String.eqb_neq in N.
      unfold or_else, truthy. now rewrite N. }
    rewrite !E by assumption. fold payment.
    now rewrite (set_property_same _ _ _ P). }
  unfold processConfig. rewrite A. cbn [mbind exc_bind]. now rewrite V.
Qed.

Lemma processConfig_accepts_its_own_result_witness :
  processConfig "June 6, 2025"
    (VObject [("client_name", VString "Ada");
              ("payment", VObject [("amount", VString "Pay $5");
                                   ("description", VString "Deposit to Start");
                                   ("provider", VString "Bonsai")]);
              ("date", VString "June 6, 2025")])
  = Ok (VObject [("client_name", VString "Ada");
                 ("payment", VObject [("amount", VString "Pay $5");
                                      ("description", VString "Deposit to Start");
                                      ("provider", VString "Bonsai")]);
                 ("date", VString "June 6, 2025")]).
Proof.
  apply (processConfig_accepts_its_own_result "June 6, 2025"
           (VObject [("client_name", VString "Ada");
                     ("payment", VObject [("amount", VString "Pay $5");
                                          ("link", VString "https://pay")])])).
  reflexivity.
Defined.
